(** * Homomorphic authentication: a shallow embedding of the Go sources

    The development follows the layout of the repository:
    - [crypto/bytestream.go]  : the deterministic key stream ([ByteStream]);
    - [crypto/packet.go]      : [Packet], bitwise [Encrypt]/[Decrypt] and the
                                parallel gate evaluators;
    - [crypto/publickey.go]   : the wire form of the go-tfhe public key;
    - the server ([makeEncryptedMutation], the three handlers) and the client
      ([SignUp], [LogIn]).

    Go integers and bytes are [Z] with the wrap-around written out, slices
    are lists indexed by [nat], a run-time panic is an explicit [Panic]
    outcome, and the go-tfhe backend and the Go standard library enter as
    type-class parameters. *)

From Stdlib Require Import ZArith Lia Bool.
From stdpp Require Import base list strings gmap.

Local Open Scope Z_scope.

(** ** Outcomes of Go code: a value, a panic, or an exhausted loop budget *)

Inductive outcome (A : Type) : Type :=
  | Ok (a : A)
  | Panic (msg : string)
  | OutOfFuel.
Arguments Ok {A} a.
Arguments Panic {A} msg.
Arguments OutOfFuel {A}.

Definition obind {A B} (m : outcome A) (k : A -> outcome B) : outcome B :=
  match m with
  | Ok a => k a
  | Panic msg => Panic msg
  | OutOfFuel => OutOfFuel
  end.

Notation "x <- m ;; k" := (obind m (fun x => k))
  (at level 100, m at next level, right associativity).

(** ** Slices

    [s[i]] and [s[i] = x] panic out of range; [make([]T, n)] is [n] copies
    of the zero value. *)

Definition index_panic : string := "index out of range"%string.
Definition slice_panic : string := "slice bounds out of range"%string.
Definition nil_panic : string :=
  "invalid memory address or nil pointer dereference"%string.

Definition load {A} (s : list A) (i : nat) : outcome A :=
  match s !! i with
  | Some x => Ok x
  | None => Panic index_panic
  end.

Definition store {A} (s : list A) (i : nat) (x : A) : outcome (list A) :=
  if decide (i < length s)%nat then Ok (<[i := x]> s) else Panic index_panic.

(** [s[:n]] and [s[n:]] on a slice whose capacity equals its length. *)
Definition slice_to {A} (s : list A) (n : nat) : outcome (list A) :=
  if decide (n <= length s)%nat then Ok (take n s) else Panic slice_panic.

Definition slice_from {A} (s : list A) (n : nat) : outcome (list A) :=
  if decide (n <= length s)%nat then Ok (drop n s) else Panic slice_panic.

(** [for i, x := range xs { body }] with the loop state threaded through;
    [i0] is the index of the head of [xs]. *)
Fixpoint for_range {A St : Type} (body : nat -> A -> St -> outcome St)
    (i0 : nat) (xs : list A) (s : St) : outcome St :=
  match xs with
  | [] => Ok s
  | x :: xs' => s' <- body i0 x s ;; for_range body (S i0) xs' s'
  end.

(** What a loop body with a [return] inside hands back: the function's
    result, or the state the next iteration starts from. *)
Inductive flow (R St : Type) : Type :=
  | Return (r : R)
  | Next (s : St).
Arguments Return {R St} r.
Arguments Next {R St} s.

(** Bytes are integers in [0, 256). *)
Definition is_byte (b : Z) : Prop := 0 <= b < 256.
Definition byte_wrap (z : Z) : Z := Z.land z 255.

(** ** The go-tfhe types that publickey.go copies around

    The repository imports these structs from go-tfhe; the records list the
    fields the sources name.  Parameter sets, the key-switching key, the
    body of the (non-FFT) bootstrapping key and the floating-point numbers
    are only ever copied, so they stay abstract.  The fields of one module
    share a name space: [K] and [L] of [TGswSampleFFT] are [TGsw_K] and
    [TGsw_L], and the fields of [LweBootstrappingKeyFFT] carry the prefix
    [FFT_]. *)

Class TfheTypes : Type := {
  GateBootstrappingParameterSet : Type;
  LweParams : Type;
  TGswParams : Type;
  TLweParams : Type;
  LweKeySwitchKey : Type;
  TGswSamples : Type;
  float64 : Type;
  complex128 : Type;
}.

Module fft.
Section Types.
Context {TT : TfheTypes}.

Record LagrangeHalfCPolynomial : Type := {
  Coefs : list complex128;
}.
End Types.
End fft.

Module core.
Section Types.
Context {TT : TfheTypes}.

Record TLweSampleFFT : Type := {
  A : list fft.LagrangeHalfCPolynomial;
  CurrentVariance : float64;
  K : Z;
}.

Record TGswSampleFFT : Type := {
  AllSample : list TLweSampleFFT;
  BlocSample : list (list TLweSampleFFT);
  TGsw_K : Z;
  TGsw_L : Z;
}.

Record LweBootstrappingKey : Type := {
  InOutParams : LweParams;
  BkParams : TGswParams;
  AccumParams : TLweParams;
  ExtractParams : LweParams;
  Bk_samples : TGswSamples;
  Ks : LweKeySwitchKey;
}.

Record LweBootstrappingKeyFFT : Type := {
  FFT_InOutParams : LweParams;
  FFT_BkParams : TGswParams;
  FFT_AccumParams : TLweParams;
  FFT_ExtractParams : LweParams;
  FFT_Bk : list TGswSampleFFT;
  FFT_Ks : LweKeySwitchKey;
}.

Record LweBootstrappingKeyWrapper : Type := {
  Bk : LweBootstrappingKey;
  BkFFT : LweBootstrappingKeyFFT;
}.
End Types.

(** The secret keys packet.go fills in: an LWE key is a vector of [int32],
    a TLWE key a vector of polynomials, each a vector [Coefs] of [int32];
    of a TGSW key the sources name the TLWE key inside it. *)
Section KeyTypes.
Context {TT : TfheTypes}.

Record LweKey : Type := {
  LweKey_Params : LweParams;
  LweKey_Key : list Z;
}.

Record TLweKey : Type := {
  TLweKey_Params : TLweParams;
  TLweKey_Key : list (list Z);
}.

Record TGswKey : Type := {
  TlweKey : TLweKey;
}.
End KeyTypes.
End core.

Module gates.
Section Types.
Context {TT : TfheTypes}.

Record PublicKey : Type := {
  Params : GateBootstrappingParameterSet;
  Bkw : core.LweBootstrappingKeyWrapper;
}.
End Types.
End gates.

(** ** The go-tfhe backend

    Everything the repository calls in go-tfhe is a parameter.  A value of
    [LweSample] stands for a Go [*core.LweSample], so that a [gates.Ctxt] is
    a [list LweSample]; [nil_sample] is the nil pointer that
    [make(gates.Ctxt, n)] fills a fresh slice with, and
    [nil_private_key] the nil [*gates.PrivateKey] of a public-only packet.
    [BootsSymEncrypt] draws noise, so it threads the backend's generator
    state [Rng]; the gates are functions of the public key and the samples.
    The parameters are total functions; go-tfhe's own dereference the key
    and the samples they are handed, so the parameters stand for them on
    keys and samples that are not nil. *)

Class HEBackend {TT : TfheTypes} : Type := {
  PrivateKey : Type;
  nil_private_key : PrivateKey;
  LweSample : Type;
  nil_sample : LweSample;
  Rng : Type;
  BootsSymEncrypt : PrivateKey -> Z -> Rng -> LweSample * Rng;
  BootsSymDecrypt : PrivateKey -> LweSample -> Z;
  gate_And : gates.PublicKey -> LweSample -> LweSample -> LweSample;
  gate_Or : gates.PublicKey -> LweSample -> LweSample -> LweSample;
  gate_Xor : gates.PublicKey -> LweSample -> LweSample -> LweSample;
  gate_Xnor : gates.PublicKey -> LweSample -> LweSample -> LweSample;
  gate_Not : gates.PublicKey -> LweSample -> LweSample;
  gate_Copy : gates.PublicKey -> LweSample -> LweSample;
}.

(** ** The Go standard library

    [hash/fnv], [crypto/aes], [crypto/cipher]: a [Stream] is a
    [cipher.Stream], characterised by the key-stream byte it yields next;
    [fnv128_sum data] is [h := fnv.New128(); h.Write(data); h.Sum(nil)]. *)

Class GoStdlib : Type := {
  fnv128_sum : list Z -> list Z;
  Block : Type;
  aes_NewCipher : list Z -> string + Block;
  Stream : Type;
  cipher_NewCTR : Block -> list Z -> outcome Stream;
  stream_next : Stream -> Z * Stream;
  Hash64 : Type;
  fnv_New64 : Hash64;
  Hash64_Write : Hash64 -> list Z -> string + Hash64;
  Hash64_Sum : Hash64 -> list Z;
}.

(** ** The go-tfhe constructors behind key generation

    The parameter set and its parts, the allocators of empty keys, and the
    constructors of the bootstrapping key (which draws noise) and of the two
    keys of a packet. *)

Class KeyGenBackend {TT : TfheTypes} {BE : HEBackend} : Type := {
  DefaultGateBootstrappingParameters : Z -> GateBootstrappingParameterSet;
  Params_InOutParams : GateBootstrappingParameterSet -> LweParams;
  Params_TgswParams : GateBootstrappingParameterSet -> TGswParams;
  Params_KsT : GateBootstrappingParameterSet -> Z;
  Params_KsBasebit : GateBootstrappingParameterSet -> Z;
  LweParams_N : LweParams -> Z;
  TLweParams_N : TLweParams -> Z;
  TLweParams_K : TLweParams -> Z;
  NewLweKey : LweParams -> core.LweKey;
  NewTGswKey : TGswParams -> core.TGswKey;
  NewLweBootstrappingKeyWrapper :
    Z -> Z -> LweParams -> TGswParams -> core.LweKey -> core.TGswKey -> Rng ->
    core.LweBootstrappingKeyWrapper * Rng;
  NewPublicKey :
    GateBootstrappingParameterSet -> core.LweBootstrappingKeyWrapper -> gates.PublicKey;
  NewPrivateKey :
    GateBootstrappingParameterSet -> core.LweBootstrappingKeyWrapper ->
    core.LweKey -> core.TGswKey -> PrivateKey;
}.

(** * Package crypto *)

Module crypto.
Section Crypto.
Context {TT : TfheTypes} {BE : HEBackend} {GS : GoStdlib}.

(** ** publickey.go: the JSON-marshallable mirror of the public key *)

Record lagrangeHalfCPolynomial : Type := {
  Coefs : list complex128;
}.

Record tLweSampleFFT : Type := {
  A : list lagrangeHalfCPolynomial;
  CurrentVariance : float64;
  K : Z;
}.

Record tGswSampleFFT : Type := {
  AllSample : list tLweSampleFFT;
  BlocSample : list (list tLweSampleFFT);
  TGsw_K : Z;
  TGsw_L : Z;
}.

Record lweBootstrappingKeyFFT : Type := {
  FFT_InOutParams : LweParams;
  FFT_BkParams : TGswParams;
  FFT_AccumParams : TLweParams;
  FFT_ExtractParams : LweParams;
  FFT_Bk : list tGswSampleFFT;
  FFT_Ks : LweKeySwitchKey;
}.

Record lweBootstrappingKeyWrapper : Type := {
  Bk : core.LweBootstrappingKey;
  BkFFT : lweBootstrappingKeyFFT;
}.

Record PublicKey : Type := {
  Params : GateBootstrappingParameterSet;
  Bkw : lweBootstrappingKeyWrapper;
}.

(** The loops of [MakePublicKey] allocate a slice of the length of the one
    they range over and assign every index once: they are [map]s. *)

Definition wire_of_poly (x : fft.LagrangeHalfCPolynomial) : lagrangeHalfCPolynomial :=
  {| Coefs := fft.Coefs x |}.

Definition wire_of_tlwe (w : core.TLweSampleFFT) : tLweSampleFFT :=
  {| A := map wire_of_poly (core.A w);
     CurrentVariance := core.CurrentVariance w;
     K := core.K w |}.

Definition wire_of_tgsw (v : core.TGswSampleFFT) : tGswSampleFFT :=
  {| AllSample := map wire_of_tlwe (core.AllSample v);
     BlocSample := map (map wire_of_tlwe) (core.BlocSample v);
     TGsw_K := core.TGsw_K v;
     TGsw_L := core.TGsw_L v |}.

Definition MakePublicKey (pk : gates.PublicKey) : PublicKey :=
  let Bk' := map wire_of_tgsw (core.FFT_Bk (core.BkFFT (gates.Bkw pk))) in
  let BkFFT' :=
    {| FFT_InOutParams := core.InOutParams (core.Bk (gates.Bkw pk));
       FFT_BkParams := core.BkParams (core.Bk (gates.Bkw pk));
       FFT_AccumParams := core.AccumParams (core.Bk (gates.Bkw pk));
       FFT_ExtractParams := core.ExtractParams (core.Bk (gates.Bkw pk));
       FFT_Ks := core.Ks (core.Bk (gates.Bkw pk));
       FFT_Bk := Bk' |} in
  let Bkw' := {| Bk := core.Bk (gates.Bkw pk); BkFFT := BkFFT' |} in
  {| Params := gates.Params pk; Bkw := Bkw' |}.

Definition poly_of_wire (x : lagrangeHalfCPolynomial) : fft.LagrangeHalfCPolynomial :=
  {| fft.Coefs := Coefs x |}.

Definition tlwe_of_wire (w : tLweSampleFFT) : core.TLweSampleFFT :=
  {| core.A := map poly_of_wire (A w);
     core.CurrentVariance := CurrentVariance w;
     core.K := K w |}.

Definition tgsw_of_wire (v : tGswSampleFFT) : core.TGswSampleFFT :=
  {| core.AllSample := map tlwe_of_wire (AllSample v);
     core.BlocSample := map (map tlwe_of_wire) (BlocSample v);
     core.TGsw_K := TGsw_K v;
     core.TGsw_L := TGsw_L v |}.

Definition fromPublicKey (pk : PublicKey) : gates.PublicKey :=
  let Bk' := map tgsw_of_wire (FFT_Bk (BkFFT (Bkw pk))) in
  let BkFFT' :=
    {| core.FFT_InOutParams := core.InOutParams (Bk (Bkw pk));
       core.FFT_BkParams := core.BkParams (Bk (Bkw pk));
       core.FFT_AccumParams := core.AccumParams (Bk (Bkw pk));
       core.FFT_ExtractParams := core.ExtractParams (Bk (Bkw pk));
       core.FFT_Ks := core.Ks (Bk (Bkw pk));
       core.FFT_Bk := Bk' |} in
  let Bkw' := {| core.Bk := Bk (Bkw pk); core.BkFFT := BkFFT' |} in
  {| gates.Params := Params pk; gates.Bkw := Bkw' |}.

(** ** bytestream.go *)

(** A [[]byte] together with the array behind it: the slice sees the first
    [slen] cells of [backing]; its capacity is the length of [backing]. *)
Record byte_slice : Type := {
  backing : list Z;
  slen : nat;
}.

Definition slice_view (s : byte_slice) : list Z := take (slen s) (backing s).

(** [append(s, x)].  With spare capacity the cell after the slice is
    overwritten in the shared array; otherwise a new array is allocated.
    The second component is the array behind [s] after the call. *)
Definition go_append (s : byte_slice) (x : Z) : byte_slice * list Z :=
  if decide (slen s < length (backing s))%nat
  then let arr := <[slen s := x]> (backing s) in
       ({| backing := arr; slen := S (slen s) |}, arr)
  else ({| backing := slice_view s ++ [x]; slen := S (slen s) |}, backing s).

Record ByteStream : Type := {
  stream : Stream;
}.

Definition MakeByteStream (key : byte_slice) : outcome ByteStream :=
  let '(k0, arr0) := go_append key 0 in
  let seed1 := fnv128_sum (slice_view k0) in
  let key' := {| backing := arr0; slen := slen key |} in
  let '(k1, _) := go_append key' 1 in
  let seed2 := fnv128_sum (slice_view k1) in
  match aes_NewCipher seed1 with
  | inl err => Panic err
  | inr block =>
      st <- cipher_NewCTR block seed2 ;;
      Ok {| stream := st |}
  end.

(** [binary.LittleEndian.AppendUint64(nil, v)]: eight bytes, least
    significant first, in an array of their own. *)
Definition AppendUint64_nil (v : Z) : byte_slice :=
  {| backing := map (fun k => byte_wrap (Z.shiftr v (8 * Z.of_nat k))) (seq 0 8);
     slen := 8 |}.

(** [u] is the value [rand.Uint64()] returned. *)
Definition MakeRandByteStream (u : Z) : outcome ByteStream :=
  MakeByteStream (AppendUint64_nil u).

(** [XORKeyStream(dst, src)] with [dst] and [src] the same slice: every
    byte is XORed with the next byte of the key stream. *)
Fixpoint XORKeyStream (st : Stream) (src : list Z) : list Z * Stream :=
  match src with
  | [] => ([], st)
  | b :: rest =>
      let '(k, st1) := stream_next st in
      let '(out, st2) := XORKeyStream st1 rest in
      (Z.lxor b (byte_wrap k) :: out, st2)
  end.

Definition NextBytes (cbs : ByteStream) (n : nat) : list Z * ByteStream :=
  let value := replicate n 0 in
  let '(value', st') := XORKeyStream (stream cbs) value in
  (value', {| stream := st' |}).

Definition NextByte (cbs : ByteStream) : outcome (Z * ByteStream) :=
  let '(value, cbs') := NextBytes cbs 1 in
  b <- load value 0 ;;
  Ok (b, cbs').

(** ** packet.go *)

Record Packet : Type := {
  pub : gates.PublicKey;
  prv : PrivateKey;
}.

Definition MakePublicPacket (publicKey : PublicKey) : Packet :=
  {| pub := fromPublicKey publicKey; prv := nil_private_key |}.

(** The state of the two nested loops of [Encrypt]: the slice being filled,
    the running index [i] and the backend's generator. *)
Definition Encrypt_bit (p : Packet) (b : Z) (_ : nat) (j : nat)
    (s : list LweSample * nat * Rng) : outcome (list LweSample * nat * Rng) :=
  let '(ctxt, i, g) := s in
  let '(c, g') := BootsSymEncrypt (prv p) (Z.land (Z.shiftr b (Z.of_nat j)) 1) g in
  ctxt' <- store ctxt i c ;;
  Ok (ctxt', S i, g').

Definition Encrypt_byte (p : Packet) (_ : nat) (b : Z)
    (s : list LweSample * nat * Rng) : outcome (list LweSample * nat * Rng) :=
  for_range (Encrypt_bit p b) 0 (seq 0 8) s.

Definition Encrypt (p : Packet) (payload : list Z) (g : Rng)
    : outcome (list LweSample * Rng) :=
  let ctxt := replicate (8 * length payload) nil_sample in
  r <- for_range (Encrypt_byte p) 0 payload (ctxt, 0%nat, g) ;;
  let '(ctxt', _, g') := r in
  Ok (ctxt', g').

(** The statement of [Decrypt]'s inner loop: shift the byte right and put
    the decrypted bit on top. *)
Definition shift_in (r : Z) (d : Z) : Z :=
  Z.lor (Z.shiftr r 1) (byte_wrap (Z.shiftl (byte_wrap d) 7)).

(** [for k := 0; k < 8; k++ { ... }], over the iterations [ks] still to run. *)
Fixpoint Decrypt_inner (p : Packet) (encryptedPayload : list LweSample) (j : nat)
    (ks : list nat) (result : list Z) (i : nat)
    : outcome (flow (list Z) (list Z * nat)) :=
  match ks with
  | [] => Ok (Next (result, i))
  | _ :: ks' =>
      r <- load result j ;;
      c <- load encryptedPayload i ;;
      result' <- store result j (shift_in r (BootsSymDecrypt (prv p) c)) ;;
      let i' := S i in
      if decide (length encryptedPayload <= i')%nat
      then Ok (Return result')
      else Decrypt_inner p encryptedPayload j ks' result' i'
  end.

(** [for j := 0; ; j++ { ... }]: the loop has no exit of its own, so the
    model runs it on a budget of outer iterations. *)
Fixpoint Decrypt_outer (fuel : nat) (p : Packet) (encryptedPayload : list LweSample)
    (j : nat) (result : list Z) (i : nat) : outcome (list Z) :=
  match fuel with
  | O => OutOfFuel
  | S fuel' =>
      f <- Decrypt_inner p encryptedPayload j (seq 0 8) result i ;;
      match f with
      | Return r => Ok r
      | Next (result', i') => Decrypt_outer fuel' p encryptedPayload (S j) result' i'
      end
  end.

(** The nil slice returned for an empty ciphertext is the empty list. *)
Definition Decrypt (p : Packet) (encryptedPayload : list LweSample) : outcome (list Z) :=
  let result := replicate ((length encryptedPayload + 7) / 8)%nat 0 in
  if decide (length result = 0%nat) then Ok []
  else Decrypt_outer (length encryptedPayload) p encryptedPayload 0 result 0.

Definition size_panic : string := "expected equal bit size"%string.

(** One goroutine per index; each writes its own cell of [result] and reads
    only the inputs, and [wg.Wait] joins them all.  The cells are filled
    here in index order; the [_scheduled] variants below fill them in any
    other. *)
Definition ParallelUnary (p : Packet)
    (operation : gates.PublicKey -> LweSample -> LweSample)
    (a : list LweSample) : outcome (list LweSample) :=
  let result := replicate (length a) nil_sample in
  for_range (fun i _ result =>
               a_i <- load a i ;;
               store result i (operation (pub p) a_i)) 0 a result.

Definition ParallelBinary (p : Packet)
    (operation : gates.PublicKey -> LweSample -> LweSample -> LweSample)
    (a b : list LweSample) : outcome (list LweSample) :=
  if decide (length a ≠ length b) then Panic size_panic
  else
    let result := replicate (length a) nil_sample in
    for_range (fun i _ result =>
                 a_i <- load a i ;;
                 b_i <- load b i ;;
                 store result i (operation (pub p) a_i b_i)) 0 a result.

(** The same two evaluators with the goroutines finishing in the order
    [sched] instead of index order. *)
Definition ParallelUnary_scheduled (sched : list nat) (p : Packet)
    (operation : gates.PublicKey -> LweSample -> LweSample)
    (a : list LweSample) : outcome (list LweSample) :=
  let result := replicate (length a) nil_sample in
  for_range (fun _ i result =>
               a_i <- load a i ;;
               store result i (operation (pub p) a_i)) 0 sched result.

Definition ParallelBinary_scheduled (sched : list nat) (p : Packet)
    (operation : gates.PublicKey -> LweSample -> LweSample -> LweSample)
    (a b : list LweSample) : outcome (list LweSample) :=
  if decide (length a ≠ length b) then Panic size_panic
  else
    let result := replicate (length a) nil_sample in
    for_range (fun _ i result =>
                 a_i <- load a i ;;
                 b_i <- load b i ;;
                 store result i (operation (pub p) a_i b_i)) 0 sched result.

Definition And (p : Packet) (a b : list LweSample) := ParallelBinary p gate_And a b.
Definition Or (p : Packet) (a b : list LweSample) := ParallelBinary p gate_Or a b.
Definition Xor (p : Packet) (a b : list LweSample) := ParallelBinary p gate_Xor a b.
Definition XNor (p : Packet) (a b : list LweSample) := ParallelBinary p gate_Xnor a b.
Definition Not (p : Packet) (a : list LweSample) := ParallelUnary p gate_Not a.
Definition Copy (p : Packet) (a : list LweSample) := ParallelUnary p gate_Copy a.

End Crypto.

(** ** packet.go: key generation from a key stream *)

Section KeyGen.
Context {TT : TfheTypes} {BE : HEBackend} {GS : GoStdlib} {KG : KeyGenBackend}.

Definition makeslice_panic : string := "makeslice: len out of range"%string.

(** [z := make([]int32, N); for i := range z { z[i] = NextByte() & 1 }];
    the key comes back with [z] as its [Key]. *)
Definition lweKeyGen (byteStream : ByteStream) (result : core.LweKey)
    : outcome (core.LweKey * ByteStream) :=
  let N := LweParams_N (core.LweKey_Params result) in
  if decide (N < 0) then Panic makeslice_panic
  else
    let z := replicate (Z.to_nat N) 0 in
    r <- for_range (fun i _ (s : list Z * ByteStream) =>
                      let '(z, byteStream) := s in
                      nb <- NextByte byteStream ;;
                      z' <- store z i (Z.land (fst nb) 1) ;;
                      Ok (z', snd nb)) 0 z (z, byteStream) ;;
    Ok ({| core.LweKey_Params := core.LweKey_Params result;
           core.LweKey_Key := fst r |}, snd r).

(** [result.Key[i].Coefs[j] = NextByte() & 1]: the polynomial is looked up,
    the byte drawn, the coefficient assigned. *)
Definition tlweKeyGen_coef (i : nat) (_ : nat) (j : nat)
    (s : list (list Z) * ByteStream) : outcome (list (list Z) * ByteStream) :=
  let '(Key, byteStream) := s in
  poly <- load Key i ;;
  nb <- NextByte byteStream ;;
  poly' <- store poly j (Z.land (fst nb) 1) ;;
  Key' <- store Key i poly' ;;
  Ok (Key', snd nb).

Definition tlweKeyGen (byteStream : ByteStream) (result : core.TLweKey)
    : outcome (core.TLweKey * ByteStream) :=
  let N := TLweParams_N (core.TLweKey_Params result) in
  let k := TLweParams_K (core.TLweKey_Params result) in
  r <- for_range (fun _ i s =>
                    for_range (tlweKeyGen_coef i) 0 (seq 0 (Z.to_nat N)) s)
         0 (seq 0 (Z.to_nat k)) (core.TLweKey_Key result, byteStream) ;;
  Ok ({| core.TLweKey_Params := core.TLweKey_Params result;
         core.TLweKey_Key := fst r |}, snd r).

(** [g] is the backend's generator when the bootstrapping key is made. *)
Definition generateKeys (byteStream : ByteStream) (params : GateBootstrappingParameterSet)
    (g : Rng) : outcome (gates.PublicKey * PrivateKey * ByteStream * Rng) :=
  let lweKey := NewLweKey (Params_InOutParams params) in
  r1 <- lweKeyGen byteStream lweKey ;;
  let '(lweKey', byteStream1) := r1 in
  let tgswKey := NewTGswKey (Params_TgswParams params) in
  r2 <- tlweKeyGen byteStream1 (core.TlweKey tgswKey) ;;
  let '(tlweKey', byteStream2) := r2 in
  let tgswKey' := {| core.TlweKey := tlweKey' |} in
  let '(bkw, g') :=
    NewLweBootstrappingKeyWrapper (Params_KsT params) (Params_KsBasebit params)
      (Params_InOutParams params) (Params_TgswParams params) lweKey' tgswKey' g in
  Ok (NewPublicKey params bkw, NewPrivateKey params bkw lweKey' tgswKey',
      byteStream2, g').

Definition MakePacket (byteStream : ByteStream) (g : Rng)
    : outcome (Packet * ByteStream * Rng) :=
  let ctx := DefaultGateBootstrappingParameters 128 in
  r <- generateKeys byteStream ctx g ;;
  let '(pub', prv', byteStream', g') := r in
  Ok ({| pub := pub'; prv := prv' |}, byteStream', g').

End KeyGen.

(** ** publickey.go: the JSON form of a polynomial

    [real], [imag] and [complex] are Go's; [json_Marshal] and
    [json_Unmarshal] are [encoding/json] on the plain struct
    [_lagrangeHalfCPolynomial]. *)

Section Json.
Context {TT : TfheTypes}.

Record _complex128 : Type := {
  Re : float64;
  Im : float64;
}.

Record _lagrangeHalfCPolynomial : Type := {
  _Coefs : list _complex128;
}.

Class JsonCodec : Type := {
  go_real : complex128 -> float64;
  go_imag : complex128 -> float64;
  go_complex : float64 -> float64 -> complex128;
  json_Marshal : _lagrangeHalfCPolynomial -> string + list Z;
  json_Unmarshal : list Z -> string + _lagrangeHalfCPolynomial;
}.

Context {JC : JsonCodec}.

Definition MarshalJSON (lhcp : lagrangeHalfCPolynomial) : string + list Z :=
  let coefs := map (fun c => {| Re := go_real c; Im := go_imag c |}) (Coefs lhcp) in
  let l := {| _Coefs := coefs |} in
  json_Marshal l.

(** The receiver after the call, and the error returned ([None] is nil). *)
Definition UnmarshalJSON (lhcp : lagrangeHalfCPolynomial) (data : list Z)
    : lagrangeHalfCPolynomial * option string :=
  match json_Unmarshal data with
  | inl err => (lhcp, Some err)
  | inr l =>
      ({| Coefs := map (fun c => go_complex (Re c) (Im c)) (_Coefs l) |}, None)
  end.

End Json.
End crypto.

(** * Package main: the server and the client *)

Module main.
Section Main.
Context {TT : TfheTypes} {BE : HEBackend} {GS : GoStdlib}.

Definition errUserExists : string := "user already exists"%string.
Definition errUserDoesNotExist : string := "user doesn't exist"%string.
Definition errInvalidCredentials : string := "invalid credentials"%string.

Definition StatusOK : Z := 200.
Definition StatusBadRequest : Z := 400.
Definition StatusForbidden : Z := 403.
Definition StatusInternalServerError : Z := 500.

Record User : Type := {
  User_Username : string;
  User_EncryptedSecret : list LweSample;
  SecretHash : list Z;
  Salt : list Z;
}.

Record Server : Type := {
  saltByteLen : nat;
  port : Z;
  userDatabase : gmap string User;
}.

Record SignUpRequest : Type := {
  SignUp_Username : string;
  EncryptedSecret : list LweSample;
  SignUp_Secret : list Z;
}.

(** [PublicKey] is a Go [*crypto.PublicKey]: [None] is the nil pointer, which
    is what a body without that field decodes to. *)
Record FirstLogInRequest : Type := {
  FirstLogIn_Username : string;
  PublicKey : option crypto.PublicKey;
}.

Record SecondLogInRequest : Type := {
  SecondLogIn_Username : string;
  SecondLogIn_Secret : list Z;
}.

Record FirstLogInResponse : Type := {
  EncryptedMutatedSecret : list LweSample;
}.

(** What a handler leaves in its [http.ResponseWriter]: the status code and
    either nothing, the text given to [http.Error], or the encoded
    [FirstLogInResponse]. *)
Inductive body : Type :=
  | NoBody
  | ErrorText (msg : string)
  | FirstLogInBody (r : FirstLogInResponse).

Record Response : Type := {
  StatusCode : Z;
  Body : body;
}.

Definition http_Error (msg : string) (code : Z) : Response :=
  {| StatusCode := code; Body := ErrorText msg |}.

Definition bytes_panic : string := "expected equal number of bytes"%string.

Definition xorBytes (a b : list Z) : outcome (list Z) :=
  if decide (length a ≠ length b) then Panic bytes_panic
  else
    let result := replicate (length a) 0 in
    for_range (fun i _ result =>
                 a_i <- load a i ;;
                 b_i <- load b i ;;
                 store result i (Z.lxor a_i b_i)) 0 a result.

(** The body of the loop of [makeEncryptedMutation]; [half] is
    [len(encryptedPayload)/2]. *)
Definition mutation_step (packet : crypto.Packet) (encryptedPayload : list LweSample)
    (half : nat) (_ : nat) (i : nat) (s : list LweSample * crypto.ByteStream)
    : outcome (list LweSample * crypto.ByteStream) :=
  let '(randomPayload, randByteStream) := s in
  r <- crypto.NextByte randByteStream ;;
  let '(coin, randByteStream') := r in
  let f := if decide (coin mod 2 = 0)
           then gate_Not (crypto.pub packet)
           else (fun a : LweSample => a) in
  e0 <- load encryptedPayload 0 ;;
  randomPayload1 <- store randomPayload i (f e0) ;;
  e0' <- load encryptedPayload 0 ;;
  randomPayload2 <- store randomPayload1 (i + half) (f e0') ;;
  Ok (randomPayload2, randByteStream').

(** [u] is the value [rand.Uint64()] hands to [MakeRandByteStream]. *)
Definition makeEncryptedMutation (u : Z) (packet : crypto.Packet)
    (encryptedPayload : list LweSample) : outcome (list LweSample) :=
  let randomPayload := replicate (length encryptedPayload) nil_sample in
  randByteStream <- crypto.MakeRandByteStream u ;;
  let half := (length encryptedPayload / 2)%nat in
  r <- for_range (mutation_step packet encryptedPayload half) 0 (seq 0 half)
         (randomPayload, randByteStream) ;;
  Ok (fst r).

(** The handlers take the outcome of decoding the request body ([inl] is the
    decoder's error) and run with the registry lock free, one request at a
    time.  [rand_Read n] is [crypto/rand.Read] on a buffer of [n] bytes. *)

Definition SignUpHandler (rand_Read : nat -> string + list Z) (s : Server)
    (req : string + SignUpRequest) : Response * Server :=
  match req with
  | inl err => (http_Error err StatusBadRequest, s)
  | inr signUpRequest =>
      match userDatabase s !! SignUp_Username signUpRequest with
      | Some _ => (http_Error errUserExists StatusBadRequest, s)
      | None =>
          match rand_Read (saltByteLen s) with
          | inl err => (http_Error err StatusInternalServerError, s)
          | inr salt =>
              let hashBytes := salt ++ SignUp_Secret signUpRequest in
              match Hash64_Write fnv_New64 hashBytes with
              | inl err => (http_Error err StatusInternalServerError, s)
              | inr hash64 =>
                  let user :=
                    {| User_Username := SignUp_Username signUpRequest;
                       User_EncryptedSecret := EncryptedSecret signUpRequest;
                       SecretHash := Hash64_Sum hash64;
                       Salt := salt |} in
                  ({| StatusCode := StatusOK; Body := NoBody |},
                   {| saltByteLen := saltByteLen s;
                      port := port s;
                      userDatabase :=
                        <[SignUp_Username signUpRequest := user]> (userDatabase s) |})
              end
          end
      end
  end.

Definition FirstLoginHandler (u : Z) (s : Server) (req : string + FirstLogInRequest)
    : outcome (Response * Server) :=
  match req with
  | inl err => Ok (http_Error err StatusBadRequest, s)
  | inr firstLogInRequest =>
      match userDatabase s !! FirstLogIn_Username firstLogInRequest with
      | None => Ok (http_Error errUserDoesNotExist StatusBadRequest, s)
      | Some user =>
          (* [MakePublicPacket] calls [fromPublicKey], whose first line
             dereferences the key it is called on *)
          match PublicKey firstLogInRequest with
          | None => Panic nil_panic
          | Some publicKey =>
              let serverPacket := crypto.MakePublicPacket publicKey in
              randomPayload <-
                makeEncryptedMutation u serverPacket (User_EncryptedSecret user) ;;
              x <- crypto.Xor serverPacket randomPayload (User_EncryptedSecret user) ;;
              let firstLogInResponse := {| EncryptedMutatedSecret := x |} in
              Ok ({| StatusCode := StatusOK;
                     Body := FirstLogInBody firstLogInResponse |}, s)
          end
      end
  end.

Definition SecondLoginHandler (s : Server) (req : string + SecondLogInRequest)
    : Response * Server :=
  match req with
  | inl err => (http_Error err StatusBadRequest, s)
  | inr secondLogInRequest =>
      match userDatabase s !! SecondLogIn_Username secondLogInRequest with
      | None => (http_Error errUserDoesNotExist StatusBadRequest, s)
      | Some user =>
          let hashBytes := Salt user ++ SecondLogIn_Secret secondLogInRequest in
          match Hash64_Write fnv_New64 hashBytes with
          | inl err => (http_Error err StatusInternalServerError, s)
          | inr hash64 =>
              let secretHash := Hash64_Sum hash64 in
              if decide (secretHash = SecretHash user)
              then ({| StatusCode := StatusOK; Body := NoBody |}, s)
              else (http_Error errInvalidCredentials StatusForbidden, s)
          end
      end
  end.

(** ** The client *)

Record Client : Type := {
  Port : Z;
  messageByteLen : nat;
}.

(** [append(noise, xorBytes(noise, secret)...)] *)
Definition signUpPayload (noise secret : list Z) : outcome (list Z) :=
  x <- xorBytes noise secret ;;
  Ok (noise ++ x)%list.

(** The request [SignUp] sends.  [packet] is the packet made from the
    password, [u] the value [rand.Uint64()] gives the secret's stream, [g]
    the backend's generator when encryption starts. *)
Definition SignUp_request (c : Client) (packet : crypto.Packet) (username : string)
    (u : Z) (g : Rng) : outcome (SignUpRequest * Rng) :=
  let noise := replicate (messageByteLen c) 0 in
  randByteStream <- crypto.MakeRandByteStream u ;;
  let secret := fst (crypto.NextBytes randByteStream (messageByteLen c)) in
  payload <- signUpPayload noise secret ;;
  r <- crypto.Encrypt packet payload g ;;
  Ok ({| SignUp_Username := username;
         EncryptedSecret := fst r;
         SignUp_Secret := secret |}, snd r).

(** The two requests of [LogIn]; the second is built from the decoded
    answer to the first. *)
Definition LogIn_firstRequest (packet : crypto.Packet) (username : string)
    : FirstLogInRequest :=
  {| FirstLogIn_Username := username;
     PublicKey := Some (crypto.MakePublicKey (crypto.pub packet)) |}.

Definition LogIn_secondRequest (c : Client) (packet : crypto.Packet) (username : string)
    (firstLogInResponse : FirstLogInResponse) : outcome SecondLogInRequest :=
  mutatedSecret <- crypto.Decrypt packet (EncryptedMutatedSecret firstLogInResponse) ;;
  lo <- slice_to mutatedSecret (messageByteLen c) ;;
  hi <- slice_from mutatedSecret (messageByteLen c) ;;
  x <- xorBytes lo hi ;;
  Ok {| SecondLogIn_Username := username; SecondLogIn_Secret := x |}.

(** [NewServer] and [NewClient] as far as the state goes: the registry starts
    empty (the HTTP listener they wire up is outside this model). *)
Definition NewServer (saltByteLen' : nat) (port' : Z) : Server :=
  {| saltByteLen := saltByteLen'; port := port'; userDatabase := ∅ |}.

Definition NewClient (messageByteLen' : nat) (port' : Z) : Client :=
  {| Port := port'; messageByteLen := messageByteLen' |}.

End Main.
End main.

(** * Reference functions the loops are compared with *)

Section Reference.
Context {TT : TfheTypes} {BE : HEBackend}.

(** The bits of a byte in the order [Encrypt] emits them. *)
Definition byte_bits (b : Z) : list Z :=
  map (fun j => Z.land (Z.shiftr b (Z.of_nat j)) 1) (seq 0 8).

(** The same bits, most significant first: the order the specification
    names. *)
Definition byte_bits_msb_first (b : Z) : list Z :=
  map (fun j => Z.land (Z.shiftr b (Z.of_nat (7 - j))) 1) (seq 0 8).

(** Encrypting a list of bits one after the other. *)
Fixpoint encrypt_bits (sk : PrivateKey) (bits : list Z) (g : Rng) : list LweSample * Rng :=
  match bits with
  | [] => ([], g)
  | m :: rest =>
      let '(c, g1) := BootsSymEncrypt sk m g in
      let '(cs, g2) := encrypt_bits sk rest g1 in
      (c :: cs, g2)
  end.

(** The byte that up to eight decrypted bits are shifted into. *)
Definition pack (ds : list Z) : Z := fold_left crypto.shift_in ds 0.

(** [n] bytes out of a list of decrypted bits, eight bits to a byte. *)
Fixpoint unpack_bytes (n : nat) (ds : list Z) : list Z :=
  match n with
  | O => []
  | S n' => pack (take 8 ds) :: unpack_bytes n' (drop 8 ds)
  end.

(** The value of a list of bits, least significant first. *)
Fixpoint bits_value (bs : list bool) : Z :=
  match bs with
  | [] => 0
  | b :: rest => Z.b2z b + 2 * bits_value rest
  end.

(** What one coin does to the sample at position 0. *)
Definition mutate (pk : gates.PublicKey) (e0 : LweSample) (coin : Z) : LweSample :=
  if decide (coin mod 2 = 0) then gate_Not pk e0 else e0.

(** What the backend is assumed to do. *)
Definition decrypt_inverts_encrypt (sk : PrivateKey) : Prop :=
  forall (m : Z) (g : Rng), m = 0 \/ m = 1 ->
    BootsSymDecrypt sk (fst (BootsSymEncrypt sk m g)) = m.

Definition xor_gate_computes (pk : gates.PublicKey) (sk : PrivateKey) : Prop :=
  forall a b : LweSample,
    BootsSymDecrypt sk (gate_Xor pk a b)
    = Z.lxor (BootsSymDecrypt sk a) (BootsSymDecrypt sk b).

End Reference.

(** A program over a key stream: the calls made on it, in order, and the
    bytes each returned. *)
Inductive stream_call : Type :=
  | call_NextBytes (n : nat)
  | call_NextByte.

Section StreamRuns.
Context {GS : GoStdlib}.

Fixpoint run_calls (calls : list stream_call) (cbs : crypto.ByteStream)
    : outcome (list (list Z)) :=
  match calls with
  | [] => Ok []
  | call_NextBytes n :: rest =>
      let '(out, cbs') := crypto.NextBytes cbs n in
      outs <- run_calls rest cbs' ;;
      Ok (out :: outs)
  | call_NextByte :: rest =>
      r <- crypto.NextByte cbs ;;
      outs <- run_calls rest (snd r) ;;
      Ok ([fst r] :: outs)
  end.

(** One run: make the stream from [key], then make the calls. *)
Definition keystream_run (key : crypto.byte_slice) (calls : list stream_call)
    : outcome (list (list Z)) :=
  cbs <- crypto.MakeByteStream key ;;
  run_calls calls cbs.

End StreamRuns.

Section KeyShape.
Context {TT : TfheTypes}.

(** The FFT half of the bootstrapping key names the same parameter sets and
    key-switching key as the plain half. *)
Definition fft_header_agrees (pk : gates.PublicKey) : Prop :=
  let bk := core.Bk (gates.Bkw pk) in
  let bkFFT := core.BkFFT (gates.Bkw pk) in
  core.FFT_InOutParams bkFFT = core.InOutParams bk /\
  core.FFT_BkParams bkFFT = core.BkParams bk /\
  core.FFT_AccumParams bkFFT = core.AccumParams bk /\
  core.FFT_ExtractParams bkFFT = core.ExtractParams bk /\
  core.FFT_Ks bkFFT = core.Ks bk.

End KeyShape.

Section GateLaws.
Context {TT : TfheTypes} {BE : HEBackend}.

(** A binary gate decrypts to the bit function [F] of what its inputs
    decrypt to; a unary gate likewise. *)
Definition binary_gate_computes (sk : PrivateKey)
    (gate : LweSample -> LweSample -> LweSample) (F : Z -> Z -> Z) : Prop :=
  forall a b : LweSample,
    BootsSymDecrypt sk (gate a b) = F (BootsSymDecrypt sk a) (BootsSymDecrypt sk b).

Definition unary_gate_computes (sk : PrivateKey)
    (gate : LweSample -> LweSample) (U : Z -> Z) : Prop :=
  forall a : LweSample, BootsSymDecrypt sk (gate a) = U (BootsSymDecrypt sk a).

(** The backend's functions stand for go-tfhe's, which dereference the key
    and the samples they are handed: called on a nil key or on a nil sample
    they do not return.  What [Encrypt], [Decrypt] and the binary gates
    return is therefore stated for packets that hold a private key and for
    ciphertexts without a nil unit. *)
Definition holds_private_key (p : crypto.Packet) : Prop :=
  crypto.prv p <> nil_private_key.

Definition no_nil_unit (c : list LweSample) : Prop :=
  Forall (fun unit => unit <> nil_sample) c.

End GateLaws.

(** The key bit taken from a stream byte. *)
Definition low_bit (b : Z) : Z := Z.land b 1.

(** [k] rows of [N] entries cut from a list. *)
Fixpoint rows (k N : nat) (xs : list Z) : list (list Z) :=
  match k with
  | O => []
  | S k' => take N xs :: rows k' N (drop N xs)
  end.

(** The wire key's FFT half names the same parameter sets and key-switching
    key as the plain bootstrapping key it carries. *)
Definition wire_header_agrees {TT : TfheTypes} (w : crypto.PublicKey) : Prop :=
  let bk := crypto.Bk (crypto.Bkw w) in
  let bkFFT := crypto.BkFFT (crypto.Bkw w) in
  crypto.FFT_InOutParams bkFFT = core.InOutParams bk /\
  crypto.FFT_BkParams bkFFT = core.BkParams bk /\
  crypto.FFT_AccumParams bkFFT = core.AccumParams bk /\
  crypto.FFT_ExtractParams bkFFT = core.ExtractParams bk /\
  crypto.FFT_Ks bkFFT = core.Ks bk.

(** * A small backend and standard library to run the model on

    Samples carry their bit in the clear next to the noise drawn for them;
    only the key [true] encrypts and decrypts.  The key stream is a linear
    congruence on bytes. *)

Module toy.

Definition types : TfheTypes :=
  {| GateBootstrappingParameterSet := nat;
     LweParams := nat;
     TGswParams := nat;
     TLweParams := nat;
     LweKeySwitchKey := nat;
     TGswSamples := nat;
     float64 := nat;
     complex128 := (nat * nat)%type |}.
#[local] Existing Instance types.

Definition backend : @HEBackend types :=
  {| PrivateKey := bool;
     nil_private_key := false;
     LweSample := bool * nat;
     nil_sample := (false, 0%nat);
     Rng := nat;
     BootsSymEncrypt := fun sk m g => ((sk && Z.odd m, g), S g);
     BootsSymDecrypt := fun sk c => Z.b2z (sk && fst c);
     gate_And := fun _ a b => (fst a && fst b, 0%nat);
     gate_Or := fun _ a b => (fst a || fst b, 0%nat);
     gate_Xor := fun _ a b => (xorb (fst a) (fst b), 0%nat);
     gate_Xnor := fun _ a b => (negb (xorb (fst a) (fst b)), 0%nat);
     gate_Not := fun _ a => (negb (fst a), snd a);
     gate_Copy := fun _ a => a |}.
#[local] Existing Instance backend.

Definition stdlib : GoStdlib :=
  {| fnv128_sum := fun data => take 16 (data ++ replicate 16 7);
     Block := list Z;
     aes_NewCipher := fun key =>
       if decide (length key = 16%nat) then inr key
       else inl "crypto/aes: invalid key size"%string;
     Stream := Z;
     cipher_NewCTR := fun block iv =>
       if decide (length iv = 16%nat) then Ok (foldr Z.add 0 (block ++ iv) mod 256)
       else Panic "cipher.NewCTR: IV length must equal block size"%string;
     stream_next := fun st => (st, (5 * st + 3) mod 256);
     Hash64 := list Z;
     fnv_New64 := [];
     Hash64_Write := fun h data => inr (h ++ data);
     Hash64_Sum := fun h => [foldr Z.add 0 h mod 256] |}.
#[local] Existing Instance stdlib.

Definition key : @gates.PublicKey types :=
  {| gates.Params := 1%nat;
     gates.Bkw :=
       {| core.Bk := {| core.InOutParams := 2%nat; core.BkParams := 3%nat;
                        core.AccumParams := 4%nat; core.ExtractParams := 5%nat;
                        core.Bk_samples := 6%nat; core.Ks := 7%nat |};
          core.BkFFT :=
            {| core.FFT_InOutParams := 2%nat; core.FFT_BkParams := 3%nat;
               core.FFT_AccumParams := 4%nat; core.FFT_ExtractParams := 5%nat;
               core.FFT_Bk :=
                 [ {| core.AllSample :=
                        [ {| core.A := [ {| fft.Coefs := [(1, 2); (3, 4)]%nat |} ];
                             core.CurrentVariance := 9%nat;
                             core.K := 1 |} ];
                      core.BlocSample :=
                        [ [ {| core.A := [ {| fft.Coefs := [(5, 6)]%nat |} ];
                               core.CurrentVariance := 8%nat;
                               core.K := 1 |} ] ];
                      core.TGsw_K := 1;
                      core.TGsw_L := 2 |} ];
               core.FFT_Ks := 7%nat |} |} |}.

Definition packet : @crypto.Packet types backend :=
  {| crypto.pub := key; crypto.prv := true |}.

Definition server0 : main.Server :=
  {| main.saltByteLen := 2; main.port := 8080; main.userDatabase := ∅ |}.

Definition rand_Read (n : nat) : string + list Z := inr (replicate n 9).

Definition signup1 : main.SignUpRequest :=
  {| main.SignUp_Username := "alice"%string;
     main.EncryptedSecret := [(true, 0%nat)];
     main.SignUp_Secret := [0x12] |}.

Definition signup2 : main.SignUpRequest :=
  {| main.SignUp_Username := "alice"%string;
     main.EncryptedSecret := [];
     main.SignUp_Secret := [0x34] |}.

(** Two slices over the same three bytes: one fills its array, the other
    has room to spare. *)
Definition tight_key : crypto.byte_slice :=
  {| crypto.backing := [112; 119; 100]; crypto.slen := 3 |}.

Definition roomy_key : crypto.byte_slice :=
  {| crypto.backing := [112; 119; 100; 77; 78]; crypto.slen := 3 |}.

Definition login2 : main.SecondLogInRequest :=
  {| main.SecondLogIn_Username := "bob"%string; main.SecondLogIn_Secret := [1] |}.

(** Key generation with three LWE coefficients and two polynomials of three
    coefficients; the private key is usable when some LWE bit is set. *)
Definition keygen : @KeyGenBackend types backend :=
  {| DefaultGateBootstrappingParameters := fun _ => 3%nat;
     Params_InOutParams := fun p => p;
     Params_TgswParams := fun p => p;
     Params_KsT := fun _ => 2;
     Params_KsBasebit := fun _ => 1;
     LweParams_N := Z.of_nat;
     TLweParams_N := Z.of_nat;
     TLweParams_K := fun _ => 2;
     NewLweKey := fun p => {| core.LweKey_Params := p; core.LweKey_Key := [] |};
     NewTGswKey := fun p =>
       {| core.TlweKey :=
            {| core.TLweKey_Params := p;
               core.TLweKey_Key := replicate 2 (replicate p 0) |} |};
     NewLweBootstrappingKeyWrapper := fun _ _ _ _ _ _ g => (gates.Bkw key, S g);
     NewPublicKey := fun p bkw => {| gates.Params := p; gates.Bkw := bkw |};
     NewPrivateKey := fun _ _ lwe _ => existsb (Z.eqb 1) (core.LweKey_Key lwe) |}.
#[local] Existing Instance keygen.

Definition byteStream : crypto.ByteStream := {| crypto.stream := 113 |}.

(** A TLWE key with one polynomial where its parameters announce two. *)
Definition short_tlwe_key : core.TLweKey :=
  {| core.TLweKey_Params := 3%nat; core.TLweKey_Key := [[0; 0; 0]] |}.

Definition full_tlwe_key : core.TLweKey :=
  {| core.TLweKey_Params := 3%nat; core.TLweKey_Key := [[0; 0; 0]; [0; 0; 0]] |}.

(** A JSON codec that writes a polynomial as the flat list of its real and
    imaginary parts and rejects lists of odd length. *)
Fixpoint encode (cs : list crypto._complex128) : list Z :=
  match cs with
  | [] => []
  | c :: rest => Z.of_nat (crypto.Re c) :: Z.of_nat (crypto.Im c) :: encode rest
  end.

Fixpoint decode (bs : list Z) : string + list crypto._complex128 :=
  match bs with
  | [] => inr []
  | [_] => inl "unexpected end of JSON input"%string
  | a :: b :: rest =>
      match decode rest with
      | inl err => inl err
      | inr cs => inr ({| crypto.Re := Z.to_nat a; crypto.Im := Z.to_nat b |} :: cs)
      end
  end.

Definition lwe_key : core.LweKey :=
  {| core.LweKey_Params := 3%nat; core.LweKey_Key := [] |}.

Definition poly : crypto.lagrangeHalfCPolynomial :=
  {| crypto.Coefs := [(1, 2); (3, 4)]%nat |}.

Definition stale_poly : crypto.lagrangeHalfCPolynomial :=
  {| crypto.Coefs := [(7, 7)]%nat |}.

(** A registry with one user, and a phase-1 request for that user. *)
Definition user1 : main.User :=
  {| main.User_Username := "alice"%string;
     main.User_EncryptedSecret :=
       [(true, 1%nat); (false, 2%nat); (true, 3%nat); (true, 4%nat)];
     main.SecretHash := [1];
     main.Salt := [2] |}.

Definition server1 : main.Server :=
  {| main.saltByteLen := 2; main.port := 8080;
     main.userDatabase := {[ "alice"%string := user1 ]} |}.

Definition login1 : main.FirstLogInRequest :=
  {| main.FirstLogIn_Username := "alice"%string;
     main.PublicKey := Some (crypto.MakePublicKey key) |}.



Definition challenge (n : nat) : main.FirstLogInResponse :=
  {| main.EncryptedMutatedSecret := replicate n (true, 0%nat) |}.

Definition codec : crypto.JsonCodec :=
  {| crypto.go_real := fst;
     crypto.go_imag := snd;
     crypto.go_complex := pair;
     crypto.json_Marshal := fun l => inr (encode (crypto._Coefs l));
     crypto.json_Unmarshal := fun data =>
       match decode data with
       | inl err => inl err
       | inr cs => inr {| crypto._Coefs := cs |}
       end |}.

End toy.

(** * Properties *)

(** ** Slices and loops *)

Lemma obind_Ok {X Y} (m : outcome X) (k : X -> outcome Y) (x : X) :
  m = Ok x -> obind m k = k x.
Proof. intros ->. reflexivity. Qed.

Lemma map_fmap {A B} (f : A -> B) (l : list A) : map f l = f <$> l.
Proof. induction l as [|x l IH]; [reflexivity|]. simpl. rewrite IH. reflexivity. Qed.

Lemma lookup_map {A B} (f : A -> B) (l : list A) (i : nat) :
  map f l !! i = f <$> (l !! i).
Proof. rewrite map_fmap. apply list_lookup_fmap. Qed.

Lemma load_Some {A} (s : list A) (i : nat) (x : A) :
  s !! i = Some x -> load s i = Ok x.
Proof. unfold load. intros ->. reflexivity. Qed.

Lemma load_lt {A} (s : list A) (i : nat) :
  (i < length s)%nat -> exists x, s !! i = Some x /\ load s i = Ok x.
Proof.
  intros Hi. destruct (lookup_lt_is_Some_2 s i Hi) as [x Hx].
  exists x. split; [exact Hx | apply load_Some, Hx].
Qed.

Lemma store_lt {A} (s : list A) (i : nat) (x : A) :
  (i < length s)%nat -> store s i x = Ok (<[i := x]> s).
Proof. unfold store. intros Hi. destruct (decide _); [reflexivity | lia]. Qed.

Lemma store_middle {A} (done rest : list A) (y x : A) :
  store (done ++ y :: rest) (length done) x = Ok ((done ++ [x]) ++ rest).
Proof.
  rewrite store_lt.
  - f_equal. rewrite insert_app_r_alt by lia.
    rewrite Nat.sub_diag. simpl. rewrite <- app_assoc. reflexivity.
  - rewrite length_app. simpl. lia.
Qed.

(** A loop that assigns the cell of its index with a value computed from
    the index and the element fills the slice with those values. *)
Lemma for_range_fill {A B} (body : nat -> A -> list B -> outcome (list B))
    (val : nat -> A -> B) (xs : list A) :
  forall (done rest : list B),
    length rest = length xs ->
    (forall k x r, xs !! k = Some x ->
       body (length done + k)%nat x r = store r (length done + k)%nat (val (length done + k)%nat x)) ->
    for_range body (length done) xs (done ++ rest)
    = Ok (done ++ imap (fun k x => val (length done + k)%nat x) xs).
Proof.
  induction xs as [|x xs IH]; intros done rest Hlen Hbody.
  - destruct rest; [|discriminate]. reflexivity.
  - destruct rest as [|y rest]; [discriminate|].
    simpl. specialize (Hbody 0%nat x (done ++ y :: rest) eq_refl) as Hb.
    rewrite Nat.add_0_r in Hb. rewrite Hb, store_middle. simpl.
    replace (S (length done)) with (length (done ++ [val (length done) x]))
      by (rewrite length_app; simpl; lia).
    rewrite IH.
    + rewrite <- app_assoc. simpl. f_equal. f_equal. f_equal.
      { rewrite Nat.add_0_r. reflexivity. }
      apply imap_ext. intros k z _. simpl.
      rewrite length_app. simpl. f_equal. lia.
    + simpl in Hlen. lia.
    + intros k z r Hk. rewrite length_app. simpl.
      replace (length done + 1 + k)%nat with (length done + S k)%nat by lia.
      apply Hbody. exact Hk.
Qed.

(** ** Encrypt *)

Section EncryptProps.
Context {TT : TfheTypes} {BE : HEBackend} {GS : GoStdlib}.

Lemma encrypt_bits_app (sk : PrivateKey) (xs ys : list Z) (g : Rng) :
  encrypt_bits sk (xs ++ ys) g
  = (fst (encrypt_bits sk xs g) ++ fst (encrypt_bits sk ys (snd (encrypt_bits sk xs g))),
     snd (encrypt_bits sk ys (snd (encrypt_bits sk xs g)))).
Proof.
  revert g. induction xs as [|x xs IH]; intros g; simpl.
  - destruct (encrypt_bits sk ys g); reflexivity.
  - destruct (BootsSymEncrypt sk x g) as [c g1]. rewrite IH.
    destruct (encrypt_bits sk xs g1) as [cs g2]. simpl.
    destruct (encrypt_bits sk ys g2); reflexivity.
Qed.

Lemma encrypt_bits_length (sk : PrivateKey) (xs : list Z) (g : Rng) :
  length (fst (encrypt_bits sk xs g)) = length xs.
Proof.
  revert g. induction xs as [|x xs IH]; intros g; simpl; [reflexivity|].
  destruct (BootsSymEncrypt sk x g) as [c g1]. specialize (IH g1).
  destruct (encrypt_bits sk xs g1). simpl in *. lia.
Qed.

Lemma Encrypt_bit_loop (p : crypto.Packet) (b : Z) (js : list nat) :
  forall (k0 : nat) (done mid rest : list LweSample) (g : Rng),
    length mid = length js ->
    for_range (crypto.Encrypt_bit p b) k0 js (done ++ mid ++ rest, length done, g)
    = let r := encrypt_bits (crypto.prv p)
                 (map (fun j => Z.land (Z.shiftr b (Z.of_nat j)) 1) js) g in
      Ok (done ++ fst r ++ rest, (length done + length js)%nat, snd r).
Proof.
  induction js as [|j js IH]; intros k0 done mid rest g Hlen.
  - destruct mid; [|discriminate]. simpl. rewrite Nat.add_0_r. reflexivity.
  - destruct mid as [|y mid]; [discriminate|]. simpl.
    destruct (BootsSymEncrypt (crypto.prv p) _ g) as [c g1].
    rewrite store_middle. simpl.
    replace (S (length done)) with (length (done ++ [c]))
      by (rewrite length_app; simpl; lia).
    rewrite IH by (simpl in Hlen; lia).
    destruct (encrypt_bits _ _ g1) as [cs g2]. simpl.
    rewrite <- app_assoc, length_app. simpl.
    do 3 f_equal. lia.
Qed.

Lemma Encrypt_byte_loop (p : crypto.Packet) (payload : list Z) :
  forall (k0 : nat) (done mid : list LweSample) (g : Rng),
    length mid = (8 * length payload)%nat ->
    for_range (crypto.Encrypt_byte p) k0 payload (done ++ mid, length done, g)
    = let r := encrypt_bits (crypto.prv p) (flat_map byte_bits payload) g in
      Ok (done ++ fst r, (length done + 8 * length payload)%nat, snd r).
Proof.
  induction payload as [|b payload IH]; intros k0 done mid g Hlen.
  - destruct mid; [|discriminate]. simpl. rewrite Nat.add_0_r. reflexivity.
  - cbn [length] in Hlen.
    rewrite <- (take_drop 8 mid).
    cbn [for_range]. unfold crypto.Encrypt_byte at 1.
    rewrite Encrypt_bit_loop by (rewrite length_take, length_seq; lia).
    cbn zeta. cbn [obind].
    change (flat_map byte_bits (b :: payload))
      with (byte_bits b ++ flat_map byte_bits payload).
    rewrite encrypt_bits_app. fold (byte_bits b).
    pose proof (encrypt_bits_length (crypto.prv p) (byte_bits b) g) as Hl.
    destruct (encrypt_bits (crypto.prv p) (byte_bits b) g) as [cs g1].
    simpl fst in *. simpl snd in *.
    change (length (byte_bits b)) with 8%nat in Hl.
    rewrite app_assoc.
    replace (length done + length (seq 0 8))%nat with (length (done ++ cs))
      by (rewrite length_app, Hl; reflexivity).
    rewrite IH by (rewrite length_drop; lia).
    cbn zeta. rewrite <- app_assoc, length_app, Hl.
    do 3 f_equal. simpl. lia.
Qed.

Lemma Encrypt_eq (p : crypto.Packet) (payload : list Z) (g : Rng) :
  crypto.Encrypt p payload g
  = Ok (encrypt_bits (crypto.prv p) (flat_map byte_bits payload) g).
Proof.
  unfold crypto.Encrypt.
  pose proof (Encrypt_byte_loop p payload 0 []
                (replicate (8 * length payload) nil_sample) g) as E.
  cbn [app length] in E. rewrite E by apply length_replicate.
  cbn zeta. cbn [obind]. destruct (encrypt_bits _ _ g); reflexivity.
Qed.

End EncryptProps.

(** ** Decrypt *)

Section DecryptProps.
Context {TT : TfheTypes} {BE : HEBackend} {GS : GoStdlib}.

Lemma Decrypt_inner_eq (p : crypto.Packet) (done rest : list Z) (ks : list nat) :
  forall (pre es : list LweSample) (r : Z),
    es <> [] ->
    crypto.Decrypt_inner p (pre ++ es) (length done) ks (done ++ r :: rest) (length pre)
    = if decide (length ks < length es)%nat
      then Ok (Next (done ++ fold_left crypto.shift_in
                               (map (BootsSymDecrypt (crypto.prv p)) (take (length ks) es)) r
                            :: rest,
                     (length pre + length ks)%nat))
      else Ok (Return (done ++ fold_left crypto.shift_in
                                 (map (BootsSymDecrypt (crypto.prv p)) es) r
                              :: rest)).
Proof.
  induction ks as [|k ks IH]; intros pre es r Hes.
  - destruct es as [|e es]; [congruence|].
    cbn [crypto.Decrypt_inner length take map fold_left].
    rewrite Nat.add_0_r. case_decide; [reflexivity | lia].
  - destruct es as [|e es]; [congruence|].
    cbn [crypto.Decrypt_inner].
    rewrite (load_Some (done ++ r :: rest) (length done) r)
      by (rewrite lookup_app_r, Nat.sub_diag by lia; reflexivity).
    cbn [obind].
    rewrite (load_Some (pre ++ e :: es) (length pre) e)
      by (rewrite lookup_app_r, Nat.sub_diag by lia; reflexivity).
    cbn [obind].
    rewrite store_middle. cbn [obind]. rewrite <- app_assoc. cbn [app].
    destruct es as [|e' es].
    + destruct (decide (length (pre ++ [e]) <= S (length pre))%nat) as [_|Hn].
      * destruct (decide (length (k :: ks) < length [e])%nat) as [Hlt|_];
          [simpl in Hlt; lia | reflexivity].
      * exfalso. apply Hn. rewrite length_app. simpl. lia.
    + destruct (decide (length (pre ++ e :: e' :: es) <= S (length pre))%nat) as [Hle|_].
      { rewrite length_app in Hle. simpl in Hle. lia. }
      replace (pre ++ e :: e' :: es) with ((pre ++ [e]) ++ e' :: es)
        by (rewrite <- app_assoc; reflexivity).
      replace (S (length pre)) with (length (pre ++ [e]))
        by (rewrite length_app; simpl; lia).
      rewrite IH by congruence.
      destruct (decide (length ks < length (e' :: es))%nat) as [Ha|Ha];
        destruct (decide (length (k :: ks) < length (e :: e' :: es))%nat) as [Hb|Hb];
        try (simpl in Ha, Hb; lia).
      * rewrite length_app. simpl. do 3 f_equal. lia.
      * reflexivity.
Qed.

Lemma ceil8_step (n : nat) : (8 < n)%nat -> ((n + 7) / 8 = S ((n - 8 + 7) / 8))%nat.
Proof.
  intros Hn. replace (n + 7)%nat with ((n - 8 + 7) + 1 * 8)%nat by lia.
  rewrite Nat.div_add by lia. lia.
Qed.

Lemma ceil8_small (n : nat) : (0 < n <= 8)%nat -> ((n + 7) / 8 = 1)%nat.
Proof.
  intros Hn. symmetry. apply (Nat.div_unique _ _ _ (n - 1)%nat); lia.
Qed.

Lemma Decrypt_outer_eq (p : crypto.Packet) (fuel : nat) :
  forall (pre es : list LweSample) (done : list Z),
    es <> [] ->
    ((length es + 7) / 8 <= fuel)%nat ->
    crypto.Decrypt_outer fuel p (pre ++ es) (length done)
      (done ++ replicate ((length es + 7) / 8) 0) (length pre)
    = Ok (done ++ unpack_bytes ((length es + 7) / 8)
                    (map (BootsSymDecrypt (crypto.prv p)) es)).
Proof.
  induction fuel as [|fuel IH]; intros pre es done Hes Hfuel.
  - destruct es as [|e es]; [congruence|].
    assert (0 < (length (e :: es) + 7) / 8)%nat
      by (apply Nat.div_str_pos; simpl; lia).
    lia.
  - cbn [crypto.Decrypt_outer].
    assert (0 < length es)%nat as Hpos by (destruct es; [congruence | simpl; lia]).
    destruct (decide (8 < length es)%nat) as [Hbig|Hsmall].
    + rewrite (ceil8_step (length es)) by exact Hbig.
      cbn [replicate]. rewrite Decrypt_inner_eq by exact Hes.
      rewrite length_seq.
      destruct (decide (8 < length es)%nat) as [_|]; [|lia].
      cbn [obind].
      rewrite <- (take_drop 8 es) at 1.
      rewrite app_assoc.
      replace (length pre + 8)%nat with (length (pre ++ take 8 es))
        by (rewrite length_app, length_take; lia).
      replace (done ++ fold_left crypto.shift_in
                 (map (BootsSymDecrypt (crypto.prv p)) (take 8 es)) 0
               :: replicate ((length es - 8 + 7) / 8) 0)
        with ((done ++ [pack (take 8 (map (BootsSymDecrypt (crypto.prv p)) es))])
              ++ replicate ((length (drop 8 es) + 7) / 8) 0).
      2:{ rewrite <- app_assoc. cbn [app]. rewrite length_drop.
          unfold pack. rewrite <- firstn_map. reflexivity. }
      replace (S (length done))
        with (length (done ++ [pack (take 8 (map (BootsSymDecrypt (crypto.prv p)) es))]))
        by (rewrite length_app; simpl; lia).
      rewrite IH.
      * rewrite <- app_assoc. cbn [app unpack_bytes].
        rewrite length_drop, <- skipn_map. reflexivity.
      * intros E. apply (f_equal length) in E. rewrite length_drop in E.
        simpl in E. lia.
      * rewrite length_drop. rewrite (ceil8_step (length es)) in Hfuel by exact Hbig. lia.
    + rewrite (ceil8_small (length es)) by lia.
      cbn [replicate]. rewrite Decrypt_inner_eq by exact Hes.
      rewrite length_seq.
      destruct (decide (8 < length es)%nat) as [|_]; [lia|].
      cbn [obind unpack_bytes]. unfold pack.
      rewrite firstn_all2 by (rewrite length_map; lia).
      reflexivity.
Qed.

Lemma Decrypt_eq (p : crypto.Packet) (encryptedPayload : list LweSample) :
  crypto.Decrypt p encryptedPayload
  = Ok (unpack_bytes ((length encryptedPayload + 7) / 8)
          (map (BootsSymDecrypt (crypto.prv p)) encryptedPayload)).
Proof.
  unfold crypto.Decrypt. rewrite length_replicate.
  destruct (decide _) as [E|E].
  - rewrite E. reflexivity.
  - assert (encryptedPayload <> []) as Hne.
    { intros ->. apply E. reflexivity. }
    pose proof (Decrypt_outer_eq p (length encryptedPayload) [] encryptedPayload [] Hne) as D.
    cbn [app length] in D. apply D.
    apply Nat.Div0.div_le_upper_bound.
    destruct encryptedPayload; [congruence | simpl; lia].
Qed.

End DecryptProps.

(** ** Position-wise loops: the gates and xorBytes *)

Lemma imap_zip_with {A B C} (f : A -> B -> C) (d : B) (a : list A) :
  forall (b : list B) (sh : nat -> nat),
    (forall k, sh k = k) ->
    (length a <= length b)%nat ->
    imap (fun k x => f x (default d (b !! sh k))) a = zip_with f a b.
Proof.
  induction a as [|x a IH]; intros b sh Hsh Hlen; [reflexivity|].
  destruct b as [|y b]; [simpl in Hlen; lia|].
  cbn [imap zip_with]. rewrite Hsh. cbn [lookup list_lookup default]. f_equal.
  rewrite <- (IH b (fun k => k)); [|reflexivity|simpl in Hlen; lia].
  apply imap_ext. intros k z _. unfold compose. rewrite Hsh. reflexivity.
Qed.

Lemma for_range_zip {A B C} (f : A -> B -> C) (z : C) (a : list A) (b : list B) :
  length a = length b ->
  for_range (fun i (_ : A) (r : list C) =>
               a_i <- load a i ;;
               b_i <- load b i ;;
               store r i (f a_i b_i)) 0 a (replicate (length a) z)
  = Ok (zip_with f a b).
Proof.
  intros Hlen. destruct b as [|d b'] eqn:Eb.
  { destruct a; [reflexivity | discriminate]. }
  rewrite <- Eb in *. clear Eb b'.
  pose proof (for_range_fill
                (fun i (_ : A) (r : list C) =>
                   a_i <- load a i ;; b_i <- load b i ;; store r i (f a_i b_i))
                (fun k x => f x (default d (b !! k))) a [] (replicate (length a) z)) as F.
  cbn [app length] in F. rewrite F.
  - f_equal. apply (imap_zip_with f d a b (fun k => (0 + k)%nat)); [reflexivity | lia].
  - apply length_replicate.
  - intros k x r Hk. cbn [Nat.add].
    rewrite (load_Some a k x Hk). cbn [obind].
    destruct (load_lt b k) as (y & Hy & ->).
    { rewrite <- Hlen. apply (lookup_lt_Some a k x Hk). }
    cbn [obind]. rewrite Hy. reflexivity.
Qed.

Lemma for_range_map {A C} (f : A -> C) (z : C) (a : list A) :
  for_range (fun i (_ : A) (r : list C) =>
               a_i <- load a i ;;
               store r i (f a_i)) 0 a (replicate (length a) z)
  = Ok (map f a).
Proof.
  pose proof (for_range_fill
                (fun i (_ : A) (r : list C) => a_i <- load a i ;; store r i (f a_i))
                (fun _ x => f x) a [] (replicate (length a) z)) as F.
  cbn [app length] in F. rewrite F.
  - f_equal. clear F. induction a as [|x a IH]; [reflexivity|].
    cbn [imap map]. f_equal. exact IH.
  - apply length_replicate.
  - intros k x r Hk. cbn [Nat.add].
    rewrite (load_Some a k x Hk). reflexivity.
Qed.

(** Writes that land in any order: every scheduled index ends up holding its
    value, the other cells keep theirs. *)
Lemma foldl_insert_lookup {B} (val : nat -> B) (sched : list nat) :
  forall (r : list B) (i : nat),
    foldl (fun r k => <[k := val k]> r) r sched !! i
    = if decide (i ∈ sched)
      then (if decide (i < length r)%nat then Some (val i) else None)
      else r !! i.
Proof.
  induction sched as [|k sched IH]; intros r i.
  - cbn [foldl]. destruct (decide (i ∈ [])) as [Hin|_]; [|reflexivity].
    apply elem_of_nil in Hin. contradiction.
  - cbn [foldl]. rewrite IH, length_insert.
    destruct (decide (i ∈ sched)) as [Hin|Hnin].
    + destruct (decide (i ∈ k :: sched)) as [_|Hn]; [reflexivity|].
      exfalso. apply Hn. right. exact Hin.
    + destruct (decide (i = k)) as [->|Hne].
      * destruct (decide (k ∈ k :: sched)) as [_|Hn]; [|exfalso; apply Hn; left].
        destruct (decide (k < length r)%nat) as [Hlt|Hge].
        -- apply list_lookup_insert_eq, Hlt.
        -- rewrite list_insert_ge by lia. apply lookup_ge_None. lia.
      * rewrite list_lookup_insert_ne by congruence.
        destruct (decide (i ∈ k :: sched)) as [Hin|_]; [|reflexivity].
        apply elem_of_cons in Hin as [?|?]; contradiction.
Qed.

Lemma for_range_scheduled {B} (body : nat -> nat -> list B -> outcome (list B))
    (val : nat -> B) (n : nat) (sched : list nat) :
  (forall k i r, (i < n)%nat -> length r = n -> body k i r = store r i (val i)) ->
  Forall (fun i => (i < n)%nat) sched ->
  forall (k0 : nat) (r : list B),
    length r = n ->
    for_range body k0 sched r = Ok (foldl (fun r k => <[k := val k]> r) r sched).
Proof.
  intros Hbody Hsched. induction Hsched as [|i sched Hi _ IH]; intros k0 r Hlen.
  - reflexivity.
  - cbn [for_range foldl]. rewrite Hbody, store_lt by lia. cbn [obind].
    apply IH. rewrite length_insert. exact Hlen.
Qed.

Lemma scheduled_all {B} (val : nat -> B) (n : nat) (sched : list nat) (r : list B) :
  sched ≡ₚ seq 0 n ->
  length r = n ->
  foldl (fun r k => <[k := val k]> r) r sched = map val (seq 0 n).
Proof.
  intros Hperm Hlen. apply list_eq. intros i.
  rewrite foldl_insert_lookup, lookup_map, Hlen.
  destruct (decide (i < n)%nat) as [Hlt|Hge].
  - rewrite lookup_seq_lt by exact Hlt. cbn.
    destruct (decide (i ∈ sched)) as [_|Hn]; [reflexivity|].
    exfalso. apply Hn. rewrite Hperm. apply elem_of_seq. lia.
  - rewrite lookup_seq_ge by lia. cbn.
    destruct (decide (i ∈ sched)) as [_|_]; [reflexivity|].
    apply lookup_ge_None. lia.
Qed.

Lemma zip_with_by_index {A B C} (f : A -> B -> C) (da : A) (db : B) (a : list A) :
  forall b : list B,
    length a = length b ->
    zip_with f a b
    = map (fun i => f (default da (a !! i)) (default db (b !! i))) (seq 0 (length a)).
Proof.
  induction a as [|x a IH]; intros [|y b] Hlen; try discriminate; [reflexivity|].
  cbn [zip_with length seq map]. f_equal.
  rewrite (IH b) by (simpl in Hlen; lia).
  rewrite <- seq_shift, map_map. reflexivity.
Qed.

Section GateProps.
Context {TT : TfheTypes} {BE : HEBackend} {GS : GoStdlib}.

Lemma ParallelBinary_eq (p : crypto.Packet)
    (operation : gates.PublicKey -> LweSample -> LweSample -> LweSample)
    (a b : list LweSample) :
  crypto.ParallelBinary p operation a b
  = if decide (length a = length b)
    then Ok (zip_with (operation (crypto.pub p)) a b)
    else Panic crypto.size_panic.
Proof.
  unfold crypto.ParallelBinary.
  destruct (decide (length a = length b)) as [E|E].
  - destruct (decide (length a ≠ length b)); [contradiction|].
    apply for_range_zip, E.
  - destruct (decide (length a ≠ length b)); [reflexivity | contradiction].
Qed.

Lemma ParallelUnary_eq (p : crypto.Packet)
    (operation : gates.PublicKey -> LweSample -> LweSample) (a : list LweSample) :
  crypto.ParallelUnary p operation a = Ok (map (operation (crypto.pub p)) a).
Proof. apply for_range_map. Qed.

(** The order in which the goroutines finish does not show in the result. *)
Lemma ParallelBinary_any_schedule (sched : list nat) (p : crypto.Packet)
    (operation : gates.PublicKey -> LweSample -> LweSample -> LweSample)
    (a b : list LweSample) :
  sched ≡ₚ seq 0 (length a) ->
  crypto.ParallelBinary_scheduled sched p operation a b
  = crypto.ParallelBinary p operation a b.
Proof.
  intros Hperm. rewrite ParallelBinary_eq. unfold crypto.ParallelBinary_scheduled.
  destruct (decide (length a = length b)) as [E|E];
    destruct (decide (length a ≠ length b)); try contradiction; [|reflexivity].
  rewrite (for_range_scheduled _
             (fun i => operation (crypto.pub p) (default nil_sample (a !! i))
                                 (default nil_sample (b !! i)))
             (length a) sched).
  - rewrite (scheduled_all _ (length a)) by (try apply length_replicate; exact Hperm).
    rewrite <- zip_with_by_index by exact E. reflexivity.
  - intros k i r Hi Hr.
    destruct (load_lt a i Hi) as (x & Hx & ->).
    destruct (load_lt b i) as (y & Hy & ->); [lia|].
    cbn [obind]. rewrite Hx, Hy. reflexivity.
  - apply Forall_forall. intros i Hin. rewrite Hperm in Hin.
    apply elem_of_seq in Hin. lia.
  - apply length_replicate.
Qed.

Lemma ParallelUnary_any_schedule (sched : list nat) (p : crypto.Packet)
    (operation : gates.PublicKey -> LweSample -> LweSample) (a : list LweSample) :
  sched ≡ₚ seq 0 (length a) ->
  crypto.ParallelUnary_scheduled sched p operation a
  = crypto.ParallelUnary p operation a.
Proof.
  intros Hperm. rewrite ParallelUnary_eq. unfold crypto.ParallelUnary_scheduled.
  rewrite (for_range_scheduled _
             (fun i => operation (crypto.pub p) (default nil_sample (a !! i)))
             (length a) sched).
  - rewrite (scheduled_all _ (length a)) by (try apply length_replicate; exact Hperm).
    f_equal. apply list_eq. intros i. rewrite !lookup_map.
    destruct (decide (i < length a)%nat) as [Hlt|Hge].
    + rewrite lookup_seq_lt by exact Hlt.
      destruct (lookup_lt_is_Some_2 a i Hlt) as [x Hx].
      cbn. rewrite Hx. reflexivity.
    + rewrite lookup_seq_ge, lookup_ge_None_2 by lia. reflexivity.
  - intros k i r Hi Hr.
    destruct (load_lt a i Hi) as (x & Hx & ->).
    cbn [obind]. rewrite Hx. reflexivity.
  - apply Forall_forall. intros i Hin. rewrite Hperm in Hin.
    apply elem_of_seq in Hin. lia.
  - apply length_replicate.
Qed.

Lemma xorBytes_eq (a b : list Z) :
  main.xorBytes a b
  = if decide (length a = length b) then Ok (zip_with Z.lxor a b)
    else Panic main.bytes_panic.
Proof.
  unfold main.xorBytes.
  destruct (decide (length a = length b)) as [E|E].
  - destruct (decide (length a ≠ length b)); [contradiction|].
    apply for_range_zip, E.
  - destruct (decide (length a ≠ length b)); [reflexivity | contradiction].
Qed.

End GateProps.

(** ** Bits and bytes *)

Lemma land_small_128 (x : Z) : 0 <= x < 128 -> Z.land x 128 = 0.
Proof.
  intros Hx. apply Z.bits_inj'. intros n Hn.
  rewrite Z.land_spec, Z.bits_0.
  change 128 with (2 ^ 7). rewrite Z.pow2_bits_eqb by lia.
  destruct (Z.eqb_spec 7 n) as [<-|]; [|apply andb_false_r].
  rewrite andb_true_r.
  destruct (Z.eq_dec x 0) as [->|]; [apply Z.bits_0|].
  apply Z.bits_above_log2; [lia|].
  apply Z.log2_lt_pow2; lia.
Qed.

Lemma lor_small_128 (x : Z) : 0 <= x < 128 -> Z.lor x 128 = x + 128.
Proof.
  intros Hx. rewrite Z.add_nocarry_lxor by (apply land_small_128, Hx).
  symmetry. apply Z.lxor_lor, land_small_128, Hx.
Qed.

Lemma byte_wrap_mod (z : Z) : byte_wrap z = z mod 256.
Proof. unfold byte_wrap. change 255 with (Z.ones 8). apply Z.land_ones. lia. Qed.

Lemma top_bit (d : Z) :
  byte_wrap (Z.shiftl (byte_wrap d) 7) = 128 * Z.b2z (Z.odd d).
Proof.
  rewrite !byte_wrap_mod, Z.shiftl_mul_pow2 by lia.
  change (2 ^ 7) with 128. change 256 with (128 * 2).
  rewrite (Z.mul_comm (d mod (128 * 2)) 128), Z.mul_mod_distr_l by lia.
  f_equal. rewrite Z.mod_mod_divide by (exists 128; reflexivity).
  rewrite Zmod_odd. destruct (Z.odd d); reflexivity.
Qed.

Lemma shift_in_arith (r d : Z) :
  0 <= r < 256 -> crypto.shift_in r d = r / 2 + 128 * Z.b2z (Z.odd d).
Proof.
  intros Hr. unfold crypto.shift_in.
  rewrite top_bit, Z.shiftr_div_pow2 by lia. change (2 ^ 1) with 2.
  assert (0 <= r / 2 < 128) by (split; [apply Z.div_pos | apply Z.div_lt_upper_bound]; lia).
  destruct (Z.odd d); cbn [Z.b2z].
  - rewrite Z.mul_1_r. apply lor_small_128. assumption.
  - rewrite Z.mul_0_r, Z.lor_0_r, Z.add_0_r. reflexivity.
Qed.

Lemma bits_value_snoc (bs : list bool) (b : bool) :
  bits_value (bs ++ [b]) = bits_value bs + 2 ^ Z.of_nat (length bs) * Z.b2z b.
Proof.
  induction bs as [|x bs IH].
  - simpl. lia.
  - cbn [app bits_value length]. rewrite IH, Nat2Z.inj_succ, Z.pow_succ_r by lia. lia.
Qed.

Lemma bits_value_range (bs : list bool) :
  0 <= bits_value bs < 2 ^ Z.of_nat (length bs).
Proof.
  induction bs as [|x bs IH].
  - simpl. lia.
  - cbn [bits_value length]. rewrite Nat2Z.inj_succ, Z.pow_succ_r by lia.
    destruct x; cbn [Z.b2z]; lia.
Qed.

(** A chunk of [m <= 8] decrypted bits lands in the top [m] bits of its
    byte, in the order it was read. *)
Lemma pack_partial (ds : list Z) :
  (length ds <= 8)%nat ->
  pack ds = bits_value (map Z.odd ds) * 2 ^ (8 - Z.of_nat (length ds)).
Proof.
  induction ds as [|d ds IH] using rev_ind; intros Hlen.
  - reflexivity.
  - rewrite length_app in Hlen. cbn [length] in Hlen.
    unfold pack in *. rewrite fold_left_app. cbn [fold_left].
    rewrite IH by lia. rewrite map_app. cbn [map].
    rewrite bits_value_snoc, length_map, length_app. cbn [length].
    pose proof (bits_value_range (map Z.odd ds)) as Hr. rewrite length_map in Hr.
    set (V := bits_value (map Z.odd ds)) in *.
    set (m := Z.of_nat (length ds)) in *.
    assert (0 <= m < 8) as Hm by (subst m; lia).
    replace (Z.of_nat (length ds + 1)) with (m + 1) by (subst m; lia).
    replace (8 - m) with (Z.succ (7 - m)) by lia.
    rewrite Z.pow_succ_r by lia.
    replace (8 - (m + 1)) with (7 - m) by lia.
    assert (2 ^ m * 2 ^ (7 - m) = 128) as Hpow.
    { rewrite <- Z.pow_add_r by lia. replace (m + (7 - m)) with 7 by lia. reflexivity. }
    assert (0 < 2 ^ (7 - m)) as Hpos by (apply Z.pow_pos_nonneg; lia).
    rewrite shift_in_arith by nia.
    replace (V * (2 * 2 ^ (7 - m))) with (V * 2 ^ (7 - m) * 2) by lia.
    rewrite Z.div_mul by lia. rewrite <- Hpow. ring.
Qed.

Lemma pack_full (ds : list Z) :
  length ds = 8%nat -> pack ds = bits_value (map Z.odd ds).
Proof.
  intros Hlen. rewrite pack_partial by lia. rewrite Hlen. simpl. lia.
Qed.

Lemma bits_value_xor (a : list bool) :
  forall b : list bool,
    length a = length b ->
    bits_value (zip_with xorb a b) = Z.lxor (bits_value a) (bits_value b).
Proof.
  induction a as [|x a IH]; intros [|y b] Hlen; try discriminate; [reflexivity|].
  cbn [zip_with bits_value]. rewrite IH by (simpl in Hlen; lia).
  apply Z.bits_inj'. intros n Hn.
  rewrite Z.lxor_spec.
  destruct (Z.eq_dec n 0) as [->|Hne].
  - rewrite !Z.add_b2z_double_bit0. reflexivity.
  - replace n with (Z.succ (n - 1)) by lia.
    rewrite <- !Z.div2_bits, !Z.add_b2z_double_div2 by lia. apply Z.lxor_spec.
Qed.

Lemma odd_bit (b : Z) (j : nat) :
  Z.odd (Z.land (Z.shiftr b (Z.of_nat j)) 1) = Z.testbit b (Z.of_nat j).
Proof.
  rewrite <- Z.bit0_odd, Z.land_spec, Z.bit0_odd, <- Z.testbit_odd.
  apply andb_true_r.
Qed.

Lemma bits_value_testbits (b : Z) (n : nat) :
  forall k : nat,
    bits_value (map (fun j => Z.testbit b (Z.of_nat j)) (seq k n))
    = (b / 2 ^ Z.of_nat k) mod 2 ^ Z.of_nat n.
Proof.
  induction n as [|n IH]; intros k.
  - simpl. rewrite Z.mod_1_r. reflexivity.
  - cbn [seq map bits_value]. rewrite IH.
    rewrite Z.testbit_spec' by lia.
    rewrite !Nat2Z.inj_succ, !Z.pow_succ_r by lia.
    rewrite (Z.mul_comm 2 (2 ^ Z.of_nat k)), <- Z.div_div by lia.
    rewrite (Z.rem_mul_r _ 2 (2 ^ Z.of_nat n)) by lia.
    reflexivity.
Qed.

Lemma byte_bits_value (b : Z) :
  is_byte b -> bits_value (map Z.odd (byte_bits b)) = b.
Proof.
  intros Hb. unfold byte_bits. rewrite map_map.
  rewrite (map_ext _ (fun j => Z.testbit b (Z.of_nat j))) by (intros j; apply odd_bit).
  rewrite bits_value_testbits. simpl. rewrite Z.div_1_r.
  apply Z.mod_small. exact Hb.
Qed.

Lemma pack_byte_bits (b : Z) : is_byte b -> pack (byte_bits b) = b.
Proof.
  intros Hb. rewrite pack_full by reflexivity. apply byte_bits_value, Hb.
Qed.

(** ** Encrypt and Decrypt together *)

Section RoundTrip.
Context {TT : TfheTypes} {BE : HEBackend} {GS : GoStdlib}.

Lemma byte_bits_01 (b m : Z) : In m (byte_bits b) -> m = 0 \/ m = 1.
Proof.
  unfold byte_bits. rewrite in_map_iff. intros (j & <- & _).
  rewrite Z.land_ones with (n := 1) by lia.
  change (2 ^ 1) with 2.
  pose proof (Z.mod_pos_bound (Z.shiftr b (Z.of_nat j)) 2). lia.
Qed.

Lemma decrypt_encrypt_bits (sk : PrivateKey) (bits : list Z) :
  decrypt_inverts_encrypt sk ->
  (forall m, In m bits -> m = 0 \/ m = 1) ->
  forall g, map (BootsSymDecrypt sk) (fst (encrypt_bits sk bits g)) = bits.
Proof.
  intros Hinv. induction bits as [|m bits IH]; intros Hbits g; [reflexivity|].
  cbn [encrypt_bits].
  pose proof (Hinv m g (Hbits m (or_introl eq_refl))) as Hm.
  destruct (BootsSymEncrypt sk m g) as [c g1].
  specialize (IH (fun m' Hin => Hbits m' (or_intror Hin)) g1).
  destruct (encrypt_bits sk bits g1) as [cs g2].
  cbn [fst map] in *. rewrite Hm, IH. reflexivity.
Qed.

Lemma unpack_bytes_cons (n : nat) (xs rest : list Z) :
  length xs = 8%nat ->
  unpack_bytes (S n) (xs ++ rest) = pack xs :: unpack_bytes n rest.
Proof.
  intros Hlen. cbn [unpack_bytes].
  rewrite take_app_length' by (symmetry; exact Hlen).
  rewrite drop_app_length' by (symmetry; exact Hlen). reflexivity.
Qed.

Lemma unpack_bytes_app (xs : list Z) :
  forall (a b : nat) (ys : list Z),
    length xs = (8 * a)%nat ->
    unpack_bytes (a + b) (xs ++ ys) = unpack_bytes a xs ++ unpack_bytes b ys.
Proof.
  intros a. revert xs. induction a as [|a IH]; intros xs b ys Hlen.
  - destruct xs; [reflexivity | discriminate].
  - rewrite <- (take_drop 8 xs), <- app_assoc. cbn [Nat.add].
    rewrite !unpack_bytes_cons by (rewrite length_take; lia).
    rewrite IH by (rewrite length_drop; lia). reflexivity.
Qed.

Lemma unpack_byte_bits (payload : list Z) :
  Forall is_byte payload ->
  unpack_bytes (length payload) (flat_map byte_bits payload) = payload.
Proof.
  induction 1 as [|b payload Hb _ IH]; [reflexivity|].
  cbn [flat_map length]. rewrite unpack_bytes_cons by reflexivity.
  rewrite pack_byte_bits by exact Hb. rewrite IH. reflexivity.
Qed.

Lemma flat_map_byte_bits_length (payload : list Z) :
  length (flat_map byte_bits payload) = (8 * length payload)%nat.
Proof.
  induction payload as [|b payload IH]; [reflexivity|].
  cbn [flat_map]. rewrite length_app, IH. cbn [length]. unfold byte_bits.
  rewrite length_map, length_seq. lia.
Qed.

Lemma ceil8_mul (n : nat) : ((8 * n + 7) / 8 = n)%nat.
Proof.
  symmetry. apply (Nat.div_unique _ _ _ 7%nat); lia.
Qed.

(** C2: decrypting what [Encrypt] produced gives the payload back, whatever
    noise the backend drew. *)
Theorem Decrypt_Encrypt_roundtrip (p : crypto.Packet) (payload : list Z) (g : Rng) :
  decrypt_inverts_encrypt (crypto.prv p) ->
  Forall is_byte payload ->
  exists (ctxt : list LweSample) (g' : Rng),
    crypto.Encrypt p payload g = Ok (ctxt, g') /\
    crypto.Decrypt p ctxt = Ok payload.
Proof.
  intros Hinv Hbytes.
  exists (fst (encrypt_bits (crypto.prv p) (flat_map byte_bits payload) g)),
         (snd (encrypt_bits (crypto.prv p) (flat_map byte_bits payload) g)).
  split.
  - rewrite Encrypt_eq. rewrite <- surjective_pairing. reflexivity.
  - rewrite Decrypt_eq.
    rewrite encrypt_bits_length, flat_map_byte_bits_length, ceil8_mul.
    rewrite decrypt_encrypt_bits.
    + rewrite unpack_byte_bits by exact Hbytes. reflexivity.
    + exact Hinv.
    + intros m Hin. apply in_flat_map in Hin as (b & _ & Hin).
      apply (byte_bits_01 b m Hin).
Qed.

End RoundTrip.

Lemma Decrypt_Encrypt_roundtrip_witness :
  exists ctxt g',
    crypto.Encrypt toy.packet [0; 1; 128; 255; 0x5a] 3%nat = Ok (ctxt, g') /\
    crypto.Decrypt toy.packet ctxt = Ok [0; 1; 128; 255; 0x5a].
Proof.
  apply (Decrypt_Encrypt_roundtrip (BE := toy.backend)
           toy.packet [0; 1; 128; 255; 0x5a] 3%nat).
  - intros m g [-> | ->]; reflexivity.
  - repeat constructor; unfold is_byte; lia.
Defined.

(** ** The layout of bits in bytes *)

Lemma testbit_bits_value (bs : list bool) :
  forall j : nat,
    Z.testbit (bits_value bs) (Z.of_nat j) = default false (bs !! j).
Proof.
  induction bs as [|b bs IH]; intros j.
  - simpl. apply Z.bits_0.
  - cbn [bits_value]. destruct j as [|j].
    + apply Z.add_b2z_double_bit0.
    + rewrite Nat2Z.inj_succ, <- Z.div2_bits, Z.add_b2z_double_div2 by lia.
      apply IH.
Qed.

Lemma unpack_bytes_length (n : nat) : forall ds, length (unpack_bytes n ds) = n.
Proof.
  induction n as [|n IH]; intros ds; [reflexivity|].
  cbn [unpack_bytes length]. rewrite IH. reflexivity.
Qed.

Lemma unpack_bytes_lookup (n : nat) :
  forall (ds : list Z) (i : nat),
    (i < n)%nat ->
    unpack_bytes n ds !! i = Some (pack (take 8 (drop (8 * i) ds))).
Proof.
  induction n as [|n IH]; intros ds i Hi; [lia|].
  cbn [unpack_bytes]. destruct i as [|i].
  - reflexivity.
  - cbn [lookup list_lookup]. change (list_lookup i) with (lookup (A := Z) i).
    rewrite IH by lia. rewrite drop_drop.
    replace (8 + 8 * i)%nat with (8 * S i)%nat by lia. reflexivity.
Qed.

Lemma byte_bits_lookup (b : Z) (j : nat) :
  (j < 8)%nat -> byte_bits b !! j = Some (Z.b2z (Z.testbit b (Z.of_nat j))).
Proof.
  intros Hj. unfold byte_bits. rewrite lookup_map, lookup_seq_lt by exact Hj.
  cbn [fmap option_fmap option_map Nat.add]. f_equal.
  rewrite <- odd_bit.
  destruct (byte_bits_01 b (Z.land (Z.shiftr b (Z.of_nat j)) 1)) as [-> | ->];
    [|reflexivity..].
  unfold byte_bits. apply in_map_iff. exists j. split; [reflexivity|].
  apply in_seq. lia.
Qed.

Lemma flat_map_byte_bits_lookup (payload : list Z) :
  forall (i j : nat) (b : Z),
    payload !! i = Some b -> (j < 8)%nat ->
    flat_map byte_bits payload !! (8 * i + j)%nat
    = Some (Z.b2z (Z.testbit b (Z.of_nat j))).
Proof.
  induction payload as [|x payload IH]; intros i j b Hi Hj; [discriminate|].
  cbn [flat_map]. destruct i as [|i].
  - injection Hi as ->. rewrite lookup_app_l by (simpl; lia).
    apply byte_bits_lookup, Hj.
  - rewrite lookup_app_r by (simpl; lia).
    change (length (byte_bits x)) with 8%nat.
    replace (8 * S i + j - 8)%nat with (8 * i + j)%nat by lia.
    apply IH; assumption.
Qed.

Section Layout.
Context {TT : TfheTypes} {BE : HEBackend} {GS : GoStdlib}.

Lemma encrypt_bits_lookup (sk : PrivateKey) (bits : list Z) :
  forall (g : Rng) (k : nat) (m : Z),
    bits !! k = Some m ->
    exists gk : Rng,
      fst (encrypt_bits sk bits g) !! k = Some (fst (BootsSymEncrypt sk m gk)).
Proof.
  induction bits as [|x bits IH]; intros g k m Hk; [discriminate|].
  cbn [encrypt_bits]. destruct (BootsSymEncrypt sk x g) as [c g1] eqn:Ex.
  specialize (IH g1). destruct (encrypt_bits sk bits g1) as [cs g2].
  destruct k as [|k].
  - injection Hk as <-. exists g. rewrite Ex. reflexivity.
  - apply (IH k m Hk).
Qed.

Lemma Decrypt_byte_bit (p : crypto.Packet) (ctxt : list LweSample) (n i j : nat)
    (c : LweSample) :
  length ctxt = (8 * n)%nat ->
  (j < 8)%nat ->
  ctxt !! (8 * i + j)%nat = Some c ->
  exists B : Z,
    unpack_bytes n (map (BootsSymDecrypt (crypto.prv p)) ctxt) !! i = Some B /\
    Z.testbit B (Z.of_nat j) = Z.odd (BootsSymDecrypt (crypto.prv p) c).
Proof.
  intros Hlen Hj Hc.
  pose proof (lookup_lt_Some _ _ _ Hc) as Hlt.
  assert (i < n)%nat as Hi by lia.
  eexists. split; [apply unpack_bytes_lookup, Hi|].
  rewrite pack_full by (rewrite length_take, length_drop, length_map; lia).
  rewrite testbit_bits_value, lookup_map, lookup_take_lt, lookup_drop, lookup_map by exact Hj.
  rewrite Hc. reflexivity.
Qed.

(** C4, as the code has it, for a packet that holds a private key: eight
    units per payload byte, the bits of every byte emitted least significant
    first, and [Decrypt] reading them back in that same order from a
    ciphertext without nil units: unit [8i+j] carries bit [j] of byte [i]. *)
Theorem Encrypt_Decrypt_bit_layout (p : crypto.Packet) :
  holds_private_key p ->
  (forall (payload : list Z) (g : Rng),
     exists (ctxt : list LweSample) (g' : Rng),
       crypto.Encrypt p payload g = Ok (ctxt, g') /\
       length ctxt = (8 * length payload)%nat /\
       (ctxt, g') = encrypt_bits (crypto.prv p) (flat_map byte_bits payload) g /\
       (forall (i j : nat) (b : Z),
          payload !! i = Some b -> (j < 8)%nat ->
          flat_map byte_bits payload !! (8 * i + j)%nat
          = Some (Z.b2z (Z.testbit b (Z.of_nat j))) /\
          exists gk : Rng,
            ctxt !! (8 * i + j)%nat
            = Some (fst (BootsSymEncrypt (crypto.prv p)
                           (Z.b2z (Z.testbit b (Z.of_nat j))) gk)))) /\
  (forall (ctxt : list LweSample) (n : nat),
     no_nil_unit ctxt ->
     length ctxt = (8 * n)%nat ->
     exists bytes : list Z,
       crypto.Decrypt p ctxt = Ok bytes /\
       length bytes = n /\
       (forall (i j : nat) (c : LweSample),
          (j < 8)%nat -> ctxt !! (8 * i + j)%nat = Some c ->
          exists B : Z,
            bytes !! i = Some B /\
            Z.testbit B (Z.of_nat j) = Z.odd (BootsSymDecrypt (crypto.prv p) c))).
Proof.
  intros _. split.
  - intros payload g.
    exists (fst (encrypt_bits (crypto.prv p) (flat_map byte_bits payload) g)),
           (snd (encrypt_bits (crypto.prv p) (flat_map byte_bits payload) g)).
    rewrite <- surjective_pairing. repeat split.
    + apply Encrypt_eq.
    + rewrite encrypt_bits_length. apply flat_map_byte_bits_length.
    + apply flat_map_byte_bits_lookup; assumption.
    + apply encrypt_bits_lookup, flat_map_byte_bits_lookup; assumption.
  - intros ctxt n _ Hlen.
    exists (unpack_bytes n (map (BootsSymDecrypt (crypto.prv p)) ctxt)).
    repeat split.
    + rewrite Decrypt_eq, Hlen, ceil8_mul. reflexivity.
    + apply unpack_bytes_length.
    + intros i j c Hj Hc. apply (Decrypt_byte_bit p ctxt n i j c Hlen Hj Hc).
Qed.

(** C10: [Decrypt] returns nil on the empty ciphertext; on any other
    ciphertext without nil units, with a packet that holds a private key, it
    neither panics nor runs out of budget and returns ceil(L/8) bytes, and the
    bits of an incomplete last chunk sit at the top of the last byte. *)
Theorem Decrypt_any_length (p : crypto.Packet) :
  crypto.Decrypt p [] = Ok [] /\
  (forall encryptedPayload : list LweSample,
     holds_private_key p ->
     no_nil_unit encryptedPayload ->
     encryptedPayload <> [] ->
     exists bytes : list Z,
       crypto.Decrypt p encryptedPayload = Ok bytes /\
       (length encryptedPayload <= 8 * length bytes < length encryptedPayload + 8)%nat /\
       (forall q m : nat,
          length encryptedPayload = (8 * q + m)%nat -> (0 < m < 8)%nat ->
          length bytes = S q /\
          bytes !! q
          = Some (bits_value
                    (map (fun c => Z.odd (BootsSymDecrypt (crypto.prv p) c))
                         (drop (8 * q) encryptedPayload))
                  * 2 ^ (8 - Z.of_nat m)))).
Proof.
  split; [reflexivity|].
  intros enc _ _ Hne.
  exists (unpack_bytes ((length enc + 7) / 8)
            (map (BootsSymDecrypt (crypto.prv p)) enc)).
  split; [apply Decrypt_eq|].
  rewrite unpack_bytes_length.
  split.
  - pose proof (Nat.div_mod_eq (length enc + 7) 8).
    pose proof (Nat.mod_upper_bound (length enc + 7) 8). lia.
  - intros q m HL Hm.
    assert (((length enc + 7) / 8)%nat = S q) as Hn.
    { rewrite HL. symmetry. apply (Nat.div_unique _ _ _ (m - 1)%nat); lia. }
    split; [exact Hn|].
    rewrite Hn, unpack_bytes_lookup by lia.
    rewrite firstn_all2 by (rewrite length_drop, length_map; lia).
    rewrite pack_partial by (rewrite length_drop, length_map; lia).
    rewrite length_drop, length_map, skipn_map, map_map.
    do 3 f_equal. lia.
Qed.

End Layout.

(** C4, as the specification words it, fails: the first unit of the
    encryption of the byte 1 holds that byte's lowest bit, and a ciphertext
    whose first unit alone holds a one decrypts to 1, not to 128. *)
Lemma Encrypt_not_msb_first :
  exists ctxt g',
    crypto.Encrypt toy.packet [1] 0%nat = Ok (ctxt, g') /\
    map (BootsSymDecrypt (crypto.prv toy.packet)) ctxt = [1; 0; 0; 0; 0; 0; 0; 0] /\
    byte_bits_msb_first 1 = [0; 0; 0; 0; 0; 0; 0; 1] /\
    map (BootsSymDecrypt (crypto.prv toy.packet)) ctxt <> byte_bits_msb_first 1 /\
    crypto.Decrypt toy.packet ctxt = Ok [1].
Proof.
  eexists _, _. split; [reflexivity|].
  split; [reflexivity|]. split; [reflexivity|].
  split; [discriminate | reflexivity].
Qed.

Lemma Encrypt_Decrypt_bit_layout_witness :
  (exists ctxt g',
     crypto.Encrypt toy.packet [6] 0%nat = Ok (ctxt, g') /\
     map (BootsSymDecrypt (crypto.prv toy.packet)) ctxt = [0; 1; 1; 0; 0; 0; 0; 0]) /\
  (exists bytes,
     crypto.Decrypt toy.packet (map (fun b => (b, 1%nat))
        [false; true; true; false; false; false; false; false]) = Ok bytes /\
     exists B, bytes !! 0%nat = Some B /\ Z.testbit B 1 = true).
Proof.
  destruct (Encrypt_Decrypt_bit_layout (BE := toy.backend) toy.packet) as [HE HD];
    [discriminate|].
  split.
  - destruct (HE [6] 0%nat) as (ctxt & g' & Henc & _ & Hbits & _).
    exists ctxt, g'. split; [exact Henc|].
    injection Hbits as -> _. reflexivity.
  - destruct (HD (map (fun b => (b, 1%nat))
                  [false; true; true; false; false; false; false; false]) 1%nat)
      as (bytes & Hdec & _ & Hbit);
      [repeat constructor; discriminate | reflexivity |].
    exists bytes. split; [exact Hdec|].
    destruct (Hbit 0%nat 1%nat (true, 1%nat)) as (B & HB & HT); [lia | reflexivity |].
    exists B. split; [exact HB | exact HT].
Defined.

Lemma Decrypt_any_length_witness :
  crypto.Decrypt toy.packet [] = Ok [] /\
  exists bytes,
    crypto.Decrypt toy.packet
      (map (fun b => (b, 1%nat))
         [true; false; false; false; false; false; false; false; true; true; false])
    = Ok bytes /\
    length bytes = 2%nat /\
    bytes !! 1%nat = Some (3 * 2 ^ 5).
Proof.
  pose proof (Decrypt_any_length (BE := toy.backend) toy.packet) as [Hnil Hany].
  split; [exact Hnil|].
  destruct (Hany (map (fun b => (b, 1%nat))
              [true; false; false; false; false; false; false; false; true; true; false]))
    as (bytes & Hdec & _ & Hlast);
    [discriminate | repeat constructor; discriminate | discriminate |].
  exists bytes. split; [exact Hdec|].
  destruct (Hlast 1%nat 3%nat) as [Hlen Hb]; [reflexivity | lia |].
  split; [exact Hlen | exact Hb].
Defined.

(** ** The binary gates *)

Section Gates.
Context {TT : TfheTypes} {BE : HEBackend} {GS : GoStdlib}.

(** C6: on ciphertexts of different lengths every binary gate panics,
    before any unit is looked at; on ciphertexts of the same length without
    nil units it returns a ciphertext of that length. *)
Theorem binary_gates_length_contract (p : crypto.Packet) (a b : list LweSample) :
  Forall (fun gate : list LweSample -> list LweSample -> outcome (list LweSample) =>
            (length a <> length b -> gate a b = Panic crypto.size_panic) /\
            (length a = length b -> no_nil_unit a -> no_nil_unit b ->
             exists r, gate a b = Ok r /\ length r = length a))
         [crypto.And p; crypto.Or p; crypto.Xor p; crypto.XNor p].
Proof.
  assert (forall op,
            (length a <> length b ->
             crypto.ParallelBinary p op a b = Panic crypto.size_panic) /\
            (length a = length b -> no_nil_unit a -> no_nil_unit b ->
             exists r, crypto.ParallelBinary p op a b = Ok r /\ length r = length a))
    as Hop.
  { intros op. rewrite ParallelBinary_eq. split; [intros Hlen | intros Hlen _ _].
    - destruct (decide (length a = length b)); [contradiction | reflexivity].
    - destruct (decide (length a = length b)); [|contradiction].
      eexists. split; [reflexivity|].
      rewrite length_zip_with. lia. }
  repeat constructor; apply Hop.
Qed.

End Gates.

Lemma binary_gates_length_contract_witness :
  (crypto.Xor toy.packet [(true, 0%nat)] [] = Panic crypto.size_panic) /\
  (exists r, crypto.And toy.packet [(true, 1%nat); (true, 2%nat)]
                                   [(true, 3%nat); (false, 4%nat)] = Ok r /\
             length r = 2%nat).
Proof.
  split.
  - pose proof (binary_gates_length_contract (BE := toy.backend) toy.packet
                  [(true, 0%nat)] []) as HF.
    rewrite !Forall_cons in HF. destruct HF as (_ & _ & [HX _] & _).
    apply HX. discriminate.
  - pose proof (binary_gates_length_contract (BE := toy.backend) toy.packet
                  [(true, 1%nat); (true, 2%nat)] [(true, 3%nat); (false, 4%nat)]) as HF.
    rewrite !Forall_cons in HF. destruct HF as ([_ HA] & _).
    apply HA; [reflexivity | repeat constructor; discriminate ..].
Defined.

(** ** The encrypted mutation *)

Section Mutation.
Context {TT : TfheTypes} {BE : HEBackend} {GS : GoStdlib}.

Lemma NextBytes_succ (cbs : crypto.ByteStream) (n : nat) :
  crypto.NextBytes cbs (S n)
  = let '(k, st1) := stream_next (crypto.stream cbs) in
    let '(out, cbs') := crypto.NextBytes {| crypto.stream := st1 |} n in
    (byte_wrap k :: out, cbs').
Proof.
  unfold crypto.NextBytes. cbn [replicate crypto.XORKeyStream crypto.stream].
  destruct (stream_next (crypto.stream cbs)) as [k st1].
  destruct (crypto.XORKeyStream st1 (replicate n 0)) as [out st2].
  rewrite Z.lxor_0_l. reflexivity.
Qed.

Lemma NextByte_eq (cbs : crypto.ByteStream) :
  crypto.NextByte cbs
  = Ok (byte_wrap (fst (stream_next (crypto.stream cbs))),
        {| crypto.stream := snd (stream_next (crypto.stream cbs)) |}).
Proof.
  unfold crypto.NextByte. rewrite NextBytes_succ.
  destruct (stream_next (crypto.stream cbs)) as [k st1]. reflexivity.
Qed.

Lemma NextBytes_length (n : nat) :
  forall cbs, length (fst (crypto.NextBytes cbs n)) = n.
Proof.
  induction n as [|n IH]; intros cbs; [reflexivity|].
  rewrite NextBytes_succ.
  destruct (stream_next (crypto.stream cbs)) as [k st1].
  specialize (IH {| crypto.stream := st1 |}).
  destruct (crypto.NextBytes {| crypto.stream := st1 |} n) as [out cbs'].
  cbn [fst length] in *. rewrite IH. reflexivity.
Qed.

Lemma mutation_loop (packet : crypto.Packet) (enc : list LweSample) (e0 : LweSample)
    (half cnt : nat) :
  enc !! 0%nat = Some e0 ->
  forall (k : nat) (h tail : list LweSample) (cbs : crypto.ByteStream),
    half = (length h + cnt)%nat ->
    for_range (main.mutation_step packet enc half) k (seq (length h) cnt)
      (h ++ replicate cnt nil_sample ++ h ++ replicate cnt nil_sample ++ tail, cbs)
    = let hs := map (mutate (crypto.pub packet) e0) (fst (crypto.NextBytes cbs cnt)) in
      Ok (h ++ hs ++ h ++ hs ++ tail, snd (crypto.NextBytes cbs cnt)).
Proof.
  intros He0. induction cnt as [|cnt IH]; intros k h tail cbs Hhalf.
  - destruct cbs. reflexivity.
  - cbn [seq for_range replicate]. unfold main.mutation_step at 1.
    rewrite NextByte_eq, NextBytes_succ. cbn [obind].
    destruct (stream_next (crypto.stream cbs)) as [c st1]. cbn [fst snd].
    rewrite (load_Some enc 0 e0 He0). cbn [obind].
    set (x := mutate (crypto.pub packet) e0 (byte_wrap c)).
    assert ((if decide (byte_wrap c mod 2 = 0)
             then gate_Not (crypto.pub packet)
             else fun a : LweSample => a) e0 = x) as ->
      by (unfold x, mutate; destruct (decide _); reflexivity).
    cbn [app]. rewrite store_middle. cbn [obind].
    replace ((h ++ [x]) ++ replicate cnt nil_sample ++ h
               ++ nil_sample :: replicate cnt nil_sample ++ tail)
      with (((h ++ [x]) ++ replicate cnt nil_sample ++ h)
              ++ nil_sample :: replicate cnt nil_sample ++ tail)
      by (rewrite <- !app_assoc; reflexivity).
    replace (length h + half)%nat
      with (length ((h ++ [x]) ++ replicate cnt nil_sample ++ h))
      by (rewrite !length_app, length_replicate; simpl; lia).
    rewrite store_middle. cbn [obind].
    replace ((((h ++ [x]) ++ replicate cnt nil_sample ++ h) ++ [x])
               ++ replicate cnt nil_sample ++ tail)
      with ((h ++ [x]) ++ replicate cnt nil_sample ++ (h ++ [x])
              ++ replicate cnt nil_sample ++ tail)
      by (rewrite <- !app_assoc; reflexivity).
    replace (S (length h)) with (length (h ++ [x]))
      by (rewrite length_app; simpl; lia).
    rewrite IH by (rewrite length_app; simpl; lia).
    destruct (crypto.NextBytes {| crypto.stream := st1 |} cnt) as [out cbs'].
    cbn [fst snd map]. fold x. rewrite <- !app_assoc. reflexivity.
Qed.

Lemma makeEncryptedMutation_eq (u : Z) (packet : crypto.Packet)
    (enc : list LweSample) (e0 : LweSample) (cbs : crypto.ByteStream) :
  crypto.MakeRandByteStream u = Ok cbs ->
  enc !! 0%nat = Some e0 ->
  main.makeEncryptedMutation u packet enc
  = let half := (length enc / 2)%nat in
    let hs := map (mutate (crypto.pub packet) e0) (fst (crypto.NextBytes cbs half)) in
    Ok (hs ++ hs ++ replicate (length enc - 2 * half) nil_sample).
Proof.
  intros Hcbs He0. unfold main.makeEncryptedMutation. rewrite Hcbs. cbn [obind].
  set (half := (length enc / 2)%nat).
  pose proof (Nat.div_mod_eq (length enc) 2) as Hdm. fold half in Hdm.
  replace (replicate (length enc) nil_sample)
    with ([] ++ replicate half nil_sample ++ [] ++ replicate half nil_sample
             ++ replicate (length enc - 2 * half) nil_sample).
  2:{ cbn [app]. rewrite <- !replicate_add. f_equal. lia. }
  rewrite (mutation_loop packet enc e0 half half He0 0 []) by reflexivity.
  reflexivity.
Qed.

Lemma makeEncryptedMutation_nil (u : Z) (packet : crypto.Packet)
    (cbs : crypto.ByteStream) :
  crypto.MakeRandByteStream u = Ok cbs ->
  main.makeEncryptedMutation u packet [] = Ok [].
Proof.
  intros Hcbs. unfold main.makeEncryptedMutation. rewrite Hcbs. reflexivity.
Qed.

End Mutation.

Section MutationPairs.
Context {TT : TfheTypes} {BE : HEBackend} {GS : GoStdlib}.

Lemma makeEncryptedMutation_even (u : Z) (packet : crypto.Packet)
    (enc : list LweSample) (n : nat) (e0 : LweSample) (cbs : crypto.ByteStream) :
  length enc = (2 * n)%nat ->
  crypto.MakeRandByteStream u = Ok cbs ->
  enc !! 0%nat = Some e0 ->
  main.makeEncryptedMutation u packet enc
  = let hs := map (mutate (crypto.pub packet) e0) (fst (crypto.NextBytes cbs n)) in
    Ok (hs ++ hs).
Proof.
  intros Hlen Hcbs He0.
  rewrite (makeEncryptedMutation_eq u packet enc e0 cbs Hcbs He0).
  assert ((length enc / 2)%nat = n) as ->.
  { rewrite Hlen, Nat.mul_comm. apply Nat.div_mul. lia. }
  cbn zeta. replace (length enc - 2 * n)%nat with 0%nat by lia.
  cbn [replicate]. rewrite app_nil_r. reflexivity.
Qed.


End MutationPairs.


(** ** XOR through the byte layout *)

Lemma map_zip_with_hom {A B} (d : A -> B) (f : A -> A -> A) (g : B -> B -> B) :
  (forall x y, d (f x y) = g (d x) (d y)) ->
  forall a b : list A, map d (zip_with f a b) = zip_with g (map d a) (map d b).
Proof.
  intros Hhom. induction a as [|x a IH]; intros [|y b]; try reflexivity.
  cbn [zip_with map]. rewrite Hhom, IH. reflexivity.
Qed.

Lemma odd_lxor (x y : Z) : Z.odd (Z.lxor x y) = xorb (Z.odd x) (Z.odd y).
Proof. rewrite <- !Z.bit0_odd. apply Z.lxor_spec. Qed.

Lemma pack_lxor (a b : list Z) :
  length a = 8%nat -> length b = 8%nat ->
  pack (zip_with Z.lxor a b) = Z.lxor (pack a) (pack b).
Proof.
  intros Ha Hb.
  rewrite !pack_full by (rewrite ?length_zip_with; lia).
  rewrite (map_zip_with_hom Z.odd Z.lxor xorb odd_lxor).
  apply bits_value_xor. rewrite !length_map. lia.
Qed.

Lemma unpack_bytes_lxor (n : nat) :
  forall a b : list Z,
    length a = (8 * n)%nat -> length b = (8 * n)%nat ->
    unpack_bytes n (zip_with Z.lxor a b)
    = zip_with Z.lxor (unpack_bytes n a) (unpack_bytes n b).
Proof.
  induction n as [|n IH]; intros a b Ha Hb; [reflexivity|].
  cbn [unpack_bytes zip_with].
  rewrite zip_with_take, zip_with_drop.
  rewrite pack_lxor by (rewrite length_take; lia).
  rewrite IH by (rewrite length_drop; lia). reflexivity.
Qed.

Lemma is_byte_lxor (a b : Z) : is_byte a -> is_byte b -> is_byte (Z.lxor a b).
Proof.
  unfold is_byte. intros Ha Hb.
  assert (0 <= Z.lxor a b) as Hnn by (apply Z.lxor_nonneg; lia).
  split; [exact Hnn|].
  destruct (Z.eq_dec (Z.lxor a b) 0) as [->|Hne]; [lia|].
  change 256 with (2 ^ 8). apply Z.log2_lt_pow2; [lia|].
  pose proof (Z.log2_lxor a b ltac:(lia) ltac:(lia)) as Hlog.
  assert (Z.log2 a < 8) as Hla.
  { destruct (Z.eq_dec a 0) as [->|]; [reflexivity|]. apply Z.log2_lt_pow2; lia. }
  assert (Z.log2 b < 8) as Hlb.
  { destruct (Z.eq_dec b 0) as [->|]; [reflexivity|]. apply Z.log2_lt_pow2; lia. }
  lia.
Qed.

Lemma Forall_is_byte_lxor (a : list Z) :
  forall b : list Z,
    Forall is_byte a -> Forall is_byte b -> Forall is_byte (zip_with Z.lxor a b).
Proof.
  induction a as [|x a IH]; intros [|y b] Ha Hb; try constructor.
  - apply is_byte_lxor; [apply (Forall_inv Ha) | apply (Forall_inv Hb)].
  - apply IH; [apply (Forall_inv_tail Ha) | apply (Forall_inv_tail Hb)].
Qed.

(** The mask cancels and the noise cancels. *)
Lemma lxor_unmask (m : list Z) :
  forall noise secret : list Z,
    length m = length noise -> length noise = length secret ->
    zip_with Z.lxor (zip_with Z.lxor m noise)
                    (zip_with Z.lxor m (zip_with Z.lxor noise secret))
    = secret.
Proof.
  induction m as [|x m IH]; intros [|a noise] [|s secret] Hm Hn;
    try discriminate; [reflexivity|].
  cbn [zip_with]. rewrite IH by (simpl in *; lia). f_equal.
  rewrite (Z.lxor_comm x a), Z.lxor_assoc, <- (Z.lxor_assoc x x).
  rewrite Z.lxor_nilpotent, Z.lxor_0_l, <- Z.lxor_assoc, Z.lxor_nilpotent.
  apply Z.lxor_0_l.
Qed.

(** ** The login exchange *)

Section Login.
Context {TT : TfheTypes} {BE : HEBackend} {GS : GoStdlib}.

Lemma mutation_halves (u : Z) (packet : crypto.Packet) (enc : list LweSample)
    (m : nat) (cbs : crypto.ByteStream) :
  length enc = (2 * m)%nat ->
  crypto.MakeRandByteStream u = Ok cbs ->
  exists hs : list LweSample,
    main.makeEncryptedMutation u packet enc = Ok (hs ++ hs) /\ length hs = m.
Proof.
  intros Hlen Hcbs. destruct enc as [|e0 rest] eqn:Eenc.
  - exists []. split; [apply (makeEncryptedMutation_nil u packet cbs Hcbs)|].
    cbn [length] in *. lia.
  - rewrite <- Eenc in *.
    eexists. split.
    + apply (makeEncryptedMutation_even u packet enc m e0 cbs Hlen Hcbs).
      rewrite Eenc. reflexivity.
    + rewrite length_map. apply NextBytes_length.
Qed.

Lemma Decrypt_Xor_mask (logInPacket serverPacket : crypto.Packet)
    (hs enc : list LweSample) (payload : list Z) (n : nat) :
  xor_gate_computes (crypto.pub serverPacket) (crypto.prv logInPacket) ->
  length payload = (2 * n)%nat ->
  length hs = (8 * n)%nat ->
  Forall is_byte payload ->
  map (BootsSymDecrypt (crypto.prv logInPacket)) enc = flat_map byte_bits payload ->
  exists (mask : list Z) (x : list LweSample),
    length mask = n /\
    crypto.Xor serverPacket (hs ++ hs) enc = Ok x /\
    crypto.Decrypt logInPacket x = Ok (zip_with Z.lxor (mask ++ mask) payload).
Proof.
  intros Hxor Hpay Hhs Hbytes Henc.
  set (dec := BootsSymDecrypt (crypto.prv logInPacket)) in *.
  assert (length enc = (8 * (2 * n))%nat) as Hlen.
  { rewrite <- (length_map dec), Henc, flat_map_byte_bits_length, Hpay.
    reflexivity. }
  exists (unpack_bytes n (map dec hs)),
         (zip_with (gate_Xor (crypto.pub serverPacket)) (hs ++ hs) enc).
  split; [apply unpack_bytes_length|]. split.
  - unfold crypto.Xor. rewrite ParallelBinary_eq.
    destruct (decide _) as [_|Hne]; [reflexivity|].
    exfalso. apply Hne. rewrite length_app. lia.
  - rewrite Decrypt_eq.
    rewrite length_zip_with, length_app, Hhs, Hlen.
    replace ((8 * n + 8 * n) `min` (8 * (2 * n)))%nat with (8 * (2 * n))%nat by lia.
    rewrite ceil8_mul. fold dec.
    rewrite (map_zip_with_hom dec _ Z.lxor Hxor), Henc, map_app.
    rewrite unpack_bytes_lxor
      by (rewrite ?length_app, ?length_map, ?flat_map_byte_bits_length; lia).
    replace (2 * n)%nat with (n + n)%nat at 1 by lia.
    rewrite unpack_bytes_app by (rewrite length_map; lia).
    rewrite <- Hpay, unpack_byte_bits by exact Hbytes. reflexivity.
Qed.

(** C1: whatever noise the client masked the secret with, whatever coins the
    server drew and whatever noise the backend used, the secret the client
    recovers from the server's challenge is the secret it signed up with.
    [signUpPacket] and [logInPacket] are the packets the client makes from the
    password at sign-up and at login: they share the private key.  The server
    evaluates its gates under the key it rebuilds from the login request. *)
Theorem LogIn_recovers_secret (c : main.Client)
    (signUpPacket logInPacket : crypto.Packet) (username : string)
    (noise secret : list Z) (g : Rng) (u : Z) (cbs : crypto.ByteStream) :
  crypto.prv signUpPacket = crypto.prv logInPacket ->
  decrypt_inverts_encrypt (crypto.prv logInPacket) ->
  xor_gate_computes
    (crypto.fromPublicKey (crypto.MakePublicKey (crypto.pub logInPacket)))
    (crypto.prv logInPacket) ->
  length secret = main.messageByteLen c ->
  length noise = main.messageByteLen c ->
  Forall is_byte secret ->
  Forall is_byte noise ->
  crypto.MakeRandByteStream u = Ok cbs ->
  exists (payload : list Z) (encryptedSecret : list LweSample) (g' : Rng),
    main.signUpPayload noise secret = Ok payload /\
    crypto.Encrypt signUpPacket payload g = Ok (encryptedSecret, g') /\
    forall (s : main.Server) (user : main.User),
      main.userDatabase s !! username = Some user ->
      main.User_EncryptedSecret user = encryptedSecret ->
      exists challenge : main.FirstLogInResponse,
        main.FirstLoginHandler u s (inr (main.LogIn_firstRequest logInPacket username))
        = Ok ({| main.StatusCode := main.StatusOK;
                 main.Body := main.FirstLogInBody challenge |}, s) /\
        main.LogIn_secondRequest c logInPacket username challenge
        = Ok {| main.SecondLogIn_Username := username;
                main.SecondLogIn_Secret := secret |}.
Proof.
  intros Hprv Hinv Hxor Hsecret Hnoise Hbs Hbn Hcbs.
  set (n := main.messageByteLen c) in *.
  set (payload := noise ++ zip_with Z.lxor noise secret).
  assert (length payload = (2 * n)%nat) as Hpay
    by (unfold payload; rewrite length_app, length_zip_with; lia).
  assert (Forall is_byte payload) as Hbp
    by (apply Forall_app; split; [exact Hbn | apply Forall_is_byte_lxor; assumption]).
  set (r := encrypt_bits (crypto.prv signUpPacket) (flat_map byte_bits payload) g).
  exists payload, (fst r), (snd r).
  split.
  { unfold main.signUpPayload. rewrite xorBytes_eq.
    destruct (decide _) as [_|Hne]; [reflexivity | exfalso; apply Hne; lia]. }
  split.
  { rewrite Encrypt_eq. fold r. rewrite <- surjective_pairing. reflexivity. }
  intros s user Huser Henc.
  assert (map (BootsSymDecrypt (crypto.prv logInPacket)) (fst r)
          = flat_map byte_bits payload) as Hdec.
  { unfold r. rewrite Hprv. apply decrypt_encrypt_bits; [exact Hinv|].
    intros m Hin. apply in_flat_map in Hin as (b & _ & Hin).
    apply (byte_bits_01 b m Hin). }
  assert (length (fst r) = (2 * (8 * n))%nat) as Hlen.
  { unfold r. rewrite encrypt_bits_length, flat_map_byte_bits_length. lia. }
  set (serverPacket :=
         crypto.MakePublicPacket (crypto.MakePublicKey (crypto.pub logInPacket))).
  destruct (mutation_halves u serverPacket (fst r) (8 * n) cbs Hlen Hcbs)
    as (hs & Hmut & Hhs).
  destruct (Decrypt_Xor_mask logInPacket serverPacket hs (fst r) payload n
              Hxor Hpay Hhs Hbp Hdec) as (mask & x & Hmask & Hx & HD).
  exists {| main.EncryptedMutatedSecret := x |}. split.
  - unfold main.FirstLoginHandler, main.LogIn_firstRequest.
    cbn [main.FirstLogIn_Username main.PublicKey].
    rewrite Huser, Henc. fold serverPacket.
    rewrite Hmut. cbn [obind]. rewrite Hx. reflexivity.
  - unfold main.LogIn_secondRequest. cbn [main.EncryptedMutatedSecret].
    rewrite HD. cbn [obind]. fold n.
    unfold payload. rewrite zip_with_app by lia.
    unfold slice_to, slice_from.
    rewrite length_app, !length_zip_with.
    destruct (decide _) as [_|Hne]; [|exfalso; apply Hne; lia]. cbn [obind].
    rewrite take_app_length', drop_app_length' by (rewrite length_zip_with; lia).
    rewrite xorBytes_eq.
    destruct (decide _) as [_|Hne]; [|exfalso; apply Hne; rewrite !length_zip_with; lia].
    cbn [obind]. rewrite lxor_unmask by lia. reflexivity.
Qed.

End Login.

(** What [SignUp] sends: the noise is all zero, the secret is [n] bytes of a
    fresh key stream, so the payload is [n] zero bytes followed by the
    secret. *)

Section SignUp.
Context {TT : TfheTypes} {BE : HEBackend} {GS : GoStdlib}.

Lemma byte_wrap_is_byte (z : Z) : is_byte (byte_wrap z).
Proof. rewrite byte_wrap_mod. apply Z.mod_pos_bound. lia. Qed.

Lemma NextBytes_bytes (n : nat) :
  forall cbs, Forall is_byte (fst (crypto.NextBytes cbs n)).
Proof.
  induction n as [|n IH]; intros cbs; [constructor|].
  rewrite NextBytes_succ.
  destruct (stream_next (crypto.stream cbs)) as [k st1].
  specialize (IH {| crypto.stream := st1 |}).
  destruct (crypto.NextBytes {| crypto.stream := st1 |} n) as [out cbs'].
  constructor; [apply byte_wrap_is_byte | exact IH].
Qed.

Lemma lxor_zeros (xs : list Z) :
  zip_with Z.lxor (replicate (length xs) 0) xs = xs.
Proof.
  induction xs as [|x xs IH]; [reflexivity|].
  cbn [length replicate zip_with]. rewrite Z.lxor_0_l, IH. reflexivity.
Qed.

Lemma SignUp_request_eq (c : main.Client) (packet : crypto.Packet) (username : string)
    (u : Z) (g : Rng) (cbs : crypto.ByteStream) :
  crypto.MakeRandByteStream u = Ok cbs ->
  let n := main.messageByteLen c in
  let secret := fst (crypto.NextBytes cbs n) in
  let r := encrypt_bits (crypto.prv packet)
             (flat_map byte_bits (replicate n 0 ++ secret)) g in
  length secret = n /\
  Forall is_byte secret /\
  main.signUpPayload (replicate n 0) secret = Ok (replicate n 0 ++ secret) /\
  main.SignUp_request c packet username u g
  = Ok ({| main.SignUp_Username := username;
           main.EncryptedSecret := fst r;
           main.SignUp_Secret := secret |}, snd r).
Proof.
  intros Hcbs n secret r.
  assert (length secret = n) as Hlen by apply NextBytes_length.
  assert (main.signUpPayload (replicate n 0) secret = Ok (replicate n 0 ++ secret))
    as Hpayload.
  { unfold main.signUpPayload. rewrite xorBytes_eq, length_replicate.
    destruct (decide _) as [_|Hne]; [|exfalso; apply Hne; lia].
    cbn [obind]. pose proof (lxor_zeros secret) as Hz.
    rewrite Hlen in Hz. rewrite Hz. reflexivity. }
  split; [exact Hlen|]. split; [apply NextBytes_bytes|]. split; [exact Hpayload|].
  unfold main.SignUp_request. rewrite Hcbs. cbn [obind].
  fold n. fold secret. rewrite Hpayload. cbn [obind].
  rewrite Encrypt_eq. reflexivity.
Qed.

End SignUp.

Lemma LogIn_recovers_secret_witness :
  exists payload encryptedSecret g',
    main.signUpPayload [0xaa; 0x55] [0x12; 0x34] = Ok payload /\
    crypto.Encrypt toy.packet payload 0%nat = Ok (encryptedSecret, g') /\
    exists challenge,
      main.FirstLoginHandler (GS := toy.stdlib) 7
        {| main.saltByteLen := 8; main.port := 8080;
           main.userDatabase :=
             {[ "alice"%string :=
                  {| main.User_Username := "alice"%string;
                     main.User_EncryptedSecret := encryptedSecret;
                     main.SecretHash := [1]; main.Salt := [2] |} ]} |}
        (inr (main.LogIn_firstRequest toy.packet "alice"%string))
      = Ok ({| main.StatusCode := main.StatusOK;
               main.Body := main.FirstLogInBody challenge |},
            {| main.saltByteLen := 8; main.port := 8080;
               main.userDatabase :=
                 {[ "alice"%string :=
                      {| main.User_Username := "alice"%string;
                         main.User_EncryptedSecret := encryptedSecret;
                         main.SecretHash := [1]; main.Salt := [2] |} ]} |}) /\
      main.LogIn_secondRequest
        {| main.Port := 8080; main.messageByteLen := 2 |}
        toy.packet "alice"%string challenge
      = Ok {| main.SecondLogIn_Username := "alice"%string;
              main.SecondLogIn_Secret := [0x12; 0x34] |}.
Proof.
  destruct (LogIn_recovers_secret (BE := toy.backend) (GS := toy.stdlib)
              {| main.Port := 8080; main.messageByteLen := 2 |}
              toy.packet toy.packet "alice"%string [0xaa; 0x55] [0x12; 0x34]
              0%nat 7 (crypto.Build_ByteStream (GS := toy.stdlib) 113))
    as (payload & enc & g' & Hpay & Henc & Hlogin).
  - reflexivity.
  - intros m g [-> | ->]; reflexivity.
  - intros [[] ?] [[] ?]; reflexivity.
  - reflexivity.
  - reflexivity.
  - repeat constructor; unfold is_byte; lia.
  - repeat constructor; unfold is_byte; lia.
  - reflexivity.
  - exists payload, enc, g'. split; [exact Hpay|]. split; [exact Henc|].
    eapply Hlogin; [apply lookup_singleton_eq | reflexivity].
Defined.

(** ** The registry *)

Section Registry.
Context {TT : TfheTypes} {BE : HEBackend} {GS : GoStdlib}.

Lemma SignUpHandler_failure_keeps (rand_Read : nat -> string + list Z)
    (s s' : main.Server) (req : string + main.SignUpRequest) (resp : main.Response) :
  main.SignUpHandler rand_Read s req = (resp, s') ->
  main.StatusCode resp <> main.StatusOK ->
  s' = s.
Proof.
  unfold main.SignUpHandler. intros Hrun Hstatus.
  destruct req as [err|r]; [congruence|].
  destruct (main.userDatabase s !! main.SignUp_Username r); [congruence|].
  destruct (rand_Read (main.saltByteLen s)) as [err|salt]; [congruence|].
  destruct (Hash64_Write fnv_New64 _) as [err|h]; [congruence|].
  injection Hrun as <- <-. contradiction.
Qed.

(** C7: handled one at a time, a sign-up for a free username answers OK and
    adds exactly that user's record; a later sign-up for the same username is
    refused as a bad request and changes nothing; no sign-up that answers
    anything but OK changes the registry; and an undecodable body, a failing
    [rand.Read] and a failing hash write answer 400, 500 and 500. *)
Theorem SignUpHandler_exclusive (rand_Read : nat -> string + list Z)
    (s : main.Server) (req : main.SignUpRequest) (salt : list Z) (hash64 : Hash64) :
  main.userDatabase s !! main.SignUp_Username req = None ->
  rand_Read (main.saltByteLen s) = inr salt ->
  Hash64_Write fnv_New64 (salt ++ main.SignUp_Secret req) = inr hash64 ->
  exists s' : main.Server,
    main.SignUpHandler rand_Read s (inr req)
    = ({| main.StatusCode := main.StatusOK; main.Body := main.NoBody |}, s') /\
    main.userDatabase s' !! main.SignUp_Username req
    = Some {| main.User_Username := main.SignUp_Username req;
              main.User_EncryptedSecret := main.EncryptedSecret req;
              main.SecretHash := Hash64_Sum hash64;
              main.Salt := salt |} /\
    (forall other : string,
       other <> main.SignUp_Username req ->
       main.userDatabase s' !! other = main.userDatabase s !! other) /\
    size (main.userDatabase s') = S (size (main.userDatabase s)) /\
    (forall (rand_Read' : nat -> string + list Z) (again : main.SignUpRequest),
       main.SignUp_Username again = main.SignUp_Username req ->
       main.SignUpHandler rand_Read' s' (inr again)
       = (main.http_Error main.errUserExists main.StatusBadRequest, s')) /\
    (forall (rand_Read' : nat -> string + list Z) (t t' : main.Server)
            (body : string + main.SignUpRequest) (resp : main.Response),
       main.SignUpHandler rand_Read' t body = (resp, t') ->
       main.StatusCode resp <> main.StatusOK ->
       t' = t) /\
    (forall (rand_Read' : nat -> string + list Z) (t : main.Server) (err : string),
       main.SignUpHandler rand_Read' t (inl err)
       = (main.http_Error err main.StatusBadRequest, t)) /\
    (forall (rand_Read' : nat -> string + list Z) (t : main.Server)
            (r : main.SignUpRequest) (err : string),
       main.userDatabase t !! main.SignUp_Username r = None ->
       rand_Read' (main.saltByteLen t) = inl err ->
       main.SignUpHandler rand_Read' t (inr r)
       = (main.http_Error err main.StatusInternalServerError, t)) /\
    (forall (rand_Read' : nat -> string + list Z) (t : main.Server)
            (r : main.SignUpRequest) (salt' : list Z) (err : string),
       main.userDatabase t !! main.SignUp_Username r = None ->
       rand_Read' (main.saltByteLen t) = inr salt' ->
       Hash64_Write fnv_New64 (salt' ++ main.SignUp_Secret r) = inl err ->
       main.SignUpHandler rand_Read' t (inr r)
       = (main.http_Error err main.StatusInternalServerError, t)).
Proof.
  intros Hfree Hrand Hhash.
  eexists. split.
  { unfold main.SignUpHandler. rewrite Hfree, Hrand, Hhash. reflexivity. }
  cbn [main.userDatabase].
  split; [apply lookup_insert_eq|].
  split; [intros other Hne; apply lookup_insert_ne; congruence|].
  split; [apply map_size_insert_None, Hfree|].
  split.
  { intros rand_Read' again Hsame. unfold main.SignUpHandler.
    cbn [main.userDatabase]. rewrite Hsame, lookup_insert_eq. reflexivity. }
  split; [intros rand_Read' t t' body resp; apply SignUpHandler_failure_keeps|].
  split; [reflexivity|]. split.
  - intros rand_Read' t r err Hnone Herr. unfold main.SignUpHandler.
    rewrite Hnone, Herr. reflexivity.
  - intros rand_Read' t r salt' err Hnone Hsalt Herr. unfold main.SignUpHandler.
    rewrite Hnone, Hsalt, Herr. reflexivity.
Qed.

(** C8: both login phases answer a request for a username that is not in the
    registry with the "user doesn't exist" bad request and leave the registry
    as it is; phase 2 answers a wrong secret for a registered user with the
    "invalid credentials" forbidden response, which differs from the former
    in status and in text. *)
Theorem unknown_user_is_not_forbidden (s : main.Server) (username : string) :
  main.userDatabase s !! username = None ->
  (forall (u : Z) (req : main.FirstLogInRequest),
     main.FirstLogIn_Username req = username ->
     main.FirstLoginHandler u s (inr req)
     = Ok (main.http_Error main.errUserDoesNotExist main.StatusBadRequest, s)) /\
  (forall req : main.SecondLogInRequest,
     main.SecondLogIn_Username req = username ->
     main.SecondLoginHandler s (inr req)
     = (main.http_Error main.errUserDoesNotExist main.StatusBadRequest, s)) /\
  (forall (t : main.Server) (req : main.SecondLogInRequest) (user : main.User)
          (hash64 : Hash64),
     main.userDatabase t !! main.SecondLogIn_Username req = Some user ->
     Hash64_Write fnv_New64 (main.Salt user ++ main.SecondLogIn_Secret req) = inr hash64 ->
     Hash64_Sum hash64 <> main.SecretHash user ->
     main.SecondLoginHandler t (inr req)
     = (main.http_Error main.errInvalidCredentials main.StatusForbidden, t)) /\
  main.StatusCode (main.http_Error main.errUserDoesNotExist main.StatusBadRequest)
  <> main.StatusCode (main.http_Error main.errInvalidCredentials main.StatusForbidden) /\
  main.Body (main.http_Error main.errUserDoesNotExist main.StatusBadRequest)
  <> main.Body (main.http_Error main.errInvalidCredentials main.StatusForbidden) /\
  400 <= main.StatusBadRequest < 500 /\
  400 <= main.StatusForbidden < 500.
Proof.
  intros Hnone. split; [|split; [|split]].
  - intros u req <-. unfold main.FirstLoginHandler. rewrite Hnone. reflexivity.
  - intros req <-. unfold main.SecondLoginHandler. rewrite Hnone. reflexivity.
  - intros t req user hash64 Huser Hhash Hne. unfold main.SecondLoginHandler.
    rewrite Huser, Hhash. destruct (decide _); [contradiction | reflexivity].
  - cbn. unfold main.StatusBadRequest, main.StatusForbidden.
    repeat split; try lia; discriminate.
Qed.

End Registry.

Lemma SignUpHandler_exclusive_witness :
  exists s',
    main.SignUpHandler (GS := toy.stdlib) toy.rand_Read toy.server0 (inr toy.signup1)
    = ({| main.StatusCode := 200; main.Body := main.NoBody |}, s') /\
    size (main.userDatabase s') = 1%nat /\
    main.SignUpHandler (GS := toy.stdlib) toy.rand_Read s' (inr toy.signup2)
    = ({| main.StatusCode := 400; main.Body := main.ErrorText "user already exists" |}, s').
Proof.
  destruct (SignUpHandler_exclusive (BE := toy.backend) (GS := toy.stdlib)
              toy.rand_Read toy.server0 toy.signup1 [9; 9] [9; 9; 0x12])
    as (s' & Hok & _ & _ & Hsize & Hagain & _).
  - reflexivity.
  - reflexivity.
  - reflexivity.
  - exists s'. split; [exact Hok|]. split; [exact Hsize|].
    apply (Hagain toy.rand_Read toy.signup2). reflexivity.
Defined.

Lemma unknown_user_is_not_forbidden_witness :
  main.FirstLoginHandler (GS := toy.stdlib) 7 toy.server0
    (inr (main.LogIn_firstRequest toy.packet "bob"%string))
  = Ok ({| main.StatusCode := 400; main.Body := main.ErrorText "user doesn't exist" |},
        toy.server0) /\
  main.SecondLoginHandler (GS := toy.stdlib) toy.server0 (inr toy.login2)
  = ({| main.StatusCode := 400; main.Body := main.ErrorText "user doesn't exist" |},
     toy.server0).
Proof.
  destruct (unknown_user_is_not_forbidden (BE := toy.backend) (GS := toy.stdlib)
              toy.server0 "bob"%string (lookup_empty _))
    as (H1st & H2nd & _).
  split.
  - apply (H1st 7 (main.LogIn_firstRequest toy.packet "bob"%string)). reflexivity.
  - apply (H2nd toy.login2). reflexivity.
Defined.

(** ** The key stream *)

Section KeyStream.
Context {GS : GoStdlib}.

Lemma go_append_view (s : crypto.byte_slice) (x : Z) :
  crypto.slice_view (fst (crypto.go_append s x)) = crypto.slice_view s ++ [x].
Proof.
  unfold crypto.go_append, crypto.slice_view.
  destruct (decide _) as [Hlt|Hge]; cbn [fst crypto.backing crypto.slen].
  - destruct (lookup_lt_is_Some_2 (<[crypto.slen s := x]> (crypto.backing s))
                (crypto.slen s)) as [y Hy].
    { rewrite length_insert. exact Hlt. }
    rewrite (take_S_r _ _ y Hy).
    rewrite list_lookup_insert_eq in Hy by exact Hlt. injection Hy as <-.
    rewrite take_insert_ge by lia. reflexivity.
  - apply take_ge. rewrite length_app, length_take. simpl. lia.
Qed.

(** The caller's slice still shows the same bytes after [append] wrote
    behind it. *)
Lemma go_append_keeps_view (s : crypto.byte_slice) (x : Z) :
  take (crypto.slen s) (snd (crypto.go_append s x)) = crypto.slice_view s.
Proof.
  unfold crypto.go_append, crypto.slice_view.
  destruct (decide _); cbn [snd]; [|reflexivity].
  apply take_insert_ge. lia.
Qed.

Lemma MakeByteStream_view (key : crypto.byte_slice) :
  crypto.MakeByteStream key
  = match aes_NewCipher (fnv128_sum (crypto.slice_view key ++ [0])) with
    | inl err => Panic err
    | inr block =>
        st <- cipher_NewCTR block (fnv128_sum (crypto.slice_view key ++ [1])) ;;
        Ok {| crypto.stream := st |}
    end.
Proof.
  unfold crypto.MakeByteStream.
  pose proof (go_append_view key 0) as H0.
  pose proof (go_append_keeps_view key 0) as Hkeep.
  destruct (crypto.go_append key 0) as [k0 arr0]. cbn [fst snd] in *.
  pose proof (go_append_view {| crypto.backing := arr0; crypto.slen := crypto.slen key |} 1)
    as H1.
  destruct (crypto.go_append _ 1) as [k1 arr1]. cbn [fst] in H1.
  rewrite H0, H1. unfold crypto.slice_view at 2. cbn [crypto.backing crypto.slen].
  rewrite Hkeep. reflexivity.
Qed.

(** C5: two streams made from slices holding the same key bytes, wherever
    those slices live and whatever lies behind them, answer every sequence of
    [NextBytes] and [NextByte] calls with the same bytes. *)
Theorem keystream_deterministic (key1 key2 : crypto.byte_slice)
    (calls : list stream_call) :
  crypto.slice_view key1 = crypto.slice_view key2 ->
  crypto.MakeByteStream key1 = crypto.MakeByteStream key2 /\
  keystream_run key1 calls = keystream_run key2 calls.
Proof.
  intros Hview.
  assert (crypto.MakeByteStream key1 = crypto.MakeByteStream key2) as Hmk
    by (rewrite !MakeByteStream_view, Hview; reflexivity).
  split; [exact Hmk|].
  unfold keystream_run. rewrite Hmk. reflexivity.
Qed.

End KeyStream.

Lemma keystream_deterministic_witness :
  crypto.slice_view toy.tight_key = crypto.slice_view toy.roomy_key /\
  keystream_run (GS := toy.stdlib) toy.tight_key
    [call_NextBytes 3; call_NextByte; call_NextBytes 2]
  = keystream_run (GS := toy.stdlib) toy.roomy_key
      [call_NextBytes 3; call_NextByte; call_NextBytes 2] /\
  keystream_run (GS := toy.stdlib) toy.roomy_key
    [call_NextBytes 3; call_NextByte; call_NextBytes 2]
  = Ok [[63; 62; 57]; [32]; [163; 50]].
Proof.
  split; [reflexivity|]. split.
  - apply (keystream_deterministic (GS := toy.stdlib) toy.tight_key toy.roomy_key
             [call_NextBytes 3; call_NextByte; call_NextBytes 2]).
    reflexivity.
  - reflexivity.
Defined.

(** ** The public key on the wire *)

Lemma map_roundtrip {A B} (f : A -> B) (g : B -> A) :
  (forall x, g (f x) = x) -> forall l : list A, map g (map f l) = l.
Proof.
  intros Hgf. induction l as [|x l IH]; [reflexivity|].
  cbn [map]. rewrite Hgf, IH. reflexivity.
Qed.

Section PublicKeyWire.
Context {TT : TfheTypes} {BE : HEBackend} {GS : GoStdlib}.

Lemma poly_roundtrip (x : fft.LagrangeHalfCPolynomial) :
  crypto.poly_of_wire (crypto.wire_of_poly x) = x.
Proof. destruct x. reflexivity. Qed.

Lemma tlwe_roundtrip (w : core.TLweSampleFFT) :
  crypto.tlwe_of_wire (crypto.wire_of_tlwe w) = w.
Proof.
  destruct w as [a v k]. unfold crypto.tlwe_of_wire, crypto.wire_of_tlwe.
  cbn [crypto.A crypto.CurrentVariance crypto.K core.A core.CurrentVariance core.K].
  rewrite (map_roundtrip _ _ poly_roundtrip). reflexivity.
Qed.

Lemma tgsw_roundtrip (v : core.TGswSampleFFT) :
  crypto.tgsw_of_wire (crypto.wire_of_tgsw v) = v.
Proof.
  destruct v as [al bl k l]. unfold crypto.tgsw_of_wire, crypto.wire_of_tgsw.
  cbn [crypto.AllSample crypto.BlocSample crypto.TGsw_K crypto.TGsw_L
       core.AllSample core.BlocSample core.TGsw_K core.TGsw_L].
  rewrite (map_roundtrip _ _ tlwe_roundtrip).
  rewrite (map_roundtrip _ _ (map_roundtrip _ _ tlwe_roundtrip)). reflexivity.
Qed.

Lemma fromPublicKey_header_agrees (w : crypto.PublicKey) :
  fft_header_agrees (crypto.fromPublicKey w).
Proof. unfold fft_header_agrees, crypto.fromPublicKey. cbn. repeat split. Qed.

(** C9: the public keys the program holds are built by go-tfhe's
    constructors or by [fromPublicKey]; in such a key the FFT half of the
    bootstrapping key names the parameter sets and the key-switching key of
    the plain half.  A key of that shape, written to the wire by
    [MakePublicKey] and read back by [fromPublicKey], is the key it was:
    parameters, plain bootstrapping key, FFT header and every FFT sample
    with its coefficients, variances and sizes. *)
Theorem PublicKey_roundtrip (pk : gates.PublicKey) :
  fft_header_agrees pk ->
  crypto.fromPublicKey (crypto.MakePublicKey pk) = pk.
Proof.
  destruct pk as [params [bk [p1 p2 p3 p4 samples ks]]].
  unfold crypto.fromPublicKey, crypto.MakePublicKey, fft_header_agrees.
  cbn [gates.Params gates.Bkw core.Bk core.BkFFT core.FFT_Bk
       core.FFT_InOutParams core.FFT_BkParams core.FFT_AccumParams
       core.FFT_ExtractParams core.FFT_Ks
       crypto.Params crypto.Bkw crypto.Bk crypto.BkFFT crypto.FFT_Bk].
  rewrite (map_roundtrip _ _ tgsw_roundtrip).
  intros (-> & -> & -> & -> & ->). reflexivity.
Qed.

End PublicKeyWire.

Lemma PublicKey_roundtrip_witness :
  crypto.fromPublicKey (crypto.MakePublicKey toy.key) = toy.key /\
  crypto.fromPublicKey
    (crypto.MakePublicKey (crypto.fromPublicKey (crypto.MakePublicKey toy.key)))
  = crypto.fromPublicKey (crypto.MakePublicKey toy.key).
Proof.
  split.
  - apply PublicKey_roundtrip. repeat split.
  - apply PublicKey_roundtrip, fromPublicKey_header_agrees.
Defined.

(** * Further properties of the code *)

(** ** The key stream, call by call *)

Section StreamCalls.
Context {GS : GoStdlib}.

Lemma NextBytes_zero (cbs : crypto.ByteStream) : crypto.NextBytes cbs 0 = ([], cbs).
Proof. destruct cbs. reflexivity. Qed.

Lemma NextBytes_add (a : nat) :
  forall (cbs : crypto.ByteStream) (b : nat),
    crypto.NextBytes cbs (a + b)
    = (fst (crypto.NextBytes cbs a)
         ++ fst (crypto.NextBytes (snd (crypto.NextBytes cbs a)) b),
       snd (crypto.NextBytes (snd (crypto.NextBytes cbs a)) b)).
Proof.
  induction a as [|a IH]; intros cbs b.
  - rewrite NextBytes_zero. cbn [Nat.add fst snd app].
    destruct (crypto.NextBytes cbs b). reflexivity.
  - cbn [Nat.add]. rewrite !NextBytes_succ.
    destruct (stream_next (crypto.stream cbs)) as [k st1].
    rewrite IH.
    destruct (crypto.NextBytes {| crypto.stream := st1 |} a) as [out cbs1].
    cbn [fst snd]. reflexivity.
Qed.

(** X1: drawing [a] bytes and then [b] bytes gives the bytes, and leaves the
    stream, that drawing [a + b] at once does; every draw of [n] returns [n]
    values below 256. *)
Theorem NextBytes_chunks (cbs : crypto.ByteStream) (a b : nat) :
  crypto.NextBytes cbs (a + b)
  = (fst (crypto.NextBytes cbs a)
       ++ fst (crypto.NextBytes (snd (crypto.NextBytes cbs a)) b),
     snd (crypto.NextBytes (snd (crypto.NextBytes cbs a)) b)) /\
  length (fst (crypto.NextBytes cbs a)) = a /\
  Forall is_byte (fst (crypto.NextBytes cbs a)).
Proof.
  split; [apply NextBytes_add|]. split; [apply NextBytes_length | apply NextBytes_bytes].
Qed.

Lemma run_NextByte_n (n : nat) :
  forall cbs : crypto.ByteStream,
    run_calls (replicate n call_NextByte) cbs
    = Ok (map (fun b => [b]) (fst (crypto.NextBytes cbs n))).
Proof.
  induction n as [|n IH]; intros cbs; [reflexivity|].
  cbn [replicate run_calls]. rewrite NextByte_eq, NextBytes_succ. cbn [obind fst snd].
  destruct (stream_next (crypto.stream cbs)) as [k st1]. cbn [fst snd].
  rewrite IH. cbn [obind].
  destruct (crypto.NextBytes {| crypto.stream := st1 |} n) as [out cbs']. reflexivity.
Qed.

(** X2: [NextByte] never panics: it returns the one byte [NextBytes(1)]
    would and leaves the stream where that leaves it; [n] calls of it in
    a row return the bytes of one [NextBytes(n)]. *)
Theorem NextByte_is_NextBytes (cbs : crypto.ByteStream) (n : nat) :
  (exists (b : Z) (cbs' : crypto.ByteStream),
     crypto.NextByte cbs = Ok (b, cbs') /\
     crypto.NextBytes cbs 1 = ([b], cbs') /\
     is_byte b) /\
  run_calls (replicate n call_NextByte) cbs
  = Ok (map (fun b => [b]) (fst (crypto.NextBytes cbs n))) /\
  run_calls [call_NextBytes n] cbs = Ok [fst (crypto.NextBytes cbs n)].
Proof.
  split; [|split; [apply run_NextByte_n|]].
  - eexists _, _. split; [apply NextByte_eq|]. split.
    + rewrite NextBytes_succ.
      destruct (stream_next (crypto.stream cbs)) as [k st1]. reflexivity.
    + apply byte_wrap_is_byte.
  - cbn [run_calls]. destruct (crypto.NextBytes cbs n). reflexivity.
Qed.

(** X3: whatever room the key slice has behind its bytes, the cipher key is
    the FNV-128 sum of [key ++ [0]] and the counter block that of [key ++ [1]];
    [MakeByteStream] returns a stream exactly when [aes.NewCipher] takes the
    first and [cipher.NewCTR] the second, and panics with the error of the
    one that does not. *)
Theorem MakeByteStream_seeds (key : crypto.byte_slice) :
  (forall cbs : crypto.ByteStream,
     crypto.MakeByteStream key = Ok cbs <->
     exists block : Block,
       aes_NewCipher (fnv128_sum (crypto.slice_view key ++ [0])) = inr block /\
       cipher_NewCTR block (fnv128_sum (crypto.slice_view key ++ [1]))
       = Ok (crypto.stream cbs)) /\
  (forall err : string,
     aes_NewCipher (fnv128_sum (crypto.slice_view key ++ [0])) = inl err ->
     crypto.MakeByteStream key = Panic err) /\
  (forall (block : Block) (msg : string),
     aes_NewCipher (fnv128_sum (crypto.slice_view key ++ [0])) = inr block ->
     cipher_NewCTR block (fnv128_sum (crypto.slice_view key ++ [1])) = Panic msg ->
     crypto.MakeByteStream key = Panic msg).
Proof.
  rewrite MakeByteStream_view.
  destruct (aes_NewCipher (fnv128_sum (crypto.slice_view key ++ [0]))) as [err|block].
  - split; [|split].
    + intros cbs. split; [discriminate|]. intros (block & Hb & _). discriminate.
    + intros err' E. injection E as ->. reflexivity.
    + discriminate.
  - split; [|split].
    + intros [st']. cbn [crypto.stream]. split.
      * intros E. exists block. split; [reflexivity|].
        destruct (cipher_NewCTR block _) as [st| |]; try discriminate.
        cbn [obind] in E. injection E as <-. reflexivity.
      * intros (block' & Hb & Hst). injection Hb as <-. rewrite Hst. reflexivity.
    + discriminate.
    + intros block' msg Hb Hst. injection Hb as <-. rewrite Hst. reflexivity.
Qed.

End StreamCalls.

(** ** Key generation from the key stream *)

Lemma for_range_app {A St} (body : nat -> A -> St -> outcome St) (xs : list A) :
  forall (ys : list A) (i0 : nat) (s : St),
    for_range body i0 (xs ++ ys) s
    = (s' <- for_range body i0 xs s ;; for_range body (i0 + length xs) ys s').
Proof.
  induction xs as [|x xs IH]; intros ys i0 s.
  - cbn [app for_range obind length]. rewrite Nat.add_0_r. reflexivity.
  - cbn [app for_range length]. destruct (body i0 x s) as [s1| |]; try reflexivity.
    cbn [obind]. rewrite IH. replace (S i0 + length xs)%nat with (i0 + S (length xs))%nat by lia.
    reflexivity.
Qed.

Lemma concat_rows (k N : nat) :
  forall xs : list Z, concat (rows k N xs) = take (k * N) xs.
Proof.
  induction k as [|k IH]; intros xs; [reflexivity|].
  cbn [rows concat]. rewrite IH.
  replace (S k * N)%nat with (N + k * N)%nat by lia.
  rewrite <- (take_drop N xs) at 3.
  destruct (decide (N <= length xs)%nat) as [Hle|Hgt].
  - rewrite take_app_add' by (rewrite length_take; lia). reflexivity.
  - rewrite (take_ge xs N), (drop_ge xs N), take_nil, !app_nil_r by lia.
    rewrite take_ge by lia. reflexivity.
Qed.

Lemma rows_shape (k N : nat) :
  forall xs : list Z,
    (k * N <= length xs)%nat ->
    length (rows k N xs) = k /\ Forall (fun row => length row = N) (rows k N xs).
Proof.
  induction k as [|k IH]; intros xs Hlen; [split; [reflexivity | constructor]|].
  cbn [rows length]. destruct (IH (drop N xs)) as [Hk Hrows].
  { rewrite length_drop. lia. }
  split; [rewrite Hk; reflexivity|].
  constructor; [rewrite length_take; lia | exact Hrows].
Qed.

Section KeyGenProps.
Context {TT : TfheTypes} {BE : HEBackend} {GS : GoStdlib} {KG : KeyGenBackend}.

Lemma lweKeyGen_loop (xs : list Z) :
  forall (done rest : list Z) (cbs : crypto.ByteStream),
    length rest = length xs ->
    for_range (fun i (_ : Z) (s : list Z * crypto.ByteStream) =>
                 let '(z, byteStream) := s in
                 nb <- crypto.NextByte byteStream ;;
                 z' <- store z i (Z.land (fst nb) 1) ;;
                 Ok (z', snd nb)) (length done) xs (done ++ rest, cbs)
    = Ok (done ++ map low_bit (fst (crypto.NextBytes cbs (length xs))),
          snd (crypto.NextBytes cbs (length xs))).
Proof.
  induction xs as [|x xs IH]; intros done rest cbs Hlen.
  - destruct rest; [|discriminate]. cbn [for_range length].
    rewrite NextBytes_zero. reflexivity.
  - destruct rest as [|y rest]; [discriminate|].
    cbn [for_range length]. rewrite NextByte_eq, NextBytes_succ. cbn [obind fst snd].
    destruct (stream_next (crypto.stream cbs)) as [k st1]. cbn [fst snd].
    rewrite store_middle. cbn [obind].
    replace (S (length done)) with (length (done ++ [Z.land (byte_wrap k) 1]))
      by (rewrite length_app; simpl; lia).
    rewrite IH by (simpl in Hlen; lia).
    destruct (crypto.NextBytes {| crypto.stream := st1 |} (length xs)) as [out cbs'].
    cbn [fst snd map]. rewrite <- app_assoc. reflexivity.
Qed.

Lemma lweKeyGen_eq (byteStream : crypto.ByteStream) (result : core.LweKey) :
  0 <= LweParams_N (core.LweKey_Params result) ->
  crypto.lweKeyGen byteStream result
  = Ok ({| core.LweKey_Params := core.LweKey_Params result;
           core.LweKey_Key :=
             map low_bit
               (fst (crypto.NextBytes byteStream
                       (Z.to_nat (LweParams_N (core.LweKey_Params result))))) |},
        snd (crypto.NextBytes byteStream
               (Z.to_nat (LweParams_N (core.LweKey_Params result))))).
Proof.
  intros HN. unfold crypto.lweKeyGen.
  set (N := LweParams_N (core.LweKey_Params result)) in *.
  destruct (decide (N < 0)); [lia|].
  pose proof (lweKeyGen_loop (replicate (Z.to_nat N) 0) []
                (replicate (Z.to_nat N) 0) byteStream eq_refl) as L.
  cbn [app length] in L. rewrite L, length_replicate. reflexivity.
Qed.

(** X4: for a key of [N >= 0] entries, [lweKeyGen] draws exactly [N] bytes
    and leaves their lowest bits, in order, as the key; a negative [N]
    panics in [make]. *)
Theorem lweKeyGen_bits (byteStream : crypto.ByteStream) (result : core.LweKey) :
  let N := LweParams_N (core.LweKey_Params result) in
  (0 <= N ->
   crypto.lweKeyGen byteStream result
   = Ok ({| core.LweKey_Params := core.LweKey_Params result;
            core.LweKey_Key :=
              map low_bit (fst (crypto.NextBytes byteStream (Z.to_nat N))) |},
         snd (crypto.NextBytes byteStream (Z.to_nat N))) /\
   length (map low_bit (fst (crypto.NextBytes byteStream (Z.to_nat N)))) = Z.to_nat N /\
   Forall (fun b => b = 0 \/ b = 1)
          (map low_bit (fst (crypto.NextBytes byteStream (Z.to_nat N))))) /\
  (N < 0 -> crypto.lweKeyGen byteStream result = Panic crypto.makeslice_panic).
Proof.
  intros N. split.
  - intros HN. split; [|split].
    + apply lweKeyGen_eq, HN.
    + rewrite length_map. apply NextBytes_length.
    + apply Forall_forall. intros b Hb. apply list_elem_of_In, in_map_iff in Hb.
      destruct Hb as (x & <- & _). unfold low_bit.
      rewrite Z.land_ones with (n := 1) by lia. change (2 ^ 1) with 2.
      pose proof (Z.mod_pos_bound x 2). lia.
  - intros HN. unfold crypto.lweKeyGen. fold N.
    destruct (decide (N < 0)); [reflexivity | lia].
Qed.

Lemma tlweKeyGen_row (i : nat) (before after : list (list Z)) (cnt : nat) :
  length before = i ->
  forall (k0 : nat) (pdone prest : list Z) (cbs : crypto.ByteStream),
    length prest = cnt ->
    for_range (crypto.tlweKeyGen_coef i) k0 (seq (length pdone) cnt)
      (before ++ (pdone ++ prest) :: after, cbs)
    = Ok (before ++ (pdone ++ map low_bit (fst (crypto.NextBytes cbs cnt))) :: after,
          snd (crypto.NextBytes cbs cnt)).
Proof.
  intros Hi. subst i. induction cnt as [|cnt IH]; intros k0 pdone prest cbs Hlen.
  - destruct prest; [|discriminate]. cbn [seq for_range].
    rewrite NextBytes_zero. reflexivity.
  - destruct prest as [|y prest]; [discriminate|].
    cbn [seq for_range]. unfold crypto.tlweKeyGen_coef at 1.
    rewrite (load_Some _ (length before) (pdone ++ y :: prest))
      by (rewrite lookup_app_r, Nat.sub_diag by lia; reflexivity).
    cbn [obind]. rewrite NextByte_eq, NextBytes_succ. cbn [obind fst snd].
    destruct (stream_next (crypto.stream cbs)) as [k st1]. cbn [fst snd].
    rewrite store_middle. cbn [obind]. rewrite store_middle. cbn [obind].
    rewrite <- app_assoc. cbn [app].
    replace (S (length pdone)) with (length (pdone ++ [Z.land (byte_wrap k) 1]))
      by (rewrite length_app; simpl; lia).
    rewrite IH by (simpl in Hlen; lia).
    destruct (crypto.NextBytes {| crypto.stream := st1 |} cnt) as [out cbs'].
    cbn [fst snd map]. rewrite <- app_assoc. reflexivity.
Qed.

Lemma tlweKeyGen_rows (N : nat) (rest : list (list Z)) :
  Forall (fun row => length row = N) rest ->
  forall (k0 : nat) (before : list (list Z)) (cbs : crypto.ByteStream),
    for_range (fun (_ : nat) (i : nat) s =>
                 for_range (crypto.tlweKeyGen_coef i) 0 (seq 0 N) s)
      k0 (seq (length before) (length rest)) (before ++ rest, cbs)
    = Ok (before
            ++ rows (length rest) N
                 (map low_bit (fst (crypto.NextBytes cbs (length rest * N)))),
          snd (crypto.NextBytes cbs (length rest * N))).
Proof.
  induction 1 as [|row rest Hrow _ IH]; intros k0 before cbs.
  - cbn [length seq for_range Nat.mul rows]. rewrite NextBytes_zero, app_nil_r.
    reflexivity.
  - cbn [length seq for_range].
    pose proof (tlweKeyGen_row (length before) before rest N eq_refl 0 [] row cbs Hrow)
      as R.
    cbn [app length] in R. rewrite R. cbn [obind].
    replace (before
               ++ map low_bit (fst (crypto.NextBytes cbs N)) :: rest)
      with ((before ++ [map low_bit (fst (crypto.NextBytes cbs N))]) ++ rest)
      by (rewrite <- app_assoc; reflexivity).
    replace (S (length before))
      with (length (before ++ [map low_bit (fst (crypto.NextBytes cbs N))]))
      by (rewrite length_app; simpl; lia).
    rewrite IH. cbn [Nat.mul rows]. rewrite (NextBytes_add N). cbn [fst snd].
    rewrite map_app.
    rewrite take_app_length' by (rewrite length_map, NextBytes_length; reflexivity).
    rewrite drop_app_length' by (rewrite length_map, NextBytes_length; reflexivity).
    rewrite <- app_assoc. reflexivity.
Qed.

Lemma tlweKeyGen_eq (byteStream : crypto.ByteStream) (result : core.TLweKey) :
  let N := Z.to_nat (TLweParams_N (core.TLweKey_Params result)) in
  let k := Z.to_nat (TLweParams_K (core.TLweKey_Params result)) in
  length (core.TLweKey_Key result) = k ->
  Forall (fun row => length row = N) (core.TLweKey_Key result) ->
  crypto.tlweKeyGen byteStream result
  = Ok ({| core.TLweKey_Params := core.TLweKey_Params result;
           core.TLweKey_Key :=
             rows k N (map low_bit (fst (crypto.NextBytes byteStream (k * N)))) |},
        snd (crypto.NextBytes byteStream (k * N))).
Proof.
  intros N k Hk Hrows. unfold crypto.tlweKeyGen. fold N k.
  pose proof (tlweKeyGen_rows N (core.TLweKey_Key result) Hrows 0 [] byteStream) as R.
  cbn [app length] in R. rewrite Hk in R. rewrite R. reflexivity.
Qed.

(** X5: on a key of [k] polynomials of [N] coefficients each, [tlweKeyGen]
    never indexes out of range, draws exactly [k*N] bytes and writes their
    lowest bits row by row; the key keeps its shape. *)
Theorem tlweKeyGen_bits (byteStream : crypto.ByteStream) (result : core.TLweKey) :
  let N := Z.to_nat (TLweParams_N (core.TLweKey_Params result)) in
  let k := Z.to_nat (TLweParams_K (core.TLweKey_Params result)) in
  length (core.TLweKey_Key result) = k ->
  Forall (fun row => length row = N) (core.TLweKey_Key result) ->
  let bits := map low_bit (fst (crypto.NextBytes byteStream (k * N))) in
  crypto.tlweKeyGen byteStream result
  = Ok ({| core.TLweKey_Params := core.TLweKey_Params result;
           core.TLweKey_Key := rows k N bits |},
        snd (crypto.NextBytes byteStream (k * N))) /\
  concat (rows k N bits) = bits /\
  length (rows k N bits) = k /\
  Forall (fun row => length row = N) (rows k N bits).
Proof.
  intros N k Hk Hrows bits.
  assert (length bits = (k * N)%nat) as Hbits
    by (unfold bits; rewrite length_map; apply NextBytes_length).
  split; [|split].
  - apply (tlweKeyGen_eq byteStream result Hk Hrows).
  - rewrite concat_rows. apply take_ge. lia.
  - apply rows_shape. lia.
Qed.

(** X6: with fewer polynomials in the key than its parameters announce,
    [tlweKeyGen] panics on the first missing one. *)
Theorem tlweKeyGen_short_key (byteStream : crypto.ByteStream) (result : core.TLweKey) :
  let N := Z.to_nat (TLweParams_N (core.TLweKey_Params result)) in
  let k := Z.to_nat (TLweParams_K (core.TLweKey_Params result)) in
  (length (core.TLweKey_Key result) < k)%nat ->
  (0 < N)%nat ->
  Forall (fun row => length row = N) (core.TLweKey_Key result) ->
  crypto.tlweKeyGen byteStream result = Panic index_panic.
Proof.
  intros N k Hshort HN Hrows. unfold crypto.tlweKeyGen. fold N k.
  set (m := length (core.TLweKey_Key result)) in *.
  replace k with (m + S (k - m - 1))%nat by lia.
  rewrite seq_app, for_range_app.
  pose proof (tlweKeyGen_rows N (core.TLweKey_Key result) Hrows 0 [] byteStream) as R.
  cbn [app length] in R. fold m in R. rewrite R. cbn [obind].
  cbn [seq for_range].
  destruct N as [|N']; [lia|]. cbn [seq for_range].
  unfold crypto.tlweKeyGen_coef at 1.
  unfold load. rewrite lookup_ge_None_2; [reflexivity|].
  destruct (rows_shape m (S N')
              (map low_bit (fst (crypto.NextBytes byteStream (m * S N'))))) as [Hl _].
  { rewrite length_map, NextBytes_length. lia. }
  rewrite Hl. lia.
Qed.

End KeyGenProps.

Section MakePacketProps.
Context {TT : TfheTypes} {BE : HEBackend} {GS : GoStdlib} {KG : KeyGenBackend}.

Lemma generateKeys_eq (byteStream : crypto.ByteStream)
    (params : GateBootstrappingParameterSet) (g : Rng) :
  let lwe0 := NewLweKey (Params_InOutParams params) in
  let tlwe0 := core.TlweKey (NewTGswKey (Params_TgswParams params)) in
  let n := Z.to_nat (LweParams_N (core.LweKey_Params lwe0)) in
  let N := Z.to_nat (TLweParams_N (core.TLweKey_Params tlwe0)) in
  let k := Z.to_nat (TLweParams_K (core.TLweKey_Params tlwe0)) in
  0 <= LweParams_N (core.LweKey_Params lwe0) ->
  length (core.TLweKey_Key tlwe0) = k ->
  Forall (fun row => length row = N) (core.TLweKey_Key tlwe0) ->
  let bytes := fst (crypto.NextBytes byteStream (n + k * N)) in
  let lweKey :=
    {| core.LweKey_Params := core.LweKey_Params lwe0;
       core.LweKey_Key := map low_bit (take n bytes) |} in
  let tgswKey :=
    {| core.TlweKey :=
         {| core.TLweKey_Params := core.TLweKey_Params tlwe0;
            core.TLweKey_Key := rows k N (map low_bit (drop n bytes)) |} |} in
  let w := NewLweBootstrappingKeyWrapper (Params_KsT params) (Params_KsBasebit params)
             (Params_InOutParams params) (Params_TgswParams params) lweKey tgswKey g in
  crypto.generateKeys byteStream params g
  = Ok (NewPublicKey params (fst w), NewPrivateKey params (fst w) lweKey tgswKey,
        snd (crypto.NextBytes byteStream (n + k * N)), snd w).
Proof.
  intros lwe0 tlwe0 n N k Hn Hk Hrows bytes lweKey tgswKey w.
  pose proof (NextBytes_add n byteStream (k * N)) as Hadd.
  assert (take n bytes = fst (crypto.NextBytes byteStream n)) as Ht.
  { unfold bytes. rewrite Hadd. cbn [fst].
    apply take_app_length'. rewrite NextBytes_length. reflexivity. }
  assert (drop n bytes
          = fst (crypto.NextBytes (snd (crypto.NextBytes byteStream n)) (k * N))) as Hd.
  { unfold bytes. rewrite Hadd. cbn [fst].
    apply drop_app_length'. rewrite NextBytes_length. reflexivity. }
  pose proof (lweKeyGen_eq byteStream lwe0 Hn) as H1.
  pose proof (tlweKeyGen_eq (snd (crypto.NextBytes byteStream n)) tlwe0 Hk Hrows) as H2.
  assert (snd (crypto.NextBytes (snd (crypto.NextBytes byteStream n)) (k * N))
          = snd (crypto.NextBytes byteStream (n + k * N))) as Hs
    by (rewrite Hadd; reflexivity).
  assert (crypto.lweKeyGen byteStream lwe0
          = Ok (lweKey, snd (crypto.NextBytes byteStream n))) as H1'
    by (unfold lweKey; rewrite Ht; exact H1).
  assert (crypto.tlweKeyGen (snd (crypto.NextBytes byteStream n)) tlwe0
          = Ok (core.TlweKey tgswKey, snd (crypto.NextBytes byteStream (n + k * N))))
    as H2'
    by (unfold tgswKey; cbn [core.TlweKey]; rewrite Hd, <- Hs; exact H2).
  unfold crypto.generateKeys.
  change (NewLweKey (Params_InOutParams params)) with lwe0.
  rewrite H1'. cbn [obind].
  change (core.TlweKey (NewTGswKey (Params_TgswParams params))) with tlwe0.
  rewrite H2'. cbn [obind].
  change {| core.TlweKey := core.TlweKey tgswKey |} with tgswKey.
  change (NewLweBootstrappingKeyWrapper (Params_KsT params) (Params_KsBasebit params)
            (Params_InOutParams params) (Params_TgswParams params) _ _ g) with w.
  destruct w. reflexivity.
Qed.

(** X7: [MakePacket] reads the two secret keys off one run of the stream:
    the LWE key is the lowest bits of its first [n] bytes, the TLWE key
    inside the TGSW key the lowest bits of the next [k*N], and nothing else
    is drawn; the backend's own generator only enters the bootstrapping
    key, so the key bits handed to [NewPrivateKey] do not depend on it. *)
Theorem MakePacket_key_material (byteStream : crypto.ByteStream) :
  let params := DefaultGateBootstrappingParameters 128 in
  let lwe0 := NewLweKey (Params_InOutParams params) in
  let tlwe0 := core.TlweKey (NewTGswKey (Params_TgswParams params)) in
  let n := Z.to_nat (LweParams_N (core.LweKey_Params lwe0)) in
  let N := Z.to_nat (TLweParams_N (core.TLweKey_Params tlwe0)) in
  let k := Z.to_nat (TLweParams_K (core.TLweKey_Params tlwe0)) in
  0 <= LweParams_N (core.LweKey_Params lwe0) ->
  length (core.TLweKey_Key tlwe0) = k ->
  Forall (fun row => length row = N) (core.TLweKey_Key tlwe0) ->
  exists (lweKey : core.LweKey) (tgswKey : core.TGswKey),
    core.LweKey_Key lweKey ++ concat (core.TLweKey_Key (core.TlweKey tgswKey))
    = map low_bit (fst (crypto.NextBytes byteStream (n + k * N))) /\
    length (core.LweKey_Key lweKey) = n /\
    forall g : Rng,
      let w := NewLweBootstrappingKeyWrapper (Params_KsT params)
                 (Params_KsBasebit params) (Params_InOutParams params)
                 (Params_TgswParams params) lweKey tgswKey g in
      crypto.MakePacket byteStream g
      = Ok ({| crypto.pub := NewPublicKey params (fst w);
               crypto.prv := NewPrivateKey params (fst w) lweKey tgswKey |},
            snd (crypto.NextBytes byteStream (n + k * N)), snd w).
Proof.
  intros params lwe0 tlwe0 n N k Hn Hk Hrows.
  set (bytes := fst (crypto.NextBytes byteStream (n + k * N))).
  assert (length bytes = (n + k * N)%nat) as Hlen by apply NextBytes_length.
  exists {| core.LweKey_Params := core.LweKey_Params lwe0;
            core.LweKey_Key := map low_bit (take n bytes) |},
         {| core.TlweKey :=
              {| core.TLweKey_Params := core.TLweKey_Params tlwe0;
                 core.TLweKey_Key := rows k N (map low_bit (drop n bytes)) |} |}.
  cbn [core.LweKey_Key core.TLweKey_Key core.TlweKey].
  split; [|split].
  - rewrite concat_rows.
    rewrite (take_ge (map low_bit (drop n bytes)))
      by (rewrite length_map, length_drop; lia).
    rewrite <- map_app, take_drop. reflexivity.
  - rewrite length_map, length_take. lia.
  - intros g. cbv zeta. unfold crypto.MakePacket.
    change (DefaultGateBootstrappingParameters 128) with params.
    pose proof (generateKeys_eq byteStream params g Hn Hk Hrows) as E.
    cbv zeta in E. rewrite E. reflexivity.
Qed.

End MakePacketProps.

(** ** The gate evaluators, position by position *)

Section GatesPointwise.
Context {TT : TfheTypes} {BE : HEBackend} {GS : GoStdlib}.

(** X8: in whatever order the goroutines of a gate evaluation finish, the
    slice returned is the one filled in index order: completion order never
    shows in the result, for the binary and the unary evaluator alike. *)
Theorem gate_evaluation_any_schedule (sched : list nat) (p : crypto.Packet)
    (a b : list LweSample) :
  sched ≡ₚ seq 0 (length a) ->
  (forall operation,
     crypto.ParallelBinary_scheduled sched p operation a b
     = crypto.ParallelBinary p operation a b) /\
  (forall operation,
     crypto.ParallelUnary_scheduled sched p operation a
     = crypto.ParallelUnary p operation a).
Proof.
  intros Hperm. split; intros operation.
  - apply ParallelBinary_any_schedule, Hperm.
  - apply ParallelUnary_any_schedule, Hperm.
Qed.


(** X10: on ciphertexts of equal length without nil units, unit [i] of what
    [And], [Or], [Xor] and [XNor] return is the backend gate applied to
    units [i] of the two inputs: positions are kept. *)
Theorem binary_gates_pointwise (p : crypto.Packet) (a b : list LweSample) :
  length a = length b ->
  no_nil_unit a ->
  no_nil_unit b ->
  Forall (fun '(evaluate, gate) =>
            exists r : list LweSample,
              evaluate a b = Ok r /\
              forall (i : nat) (x y : LweSample),
                a !! i = Some x -> b !! i = Some y ->
                r !! i = Some (gate (crypto.pub p) x y))
         [(crypto.And p, gate_And); (crypto.Or p, gate_Or);
          (crypto.Xor p, gate_Xor); (crypto.XNor p, gate_Xnor)].
Proof.
  intros Hlen _ _.
  assert (forall op,
            exists r, crypto.ParallelBinary p op a b = Ok r /\
              forall i x y, a !! i = Some x -> b !! i = Some y ->
                r !! i = Some (op (crypto.pub p) x y)) as Hop.
  { intros op. rewrite ParallelBinary_eq.
    destruct (decide (length a = length b)); [|contradiction].
    eexists. split; [reflexivity|].
    intros i x y Hx Hy. rewrite lookup_zip_with, Hx, Hy. reflexivity. }
  repeat constructor; apply Hop.
Qed.

End GatesPointwise.

(** ** Gates on encrypted bytes *)

Lemma bits_value_bitwise (F : Z -> Z -> Z) (op : bool -> bool -> bool) :
  (forall a b n, Z.testbit (F a b) n = op (Z.testbit a n) (Z.testbit b n)) ->
  F 0 0 = 0 ->
  forall u v : list bool,
    length u = length v ->
    bits_value (zip_with op u v) = F (bits_value u) (bits_value v).
Proof.
  intros Hspec H0. induction u as [|x u IH]; intros [|y v] Hlen; try discriminate.
  - symmetry. exact H0.
  - cbn [zip_with bits_value]. rewrite IH by (simpl in Hlen; lia).
    apply Z.bits_inj'. intros n Hn. rewrite Hspec.
    destruct (Z.eq_dec n 0) as [->|Hne].
    + rewrite !Z.add_b2z_double_bit0. reflexivity.
    + replace n with (Z.succ (n - 1)) by lia.
      rewrite <- !Z.div2_bits, !Z.add_b2z_double_div2 by lia. apply Hspec.
Qed.

Lemma bits_value_negb (u : list bool) :
  bits_value (map negb u) = 2 ^ Z.of_nat (length u) - 1 - bits_value u.
Proof.
  induction u as [|x u IH]; [reflexivity|].
  cbn [map bits_value length]. rewrite IH, Nat2Z.inj_succ, Z.pow_succ_r by lia.
  destruct x; cbn [negb Z.b2z]; lia.
Qed.

Lemma zip_with_negb (op : bool -> bool -> bool) (u : list bool) :
  forall v : list bool,
    zip_with (fun x y => negb (op x y)) u v = map negb (zip_with op u v).
Proof.
  induction u as [|x u IH]; intros [|y v]; try reflexivity.
  cbn [zip_with map]. rewrite IH. reflexivity.
Qed.

Lemma unpack_bytes_zip (F FB : Z -> Z -> Z) :
  (forall x y : list Z, length x = 8%nat -> length y = 8%nat ->
     pack (zip_with F x y) = FB (pack x) (pack y)) ->
  forall (n : nat) (a b : list Z),
    length a = (8 * n)%nat -> length b = (8 * n)%nat ->
    unpack_bytes n (zip_with F a b)
    = zip_with FB (unpack_bytes n a) (unpack_bytes n b).
Proof.
  intros Hpack. induction n as [|n IH]; intros a b Ha Hb; [reflexivity|].
  cbn [unpack_bytes zip_with]. rewrite zip_with_take, zip_with_drop.
  rewrite Hpack by (rewrite length_take; lia).
  rewrite IH by (rewrite length_drop; lia). reflexivity.
Qed.

Lemma unpack_bytes_map (U UB : Z -> Z) :
  (forall x : list Z, length x = 8%nat -> pack (map U x) = UB (pack x)) ->
  forall (n : nat) (a : list Z),
    length a = (8 * n)%nat ->
    unpack_bytes n (map U a) = map UB (unpack_bytes n a).
Proof.
  intros Hpack. induction n as [|n IH]; intros a Ha; [reflexivity|].
  cbn [unpack_bytes map]. rewrite firstn_map, skipn_map.
  rewrite Hpack by (rewrite length_take; lia).
  rewrite IH by (rewrite length_drop; lia). reflexivity.
Qed.

Lemma pack_bitwise (F : Z -> Z -> Z) (op : bool -> bool -> bool) :
  (forall a b n, Z.testbit (F a b) n = op (Z.testbit a n) (Z.testbit b n)) ->
  F 0 0 = 0 ->
  forall x y : list Z, length x = 8%nat -> length y = 8%nat ->
    pack (zip_with F x y) = F (pack x) (pack y).
Proof.
  intros Hspec H0 x y Hx Hy.
  rewrite !pack_full by (rewrite ?length_zip_with; lia).
  rewrite (map_zip_with_hom Z.odd F op).
  - apply (bits_value_bitwise F op Hspec H0). rewrite !length_map. lia.
  - intros u v. rewrite <- !Z.bit0_odd. apply Hspec.
Qed.

Lemma pack_xnor (x y : list Z) :
  length x = 8%nat -> length y = 8%nat ->
  pack (zip_with (fun u v => 1 - Z.lxor u v) x y) = 255 - Z.lxor (pack x) (pack y).
Proof.
  intros Hx Hy.
  rewrite !pack_full by (rewrite ?length_zip_with; lia).
  rewrite (map_zip_with_hom Z.odd _ (fun u v => negb (xorb u v))).
  - rewrite zip_with_negb, bits_value_negb, length_zip_with, !length_map.
    rewrite bits_value_xor by (rewrite !length_map; lia).
    replace (length x `min` length y)%nat with 8%nat by lia. reflexivity.
  - intros u v. rewrite Z.odd_sub, odd_lxor. cbn [Z.odd].
    destruct (xorb (Z.odd u) (Z.odd v)); reflexivity.
Qed.

Lemma pack_not (x : list Z) :
  length x = 8%nat -> pack (map (fun d => 1 - d) x) = 255 - pack x.
Proof.
  intros Hx. rewrite !pack_full by (rewrite ?length_map; lia).
  rewrite map_map.
  rewrite (map_ext _ (fun d => negb (Z.odd d))).
  - rewrite <- (map_map Z.odd negb), bits_value_negb, length_map, Hx. reflexivity.
  - intros d. rewrite Z.odd_sub. cbn [Z.odd]. destruct (Z.odd d); reflexivity.
Qed.

Section GatesOnBytes.
Context {TT : TfheTypes} {BE : HEBackend} {GS : GoStdlib}.

Lemma Encrypt_bits_of (p : crypto.Packet) (a : list Z) (g : Rng) :
  decrypt_inverts_encrypt (crypto.prv p) ->
  exists (ca : list LweSample) (g1 : Rng),
    crypto.Encrypt p a g = Ok (ca, g1) /\
    length ca = (8 * length a)%nat /\
    map (BootsSymDecrypt (crypto.prv p)) ca = flat_map byte_bits a.
Proof.
  intros Hinv.
  exists (fst (encrypt_bits (crypto.prv p) (flat_map byte_bits a) g)),
         (snd (encrypt_bits (crypto.prv p) (flat_map byte_bits a) g)).
  split; [rewrite Encrypt_eq, <- surjective_pairing; reflexivity|].
  split; [rewrite encrypt_bits_length; apply flat_map_byte_bits_length|].
  apply decrypt_encrypt_bits; [exact Hinv|].
  intros m Hin. apply in_flat_map in Hin as (b & _ & Hin).
  apply (byte_bits_01 b m Hin).
Qed.

Lemma Decrypt_binary_gate (client server : crypto.Packet)
    (gate : gates.PublicKey -> LweSample -> LweSample -> LweSample)
    (F FB : Z -> Z -> Z) (a b : list Z) (ca cb : list LweSample) :
  binary_gate_computes (crypto.prv client) (gate (crypto.pub server)) F ->
  (forall x y : list Z, length x = 8%nat -> length y = 8%nat ->
     pack (zip_with F x y) = FB (pack x) (pack y)) ->
  length a = length b ->
  Forall is_byte a -> Forall is_byte b ->
  map (BootsSymDecrypt (crypto.prv client)) ca = flat_map byte_bits a ->
  map (BootsSymDecrypt (crypto.prv client)) cb = flat_map byte_bits b ->
  exists c : list LweSample,
    crypto.ParallelBinary server gate ca cb = Ok c /\
    crypto.Decrypt client c = Ok (zip_with FB a b).
Proof.
  intros Hgate Hpack Hlen Ha Hb Hca Hcb.
  assert (length ca = (8 * length a)%nat) as Lca
    by (rewrite <- (length_map (BootsSymDecrypt (crypto.prv client))), Hca;
        apply flat_map_byte_bits_length).
  assert (length cb = (8 * length a)%nat) as Lcb
    by (rewrite <- (length_map (BootsSymDecrypt (crypto.prv client))), Hcb, Hlen;
        apply flat_map_byte_bits_length).
  exists (zip_with (gate (crypto.pub server)) ca cb). split.
  - rewrite ParallelBinary_eq.
    destruct (decide (length ca = length cb)) as [_|Hne]; [reflexivity|].
    exfalso. apply Hne. lia.
  - rewrite Decrypt_eq, length_zip_with, Lca, Lcb, Nat.min_id, ceil8_mul.
    rewrite (map_zip_with_hom _ _ F Hgate), Hca, Hcb.
    rewrite (unpack_bytes_zip F FB Hpack)
      by (rewrite flat_map_byte_bits_length; lia).
    rewrite unpack_byte_bits by exact Ha.
    rewrite Hlen, unpack_byte_bits by exact Hb. reflexivity.
Qed.

(** X11: a gate on two encrypted byte strings is that operation on the
    bytes: with a backend whose AND, OR, XOR and XNOR gates decrypt to those
    functions of the bits, decrypting [And], [Or], [Xor] and [XNor] of the
    encryptions of [a] and [b] gives [a AND b], [a OR b], [a XOR b] and the
    complement of [a XOR b], byte by byte.  The gates run under any packet
    holding the matching public key, the private key is only used to
    encrypt and decrypt. *)
Theorem binary_gates_on_bytes (client server : crypto.Packet) (a b : list Z) (g : Rng) :
  decrypt_inverts_encrypt (crypto.prv client) ->
  length a = length b ->
  Forall is_byte a ->
  Forall is_byte b ->
  exists (ca cb : list LweSample) (g1 g2 : Rng),
    crypto.Encrypt client a g = Ok (ca, g1) /\
    crypto.Encrypt client b g1 = Ok (cb, g2) /\
    (binary_gate_computes (crypto.prv client) (gate_And (crypto.pub server)) Z.land ->
     exists c, crypto.And server ca cb = Ok c /\
               crypto.Decrypt client c = Ok (zip_with Z.land a b)) /\
    (binary_gate_computes (crypto.prv client) (gate_Or (crypto.pub server)) Z.lor ->
     exists c, crypto.Or server ca cb = Ok c /\
               crypto.Decrypt client c = Ok (zip_with Z.lor a b)) /\
    (binary_gate_computes (crypto.prv client) (gate_Xor (crypto.pub server)) Z.lxor ->
     exists c, crypto.Xor server ca cb = Ok c /\
               crypto.Decrypt client c = Ok (zip_with Z.lxor a b)) /\
    (binary_gate_computes (crypto.prv client) (gate_Xnor (crypto.pub server))
       (fun x y => 1 - Z.lxor x y) ->
     exists c, crypto.XNor server ca cb = Ok c /\
               crypto.Decrypt client c
               = Ok (zip_with (fun x y => 255 - Z.lxor x y) a b)).
Proof.
  intros Hinv Hlen Ha Hb.
  destruct (Encrypt_bits_of client a g Hinv) as (ca & g1 & Ea & _ & Hca).
  destruct (Encrypt_bits_of client b g1 Hinv) as (cb & g2 & Eb & _ & Hcb).
  exists ca, cb, g1, g2. split; [exact Ea|]. split; [exact Eb|].
  split; [|split; [|split]]; intros Hgate.
  - apply (Decrypt_binary_gate client server gate_And Z.land Z.land a b ca cb);
      try assumption.
    apply (pack_bitwise Z.land andb Z.land_spec eq_refl).
  - apply (Decrypt_binary_gate client server gate_Or Z.lor Z.lor a b ca cb);
      try assumption.
    apply (pack_bitwise Z.lor orb Z.lor_spec eq_refl).
  - apply (Decrypt_binary_gate client server gate_Xor Z.lxor Z.lxor a b ca cb);
      try assumption.
    apply (pack_bitwise Z.lxor xorb Z.lxor_spec eq_refl).
  - apply (Decrypt_binary_gate client server gate_Xnor
             (fun x y => 1 - Z.lxor x y) (fun x y => 255 - Z.lxor x y) a b ca cb);
      try assumption.
    apply pack_xnor.
Qed.

(** X12: likewise for the unary gates: decrypting [Not] of the encryption
    of [a] gives the complement [255 - x] of every byte, decrypting [Copy]
    gives [a] back. *)
Theorem unary_gates_on_bytes (client server : crypto.Packet) (a : list Z) (g : Rng) :
  decrypt_inverts_encrypt (crypto.prv client) ->
  Forall is_byte a ->
  exists (ca : list LweSample) (g1 : Rng),
    crypto.Encrypt client a g = Ok (ca, g1) /\
    (unary_gate_computes (crypto.prv client) (gate_Not (crypto.pub server))
       (fun d => 1 - d) ->
     exists c, crypto.Not server ca = Ok c /\
               crypto.Decrypt client c = Ok (map (fun x => 255 - x) a)) /\
    (unary_gate_computes (crypto.prv client) (gate_Copy (crypto.pub server))
       (fun d => d) ->
     exists c, crypto.Copy server ca = Ok c /\
               crypto.Decrypt client c = Ok a).
Proof.
  intros Hinv Ha.
  destruct (Encrypt_bits_of client a g Hinv) as (ca & g1 & Ea & Lca & Hca).
  exists ca, g1. split; [exact Ea|]. split; intros Hgate.
  - exists (map (gate_Not (crypto.pub server)) ca).
    split; [apply ParallelUnary_eq|].
    rewrite Decrypt_eq, length_map, Lca, ceil8_mul, map_map.
    rewrite (map_ext _ (fun s => 1 - BootsSymDecrypt (crypto.prv client) s))
      by (intros s; apply Hgate).
    rewrite <- (map_map (BootsSymDecrypt (crypto.prv client)) (fun d => 1 - d)), Hca.
    rewrite (unpack_bytes_map _ (fun x => 255 - x) pack_not)
      by apply flat_map_byte_bits_length.
    rewrite unpack_byte_bits by exact Ha. reflexivity.
  - exists (map (gate_Copy (crypto.pub server)) ca).
    split; [apply ParallelUnary_eq|].
    rewrite Decrypt_eq, length_map, Lca, ceil8_mul, map_map.
    rewrite (map_ext _ (BootsSymDecrypt (crypto.prv client)))
      by (intros s; apply Hgate).
    rewrite Hca, unpack_byte_bits by exact Ha. reflexivity.
Qed.

End GatesOnBytes.

(** ** Concatenation *)

Section Concatenation.
Context {TT : TfheTypes} {BE : HEBackend} {GS : GoStdlib}.

(** X13: with a packet that holds a private key, encrypting [a ++ b] is
    encrypting [a] and then [b] with the backend's generator handed on: the
    ciphertext of a concatenation is the concatenation of the ciphertexts. *)
Theorem Encrypt_app (p : crypto.Packet) (a b : list Z) (g : Rng) :
  holds_private_key p ->
  exists (ca cb : list LweSample) (g1 g2 : Rng),
    crypto.Encrypt p a g = Ok (ca, g1) /\
    crypto.Encrypt p b g1 = Ok (cb, g2) /\
    crypto.Encrypt p (a ++ b) g = Ok (ca ++ cb, g2).
Proof.
  intros _.
  exists (fst (encrypt_bits (crypto.prv p) (flat_map byte_bits a) g)),
         (fst (encrypt_bits (crypto.prv p) (flat_map byte_bits b)
                 (snd (encrypt_bits (crypto.prv p) (flat_map byte_bits a) g)))),
         (snd (encrypt_bits (crypto.prv p) (flat_map byte_bits a) g)),
         (snd (encrypt_bits (crypto.prv p) (flat_map byte_bits b)
                 (snd (encrypt_bits (crypto.prv p) (flat_map byte_bits a) g)))).
  rewrite !Encrypt_eq, flat_map_app, encrypt_bits_app, <- !surjective_pairing.
  repeat split.
Qed.

(** X14: with a packet that holds a private key, a ciphertext without nil
    units that is cut at a byte boundary decrypts piece by piece: when the
    first part holds a whole number of bytes, decrypting the concatenation
    gives the concatenation of the two decryptions. *)
Theorem Decrypt_app (p : crypto.Packet) (c1 c2 : list LweSample) (n : nat) :
  holds_private_key p ->
  no_nil_unit c1 ->
  no_nil_unit c2 ->
  length c1 = (8 * n)%nat ->
  exists b1 b2 : list Z,
    crypto.Decrypt p c1 = Ok b1 /\
    crypto.Decrypt p c2 = Ok b2 /\
    length b1 = n /\
    crypto.Decrypt p (c1 ++ c2) = Ok (b1 ++ b2).
Proof.
  intros _ _ _ Hlen. eexists _, _.
  split; [apply Decrypt_eq|]. split; [apply Decrypt_eq|].
  split; [rewrite Hlen, ceil8_mul; apply unpack_bytes_length|].
  rewrite Decrypt_eq, length_app, map_app, !Hlen, ceil8_mul.
  replace ((8 * n + length c2 + 7) / 8)%nat with (n + (length c2 + 7) / 8)%nat.
  - rewrite unpack_bytes_app by (rewrite length_map; exact Hlen). reflexivity.
  - replace (8 * n + length c2 + 7)%nat with ((length c2 + 7) + n * 8)%nat by lia.
    rewrite Nat.div_add by lia. lia.
Qed.

End Concatenation.

(** ** The mutation on ciphertexts of odd length *)

Section MutationOdd.
Context {TT : TfheTypes} {BE : HEBackend} {GS : GoStdlib}.


End MutationOdd.

(** ** xorBytes *)

(** X16: on slices of equal length [xorBytes] returns a slice of that length,
    does not care about the order of its arguments, keeps bytes bytes, and
    undoes itself: XORing the result with one argument gives the other back.
    On slices of different lengths it panics. *)
Theorem xorBytes_involution (a b : list Z) :
  (length a = length b ->
   exists c : list Z,
     main.xorBytes a b = Ok c /\
     length c = length a /\
     main.xorBytes b a = Ok c /\
     main.xorBytes c b = Ok a /\
     (Forall is_byte a -> Forall is_byte b -> Forall is_byte c)) /\
  (length a <> length b -> main.xorBytes a b = Panic main.bytes_panic).
Proof.
  split.
  - intros Hlen. exists (zip_with Z.lxor a b).
    assert (length (zip_with Z.lxor a b) = length a) as Hc
      by (rewrite length_zip_with; lia).
    split; [|split; [exact Hc|split; [|split]]].
    + rewrite xorBytes_eq. destruct (decide _); [reflexivity | contradiction].
    + rewrite xorBytes_eq. destruct (decide _) as [_|Hne]; [|exfalso; apply Hne; lia].
      f_equal. clear Hc. revert b Hlen.
      induction a as [|x a IH]; intros [|y b] Hlen; try discriminate; [reflexivity|].
      cbn [zip_with]. rewrite Z.lxor_comm, (IH b) by (simpl in Hlen; lia). reflexivity.
    + rewrite xorBytes_eq. destruct (decide _) as [_|Hne]; [|exfalso; apply Hne; lia].
      f_equal. clear Hc. revert b Hlen.
      induction a as [|x a IH]; intros [|y b] Hlen; try discriminate; [reflexivity|].
      cbn [zip_with]. rewrite (IH b) by (simpl in Hlen; lia).
      rewrite Z.lxor_assoc, Z.lxor_nilpotent, Z.lxor_0_r. reflexivity.
    + apply Forall_is_byte_lxor.
  - intros Hne. rewrite xorBytes_eq. destruct (decide _); [contradiction | reflexivity].
Qed.

(** ** The challenge *)

Section ChallengeShape.
Context {TT : TfheTypes} {BE : HEBackend} {GS : GoStdlib}.


End ChallengeShape.

(** ** The client's answer to a challenge *)

Section Challenge.
Context {TT : TfheTypes} {BE : HEBackend} {GS : GoStdlib}.


End Challenge.

(** ** Sign-up, then login *)

Section Sessions.
Context {TT : TfheTypes} {BE : HEBackend} {GS : GoStdlib}.

(** X19: after a sign-up that answered OK, phase 2 of a login for that
    username answers OK for the secret that was signed up, and "invalid
    credentials" for every secret whose salted hash differs from the
    stored one; neither changes the registry. *)
Theorem SignUp_then_SecondLogin (rand_Read : nat -> string + list Z)
    (s s' : main.Server) (req : main.SignUpRequest) (resp : main.Response) :
  main.SignUpHandler rand_Read s (inr req) = (resp, s') ->
  main.StatusCode resp = main.StatusOK ->
  exists (salt : list Z) (hash64 : Hash64),
    rand_Read (main.saltByteLen s) = inr salt /\
    Hash64_Write fnv_New64 (salt ++ main.SignUp_Secret req) = inr hash64 /\
    main.SecondLoginHandler s'
      (inr {| main.SecondLogIn_Username := main.SignUp_Username req;
              main.SecondLogIn_Secret := main.SignUp_Secret req |})
    = ({| main.StatusCode := main.StatusOK; main.Body := main.NoBody |}, s') /\
    forall (secret : list Z) (other : Hash64),
      Hash64_Write fnv_New64 (salt ++ secret) = inr other ->
      Hash64_Sum other <> Hash64_Sum hash64 ->
      main.SecondLoginHandler s'
        (inr {| main.SecondLogIn_Username := main.SignUp_Username req;
                main.SecondLogIn_Secret := secret |})
      = (main.http_Error main.errInvalidCredentials main.StatusForbidden, s').
Proof.
  unfold main.SignUpHandler. intros Hrun Hstatus.
  destruct (main.userDatabase s !! main.SignUp_Username req);
    [injection Hrun as <- <-; discriminate Hstatus|].
  destruct (rand_Read (main.saltByteLen s)) as [err|salt];
    [injection Hrun as <- <-; discriminate Hstatus|].
  destruct (Hash64_Write fnv_New64 (salt ++ main.SignUp_Secret req)) as [err|h] eqn:Hh;
    [injection Hrun as <- <-; discriminate Hstatus|].
  injection Hrun as <- <-. exists salt, h.
  split; [reflexivity|]. split; [exact Hh|].
  unfold main.SecondLoginHandler.
  cbn [main.userDatabase main.SecondLogIn_Username main.SecondLogIn_Secret].
  rewrite lookup_insert_eq. cbn [main.Salt main.SecretHash]. split.
  - rewrite Hh. destruct (decide _); [reflexivity | contradiction].
  - intros secret other Ho Hne. rewrite Ho.
    destruct (decide _); [contradiction | reflexivity].
Qed.

(** X20: no login request changes the registry, and the login handlers answer
    with these statuses only: phase 1 with 200 and a challenge or with 400,
    phase 2 with 200, 400, 403 or 500. *)
Theorem login_handlers_keep_registry (s : main.Server) :
  (forall (u : Z) (req : string + main.FirstLogInRequest) (resp : main.Response)
          (s' : main.Server),
     main.FirstLoginHandler u s req = Ok (resp, s') ->
     s' = s /\
     ((main.StatusCode resp = main.StatusOK /\
       exists r, main.Body resp = main.FirstLogInBody r) \/
      (main.StatusCode resp = main.StatusBadRequest /\
       exists msg, main.Body resp = main.ErrorText msg))) /\
  (forall req : string + main.SecondLogInRequest,
     snd (main.SecondLoginHandler s req) = s /\
     In (main.StatusCode (fst (main.SecondLoginHandler s req)))
        [main.StatusOK; main.StatusBadRequest; main.StatusForbidden;
         main.StatusInternalServerError]).
Proof.
  split.
  - intros u req resp s' Hrun. unfold main.FirstLoginHandler in Hrun.
    destruct req as [err|r].
    { injection Hrun as <- <-. split; [reflexivity|]. right. cbn. eauto. }
    destruct (main.userDatabase s !! main.FirstLogIn_Username r) as [user|].
    2:{ injection Hrun as <- <-. split; [reflexivity|]. right. cbn. eauto. }
    destruct (main.PublicKey r) as [publicKey|]; [|discriminate].
    destruct (main.makeEncryptedMutation u _ _) as [rp| |]; try discriminate.
    cbn [obind] in Hrun.
    destruct (crypto.Xor _ rp _) as [x| |]; try discriminate.
    cbn [obind] in Hrun. injection Hrun as <- <-.
    split; [reflexivity|]. left. cbn. eauto.
  - intros req. unfold main.SecondLoginHandler.
    destruct req as [err|r]; [cbn; auto|].
    destruct (main.userDatabase s !! main.SecondLogIn_Username r) as [user|]; [|cbn; auto].
    destruct (Hash64_Write fnv_New64 _) as [err|h]; [cbn; auto 6|].
    destruct (decide _); cbn; auto.
Qed.

End Sessions.

(** ** The run of the example program *)

Section Example.
Context {TT : TfheTypes} {BE : HEBackend} {GS : GoStdlib}.

Lemma LogIn_secondRequest_unmask (c : main.Client) (logInPacket : crypto.Packet)
    (username : string) (x : list LweSample) (mask noise secret : list Z) :
  length mask = main.messageByteLen c ->
  length noise = main.messageByteLen c ->
  length secret = main.messageByteLen c ->
  crypto.Decrypt logInPacket x
  = Ok (zip_with Z.lxor (mask ++ mask) (noise ++ zip_with Z.lxor noise secret)) ->
  main.LogIn_secondRequest c logInPacket username {| main.EncryptedMutatedSecret := x |}
  = Ok {| main.SecondLogIn_Username := username; main.SecondLogIn_Secret := secret |}.
Proof.
  intros Hmask Hnoise Hsecret HD.
  unfold main.LogIn_secondRequest. cbn [main.EncryptedMutatedSecret].
  rewrite HD. cbn [obind].
  rewrite zip_with_app by lia.
  unfold slice_to, slice_from.
  rewrite length_app, !length_zip_with.
  destruct (decide _) as [_|Hne]; [|exfalso; apply Hne; lia]. cbn [obind].
  rewrite take_app_length', drop_app_length' by (rewrite length_zip_with; lia).
  rewrite xorBytes_eq.
  destruct (decide _) as [_|Hne]; [|exfalso; apply Hne; rewrite !length_zip_with; lia].
  cbn [obind]. rewrite lxor_unmask by lia. reflexivity.
Qed.

(** X21: the run of [example/main.go], from a fresh server and a fresh
    client: the sign-up is accepted, phase 1 of the login answers with a
    challenge, the client recovers from it the secret it signed up with, and
    phase 2 answers OK.  [signUpPacket] and [logInPacket] are the packets
    made from the password in [SignUp] and in [LogIn]; [u1] and [u2] are the
    values [rand.Uint64()] gives the client for the secret and the server
    for the coins. *)
Theorem example_run (messageByteLen saltByteLen : nat) (port : Z)
    (username : string) (signUpPacket logInPacket : crypto.Packet)
    (u1 u2 : Z) (cbs1 cbs2 : crypto.ByteStream) (g : Rng)
    (rand_Read : nat -> string + list Z) (salt : list Z) (hash64 : Hash64) :
  crypto.prv signUpPacket = crypto.prv logInPacket ->
  decrypt_inverts_encrypt (crypto.prv logInPacket) ->
  xor_gate_computes
    (crypto.fromPublicKey (crypto.MakePublicKey (crypto.pub logInPacket)))
    (crypto.prv logInPacket) ->
  crypto.MakeRandByteStream u1 = Ok cbs1 ->
  crypto.MakeRandByteStream u2 = Ok cbs2 ->
  rand_Read saltByteLen = inr salt ->
  Hash64_Write fnv_New64 (salt ++ fst (crypto.NextBytes cbs1 messageByteLen))
  = inr hash64 ->
  let client := main.NewClient messageByteLen port in
  let server := main.NewServer saltByteLen port in
  exists (signUpRequest : main.SignUpRequest) (g' : Rng) (server' : main.Server)
         (challenge : main.FirstLogInResponse) (secondRequest : main.SecondLogInRequest),
    main.SignUp_request client signUpPacket username u1 g = Ok (signUpRequest, g') /\
    main.SignUpHandler rand_Read server (inr signUpRequest)
    = ({| main.StatusCode := main.StatusOK; main.Body := main.NoBody |}, server') /\
    main.FirstLoginHandler u2 server' (inr (main.LogIn_firstRequest logInPacket username))
    = Ok ({| main.StatusCode := main.StatusOK;
             main.Body := main.FirstLogInBody challenge |}, server') /\
    main.LogIn_secondRequest client logInPacket username challenge = Ok secondRequest /\
    main.SecondLogIn_Secret secondRequest = main.SignUp_Secret signUpRequest /\
    main.SecondLoginHandler server' (inr secondRequest)
    = ({| main.StatusCode := main.StatusOK; main.Body := main.NoBody |}, server').
Proof.
  intros Hprv Hinv Hxor Hcbs1 Hcbs2 Hrand Hhash client server.
  set (n := messageByteLen) in *.
  set (secret := fst (crypto.NextBytes cbs1 n)) in *.
  set (payload := replicate n 0 ++ secret).
  set (r := encrypt_bits (crypto.prv signUpPacket) (flat_map byte_bits payload) g).
  destruct (SignUp_request_eq client signUpPacket username u1 g cbs1 Hcbs1)
    as (Hlen & Hbytes & _ & Hreq).
  cbn [main.messageByteLen client main.NewClient] in Hlen, Hbytes, Hreq.
  fold n secret in Hlen, Hbytes, Hreq. fold payload r in Hreq.
  set (user := {| main.User_Username := username;
                  main.User_EncryptedSecret := fst r;
                  main.SecretHash := Hash64_Sum hash64;
                  main.Salt := salt |}).
  set (server' := {| main.saltByteLen := saltByteLen; main.port := port;
                     main.userDatabase := <[username := user]> ∅ |}).
  assert (length payload = (2 * n)%nat) as Hpay
    by (unfold payload; rewrite length_app, length_replicate; lia).
  assert (Forall is_byte payload) as Hbp.
  { apply Forall_app. split; [|exact Hbytes].
    apply Forall_forall. intros z Hz. apply elem_of_replicate in Hz as [-> _].
    unfold is_byte. lia. }
  assert (map (BootsSymDecrypt (crypto.prv logInPacket)) (fst r)
          = flat_map byte_bits payload) as Hdec.
  { unfold r. rewrite Hprv. apply decrypt_encrypt_bits; [exact Hinv|].
    intros m Hin. apply in_flat_map in Hin as (b & _ & Hin).
    apply (byte_bits_01 b m Hin). }
  assert (length (fst r) = (2 * (8 * n))%nat) as Hr.
  { unfold r. rewrite encrypt_bits_length, flat_map_byte_bits_length. lia. }
  set (serverPacket :=
         crypto.MakePublicPacket (crypto.MakePublicKey (crypto.pub logInPacket))).
  destruct (mutation_halves u2 serverPacket (fst r) (8 * n) cbs2 Hr Hcbs2)
    as (hs & Hmut & Hhs).
  destruct (Decrypt_Xor_mask logInPacket serverPacket hs (fst r) payload n
              Hxor Hpay Hhs Hbp Hdec) as (mask & x & Hmask & Hx & HD).
  exists {| main.SignUp_Username := username;
            main.EncryptedSecret := fst r;
            main.SignUp_Secret := secret |}, (snd r), server',
         {| main.EncryptedMutatedSecret := x |},
         {| main.SecondLogIn_Username := username; main.SecondLogIn_Secret := secret |}.
  split; [exact Hreq|]. split; [|split; [|split; [|split]]].
  - unfold main.SignUpHandler, server, main.NewServer.
    cbn [main.userDatabase main.SignUp_Username main.saltByteLen main.SignUp_Secret
         main.EncryptedSecret main.port].
    rewrite lookup_empty, Hrand, Hhash. reflexivity.
  - unfold main.FirstLoginHandler, main.LogIn_firstRequest.
    cbn [main.FirstLogIn_Username main.PublicKey main.userDatabase server'].
    rewrite lookup_insert_eq. cbn [main.User_EncryptedSecret user].
    fold serverPacket. rewrite Hmut. cbn [obind]. rewrite Hx. reflexivity.
  - apply (LogIn_secondRequest_unmask client logInPacket username x mask
             (replicate n 0) secret).
    + exact Hmask.
    + apply length_replicate.
    + exact Hlen.
    + rewrite HD. unfold payload.
      pose proof (lxor_zeros secret) as Hz. rewrite Hlen in Hz. rewrite Hz.
      reflexivity.
  - reflexivity.
  - unfold main.SecondLoginHandler.
    cbn [main.userDatabase main.SecondLogIn_Username main.SecondLogIn_Secret server'].
    rewrite lookup_insert_eq. cbn [main.Salt main.SecretHash user].
    rewrite Hhash. destruct (decide _); [reflexivity | contradiction].
Qed.

End Example.

(** ** The public key, from the wire and back *)

Section WireSide.
Context {TT : TfheTypes} {BE : HEBackend}.

Lemma wire_poly_roundtrip (x : crypto.lagrangeHalfCPolynomial) :
  crypto.wire_of_poly (crypto.poly_of_wire x) = x.
Proof. destruct x. reflexivity. Qed.

Lemma wire_tlwe_roundtrip (w : crypto.tLweSampleFFT) :
  crypto.wire_of_tlwe (crypto.tlwe_of_wire w) = w.
Proof.
  destruct w as [a v k]. unfold crypto.tlwe_of_wire, crypto.wire_of_tlwe.
  cbn [crypto.A crypto.CurrentVariance crypto.K core.A core.CurrentVariance core.K].
  rewrite (map_roundtrip _ _ wire_poly_roundtrip). reflexivity.
Qed.

Lemma wire_tgsw_roundtrip (v : crypto.tGswSampleFFT) :
  crypto.wire_of_tgsw (crypto.tgsw_of_wire v) = v.
Proof.
  destruct v as [al bl k l]. unfold crypto.tgsw_of_wire, crypto.wire_of_tgsw.
  cbn [crypto.AllSample crypto.BlocSample crypto.TGsw_K crypto.TGsw_L
       core.AllSample core.BlocSample core.TGsw_K core.TGsw_L].
  rewrite (map_roundtrip _ _ wire_tlwe_roundtrip).
  rewrite (map_roundtrip _ _ (map_roundtrip _ _ wire_tlwe_roundtrip)). reflexivity.
Qed.

(** X22: a wire key read by [fromPublicKey] and written again by
    [MakePublicKey] keeps its parameters, its plain bootstrapping key and its
    FFT samples; its FFT header comes back as that of the plain key, so the
    wire key comes back whole exactly when its header agreed with the plain
    key. *)
Theorem wire_PublicKey_roundtrip (w : crypto.PublicKey) :
  let w' := crypto.MakePublicKey (crypto.fromPublicKey w) in
  crypto.Params w' = crypto.Params w /\
  crypto.Bk (crypto.Bkw w') = crypto.Bk (crypto.Bkw w) /\
  crypto.FFT_Bk (crypto.BkFFT (crypto.Bkw w'))
  = crypto.FFT_Bk (crypto.BkFFT (crypto.Bkw w)) /\
  wire_header_agrees w' /\
  (w' = w <-> wire_header_agrees w).
Proof.
  destruct w as [params [bk [p1 p2 p3 p4 samples ks]]].
  cbn zeta. unfold crypto.fromPublicKey, crypto.MakePublicKey, wire_header_agrees.
  cbn [gates.Params gates.Bkw core.Bk core.BkFFT core.FFT_Bk
       crypto.FFT_InOutParams crypto.FFT_BkParams crypto.FFT_AccumParams
       crypto.FFT_ExtractParams crypto.FFT_Ks
       crypto.Params crypto.Bkw crypto.Bk crypto.BkFFT crypto.FFT_Bk].
  rewrite (map_roundtrip _ _ wire_tgsw_roundtrip).
  split; [reflexivity|]. split; [reflexivity|]. split; [reflexivity|].
  split; [repeat split|]. split.
  - intros E. injection E as E1 E2 E3 E4 E5. auto.
  - intros (-> & -> & -> & -> & ->). reflexivity.
Qed.

(** X23: one trip over the wire settles a key: whatever its FFT header said,
    a key that has been written and read once is written and read again
    without change; the same holds from the wire's side; and the key the
    server evaluates its gates under is the client's own exactly when the
    client's FFT header agreed with its plain key. *)
Theorem PublicKey_wire_settles (pk : gates.PublicKey) (w : crypto.PublicKey) :
  let once := crypto.fromPublicKey (crypto.MakePublicKey pk) in
  crypto.fromPublicKey (crypto.MakePublicKey once) = once /\
  crypto.MakePublicKey (crypto.fromPublicKey (crypto.MakePublicKey pk))
  = crypto.MakePublicKey pk /\
  crypto.fromPublicKey (crypto.MakePublicKey (crypto.fromPublicKey w))
  = crypto.fromPublicKey w /\
  crypto.prv (crypto.MakePublicPacket (crypto.MakePublicKey pk)) = nil_private_key /\
  (crypto.pub (crypto.MakePublicPacket (crypto.MakePublicKey pk)) = pk
   <-> fft_header_agrees pk).
Proof.
  assert (forall k, crypto.fromPublicKey (crypto.MakePublicKey k) = k
                    <-> fft_header_agrees k) as Hk.
  { intros [params [bk [p1 p2 p3 p4 samples ks]]].
    unfold crypto.fromPublicKey, crypto.MakePublicKey, fft_header_agrees.
    cbn [gates.Params gates.Bkw core.Bk core.BkFFT core.FFT_Bk
         core.FFT_InOutParams core.FFT_BkParams core.FFT_AccumParams
         core.FFT_ExtractParams core.FFT_Ks
         crypto.Params crypto.Bkw crypto.Bk crypto.BkFFT crypto.FFT_Bk].
    rewrite (map_roundtrip _ _ tgsw_roundtrip). split.
    - intros E. injection E as E1 E2 E3 E4 E5. auto.
    - intros (-> & -> & -> & -> & ->). reflexivity. }
  cbn zeta. split; [|split; [|split; [|split]]].
  - apply Hk. unfold fft_header_agrees, crypto.fromPublicKey. cbn. repeat split.
  - unfold crypto.fromPublicKey, crypto.MakePublicKey.
    cbn [gates.Params gates.Bkw core.Bk core.BkFFT core.FFT_Bk
         crypto.Params crypto.Bkw crypto.Bk crypto.BkFFT crypto.FFT_Bk].
    rewrite (map_roundtrip _ _ tgsw_roundtrip). reflexivity.
  - unfold crypto.fromPublicKey, crypto.MakePublicKey.
    cbn [gates.Params gates.Bkw core.Bk core.BkFFT core.FFT_Bk
         crypto.Params crypto.Bkw crypto.Bk crypto.BkFFT crypto.FFT_Bk].
    rewrite (map_roundtrip _ _ wire_tgsw_roundtrip). reflexivity.
  - reflexivity.
  - apply Hk.
Qed.

End WireSide.

(** ** Polynomials as JSON *)

Section JsonProps.
Context {TT : TfheTypes} {JC : crypto.JsonCodec}.

(** X24: with an [encoding/json] that reads back what it wrote and with
    [complex(real(c), imag(c)) = c], a polynomial written by [MarshalJSON]
    and read by [UnmarshalJSON] comes back with its coefficients, whatever
    the receiver held before; and on data the decoder rejects,
    [UnmarshalJSON] returns the decoder's error and leaves the receiver as
    it was. *)
Theorem lagrangeHalfCPolynomial_json (lhcp receiver : crypto.lagrangeHalfCPolynomial)
    (data : list Z) :
  (forall l bytes, crypto.json_Marshal l = inr bytes ->
                   crypto.json_Unmarshal bytes = inr l) ->
  (forall c, crypto.go_complex (crypto.go_real c) (crypto.go_imag c) = c) ->
  (crypto.MarshalJSON lhcp = inr data ->
   crypto.UnmarshalJSON receiver data = (lhcp, None)) /\
  (forall (bad : list Z) (err : string),
     crypto.json_Unmarshal bad = inl err ->
     crypto.UnmarshalJSON receiver bad = (receiver, Some err)).
Proof.
  intros Hcodec Hcomplex. split.
  - unfold crypto.MarshalJSON, crypto.UnmarshalJSON. intros Hm.
    rewrite (Hcodec _ _ Hm). cbn [crypto._Coefs].
    rewrite map_map. cbn [crypto.Re crypto.Im].
    destruct lhcp as [coefs]. cbn [crypto.Coefs]. f_equal. f_equal. clear Hm.
    induction coefs as [|c coefs IH]; [reflexivity|].
    cbn [map]. rewrite Hcomplex, IH. reflexivity.
  - intros bad err Hbad. unfold crypto.UnmarshalJSON. rewrite Hbad. reflexivity.
Qed.

End JsonProps.

(** ** What a sign-up request carries *)

Section SignUpContent.
Context {TT : TfheTypes} {BE : HEBackend} {GS : GoStdlib}.

(** X25: the request [SignUp] builds names the user, carries as secret the
    first [n] bytes of a fresh key stream, and carries [16n] ciphertext
    units which, under a backend whose decryption inverts its encryption,
    decrypt to [n] zero bytes followed by that same secret: the noise that
    masks the secret is all zero.  When the key stream cannot be made,
    [SignUp] panics before anything is encrypted. *)
Theorem SignUp_request_content (c : main.Client) (packet : crypto.Packet)
    (username : string) (u : Z) (g : Rng) :
  let n := main.messageByteLen c in
  (forall cbs : crypto.ByteStream,
     crypto.MakeRandByteStream u = Ok cbs ->
     exists (req : main.SignUpRequest) (g' : Rng),
       main.SignUp_request c packet username u g = Ok (req, g') /\
       main.SignUp_Username req = username /\
       main.SignUp_Secret req = fst (crypto.NextBytes cbs n) /\
       length (main.SignUp_Secret req) = n /\
       length (main.EncryptedSecret req) = (16 * n)%nat /\
       (decrypt_inverts_encrypt (crypto.prv packet) ->
        crypto.Decrypt packet (main.EncryptedSecret req)
        = Ok (replicate n 0 ++ main.SignUp_Secret req))) /\
  (forall msg : string,
     crypto.MakeRandByteStream u = Panic msg ->
     main.SignUp_request c packet username u g = Panic msg).
Proof.
  intros n. split.
  - intros cbs Hcbs.
    destruct (SignUp_request_eq c packet username u g cbs Hcbs)
      as (Hlen & Hbytes & _ & Hreq).
    fold n in Hlen, Hbytes, Hreq.
    set (secret := fst (crypto.NextBytes cbs n)) in *.
    set (payload := replicate n 0 ++ secret) in *.
    assert (length payload = (2 * n)%nat) as Hpay
      by (unfold payload; rewrite length_app, length_replicate; lia).
    eexists _, _. split; [exact Hreq|].
    cbn [main.SignUp_Username main.SignUp_Secret main.EncryptedSecret].
    split; [reflexivity|]. split; [reflexivity|]. split; [exact Hlen|].
    split.
    + rewrite encrypt_bits_length, flat_map_byte_bits_length. lia.
    + intros Hinv. rewrite Decrypt_eq.
      rewrite encrypt_bits_length, flat_map_byte_bits_length, ceil8_mul.
      rewrite decrypt_encrypt_bits.
      * rewrite unpack_byte_bits; [reflexivity|].
        apply Forall_app. split; [|exact Hbytes].
        apply Forall_forall. intros z Hz. apply elem_of_replicate in Hz as [-> _].
        unfold is_byte. lia.
      * exact Hinv.
      * intros m Hin. apply in_flat_map in Hin as (b & _ & Hin).
        apply (byte_bits_01 b m Hin).
  - intros msg Hmsg. unfold main.SignUp_request. rewrite Hmsg. reflexivity.
Qed.

End SignUpContent.

(** ** The further properties on the small backend *)

Lemma lweKeyGen_bits_witness :
  crypto.lweKeyGen (GS := toy.stdlib) (KG := toy.keygen) toy.byteStream toy.lwe_key
  = Ok ({| core.LweKey_Params := core.LweKey_Params toy.lwe_key;
           core.LweKey_Key := [1; 0; 1] |},
        crypto.Build_ByteStream (GS := toy.stdlib) 138).
Proof.
  destruct (lweKeyGen_bits (GS := toy.stdlib) (KG := toy.keygen)
              toy.byteStream toy.lwe_key) as [H _].
  destruct H as [E _]; [cbn; lia | exact E].
Defined.

Lemma tlweKeyGen_bits_witness :
  crypto.tlweKeyGen (GS := toy.stdlib) (KG := toy.keygen) toy.byteStream toy.full_tlwe_key
  = Ok ({| core.TLweKey_Params := core.TLweKey_Params toy.full_tlwe_key;
           core.TLweKey_Key := [[1; 0; 1]; [0; 1; 0]] |},
        crypto.Build_ByteStream (GS := toy.stdlib) 191).
Proof.
  destruct (tlweKeyGen_bits (GS := toy.stdlib) (KG := toy.keygen)
              toy.byteStream toy.full_tlwe_key) as [E _].
  - reflexivity.
  - repeat constructor.
  - exact E.
Defined.

Lemma tlweKeyGen_short_key_witness :
  crypto.tlweKeyGen (GS := toy.stdlib) (KG := toy.keygen) toy.byteStream toy.short_tlwe_key
  = Panic index_panic.
Proof.
  apply (tlweKeyGen_short_key (GS := toy.stdlib) (KG := toy.keygen)
           toy.byteStream toy.short_tlwe_key).
  - cbn. lia.
  - cbn. lia.
  - repeat constructor.
Defined.

Lemma MakePacket_key_material_witness :
  exists (lweKey : @core.LweKey toy.types) (tgswKey : @core.TGswKey toy.types)
         (p : @crypto.Packet toy.types toy.backend),
    core.LweKey_Key lweKey ++ concat (core.TLweKey_Key (core.TlweKey tgswKey))
    = [1; 0; 1; 0; 1; 0; 1; 0; 1] /\
    crypto.MakePacket (GS := toy.stdlib) (KG := toy.keygen) toy.byteStream 0%nat
    = Ok (p, crypto.Build_ByteStream (GS := toy.stdlib) 160, 1%nat).
Proof.
  destruct (MakePacket_key_material (GS := toy.stdlib) (KG := toy.keygen) toy.byteStream)
    as (lweKey & tgswKey & Hbits & _ & Hpacket).
  - cbn. lia.
  - reflexivity.
  - repeat constructor.
  - exists lweKey, tgswKey. eexists. split; [exact Hbits | exact (Hpacket 0%nat)].
Defined.

Lemma gate_evaluation_any_schedule_witness :
  crypto.ParallelBinary_scheduled [2; 0; 1]%nat toy.packet gate_Xor
    [(true, 1%nat); (false, 2%nat); (true, 3%nat)]
    [(true, 4%nat); (true, 5%nat); (false, 6%nat)]
  = Ok [(false, 0%nat); (true, 0%nat); (true, 0%nat)] /\
  crypto.ParallelUnary_scheduled [2; 0; 1]%nat toy.packet gate_Not
    [(true, 1%nat); (false, 2%nat); (true, 3%nat)]
  = Ok [(false, 1%nat); (true, 2%nat); (false, 3%nat)].
Proof.
  destruct (gate_evaluation_any_schedule (BE := toy.backend) [2; 0; 1]%nat toy.packet
              [(true, 1%nat); (false, 2%nat); (true, 3%nat)]
              [(true, 4%nat); (true, 5%nat); (false, 6%nat)]) as [Hb Hu].
  - cbn [length seq]. etransitivity; [apply perm_swap|]. apply perm_skip, perm_swap.
  - split; [rewrite Hb | rewrite Hu]; reflexivity.
Defined.

Lemma binary_gates_pointwise_witness :
  exists r : list (bool * nat),
    crypto.And toy.packet [(true, 1%nat); (true, 2%nat)] [(true, 3%nat); (false, 4%nat)]
    = Ok r /\
    r !! 1%nat = Some (false, 0%nat).
Proof.
  assert (no_nil_unit (BE := toy.backend) [(true, 1%nat); (true, 2%nat)]) as Ha
    by (repeat constructor; discriminate).
  assert (no_nil_unit (BE := toy.backend) [(true, 3%nat); (false, 4%nat)]) as Hb
    by (repeat constructor; discriminate).
  pose proof (binary_gates_pointwise (BE := toy.backend) toy.packet
                [(true, 1%nat); (true, 2%nat)] [(true, 3%nat); (false, 4%nat)]
                eq_refl Ha Hb) as H.
  apply Forall_inv in H. destruct H as (r & Hr & Hi).
  exists r. split; [exact Hr|].
  apply (Hi 1%nat (true, 2%nat) (false, 4%nat)); reflexivity.
Defined.

Lemma binary_gates_on_bytes_witness :
  exists (ca cb : list (bool * nat)) (g1 g2 : nat),
    crypto.Encrypt toy.packet [0x0f; 0xa5] 0%nat = Ok (ca, g1) /\
    crypto.Encrypt toy.packet [0x3c; 0x5a] g1 = Ok (cb, g2) /\
    (exists c, crypto.And toy.packet ca cb = Ok c /\
               crypto.Decrypt toy.packet c = Ok [0x0c; 0x00]) /\
    (exists c, crypto.Or toy.packet ca cb = Ok c /\
               crypto.Decrypt toy.packet c = Ok [0x3f; 0xff]) /\
    (exists c, crypto.Xor toy.packet ca cb = Ok c /\
               crypto.Decrypt toy.packet c = Ok [0x33; 0xff]) /\
    (exists c, crypto.XNor toy.packet ca cb = Ok c /\
               crypto.Decrypt toy.packet c = Ok [0xcc; 0x00]).
Proof.
  destruct (binary_gates_on_bytes (BE := toy.backend) toy.packet toy.packet
              [0x0f; 0xa5] [0x3c; 0x5a] 0%nat)
    as (ca & cb & g1 & g2 & Ha & Hb & HAnd & HOr & HXor & HXnor).
  - intros m g [-> | ->]; reflexivity.
  - reflexivity.
  - repeat constructor; unfold is_byte; lia.
  - repeat constructor; unfold is_byte; lia.
  - exists ca, cb, g1, g2. split; [exact Ha|]. split; [exact Hb|].
    split; [|split; [|split]].
    + apply HAnd. intros [[] ?] [[] ?]; reflexivity.
    + apply HOr. intros [[] ?] [[] ?]; reflexivity.
    + apply HXor. intros [[] ?] [[] ?]; reflexivity.
    + apply HXnor. intros [[] ?] [[] ?]; reflexivity.
Defined.

Lemma unary_gates_on_bytes_witness :
  exists (ca : list (bool * nat)) (g1 : nat),
    crypto.Encrypt toy.packet [0x0f; 0xa5] 0%nat = Ok (ca, g1) /\
    (exists c, crypto.Not toy.packet ca = Ok c /\
               crypto.Decrypt toy.packet c = Ok [0xf0; 0x5a]) /\
    (exists c, crypto.Copy toy.packet ca = Ok c /\
               crypto.Decrypt toy.packet c = Ok [0x0f; 0xa5]).
Proof.
  destruct (unary_gates_on_bytes (BE := toy.backend) toy.packet toy.packet
              [0x0f; 0xa5] 0%nat) as (ca & g1 & Ha & HNot & HCopy).
  - intros m g [-> | ->]; reflexivity.
  - repeat constructor; unfold is_byte; lia.
  - exists ca, g1. split; [exact Ha|]. split.
    + apply HNot. intros [[] ?]; reflexivity.
    + apply HCopy. intros [[] ?]; reflexivity.
Defined.

Lemma Encrypt_app_witness :
  exists (ca cb : list (bool * nat)) (g1 g2 : nat),
    crypto.Encrypt toy.packet [0x0f] 0%nat = Ok (ca, g1) /\
    crypto.Encrypt toy.packet [0xa5; 0x01] g1 = Ok (cb, g2) /\
    crypto.Encrypt toy.packet [0x0f; 0xa5; 0x01] 0%nat = Ok (ca ++ cb, g2).
Proof.
  apply (Encrypt_app (BE := toy.backend) toy.packet [0x0f] [0xa5; 0x01] 0%nat).
  discriminate.
Defined.

Lemma Decrypt_app_witness :
  exists b1 b2 : list Z,
    crypto.Decrypt toy.packet (replicate 8 (true, 0%nat)) = Ok b1 /\
    crypto.Decrypt toy.packet [(true, 1%nat); (false, 2%nat); (true, 3%nat)] = Ok b2 /\
    length b1 = 1%nat /\
    crypto.Decrypt toy.packet
      (replicate 8 (true, 0%nat) ++ [(true, 1%nat); (false, 2%nat); (true, 3%nat)])
    = Ok (b1 ++ b2).
Proof.
  apply (Decrypt_app (BE := toy.backend) toy.packet (replicate 8 (true, 0%nat))
           [(true, 1%nat); (false, 2%nat); (true, 3%nat)] 1);
    [discriminate | repeat constructor; discriminate .. | reflexivity].
Defined.


Lemma xorBytes_involution_witness :
  (exists c : list Z,
     main.xorBytes [1; 2] [3; 4] = Ok c /\ main.xorBytes c [3; 4] = Ok [1; 2]) /\
  main.xorBytes [1] [] = Panic main.bytes_panic.
Proof.
  split.
  - destruct (xorBytes_involution [1; 2] [3; 4]) as [H _].
    destruct (H eq_refl) as (c & Hc & _ & _ & Hback & _).
    exists c. split; [exact Hc | exact Hback].
  - destruct (xorBytes_involution [1] []) as [_ H]. apply H. discriminate.
Defined.



Lemma SignUp_then_SecondLogin_witness :
  exists s' : main.Server,
    main.SignUpHandler (GS := toy.stdlib) toy.rand_Read toy.server0 (inr toy.signup1)
    = ({| main.StatusCode := 200; main.Body := main.NoBody |}, s') /\
    main.SecondLoginHandler (GS := toy.stdlib) s'
      (inr {| main.SecondLogIn_Username := "alice"%string;
              main.SecondLogIn_Secret := [0x12] |})
    = ({| main.StatusCode := 200; main.Body := main.NoBody |}, s') /\
    main.SecondLoginHandler (GS := toy.stdlib) s'
      (inr {| main.SecondLogIn_Username := "alice"%string;
              main.SecondLogIn_Secret := [0x13] |})
    = ({| main.StatusCode := 403;
          main.Body := main.ErrorText "invalid credentials" |}, s').
Proof.
  destruct (SignUp_then_SecondLogin (BE := toy.backend) (GS := toy.stdlib)
              toy.rand_Read toy.server0 _ toy.signup1 _ eq_refl eq_refl)
    as (salt & h & Hs & Hh & Hok & Hbad).
  injection Hs as <-. injection Hh as <-.
  eexists. split; [reflexivity|]. split; [exact Hok|].
  apply (Hbad [0x13] [9; 9; 0x13]); [reflexivity | discriminate].
Defined.

Lemma login_handlers_keep_registry_witness :
  (forall (resp : main.Response) (s' : main.Server),
     main.FirstLoginHandler (GS := toy.stdlib) 7 toy.server1 (inr toy.login1)
     = Ok (resp, s') ->
     s' = toy.server1) /\
  snd (main.SecondLoginHandler (GS := toy.stdlib) toy.server1
         (inr {| main.SecondLogIn_Username := "alice"%string;
                 main.SecondLogIn_Secret := [1] |}))
  = toy.server1 /\
  snd (main.SecondLoginHandler (GS := toy.stdlib) toy.server0 (inr toy.login2))
  = toy.server0.
Proof.
  split; [|split].
  - intros resp s' Hrun.
    destruct (login_handlers_keep_registry (BE := toy.backend) (GS := toy.stdlib)
                toy.server1) as [H _].
    apply (H 7 (inr toy.login1) resp s' Hrun).
  - destruct (login_handlers_keep_registry (BE := toy.backend) (GS := toy.stdlib)
                toy.server1) as [_ H].
    apply (H (inr {| main.SecondLogIn_Username := "alice"%string;
                     main.SecondLogIn_Secret := [1] |})).
  - destruct (login_handlers_keep_registry (BE := toy.backend) (GS := toy.stdlib)
                toy.server0) as [_ H].
    apply (H (inr toy.login2)).
Defined.

Lemma example_run_witness :
  exists (signUpRequest : main.SignUpRequest) (g' : nat) (server' : main.Server)
         (challenge : main.FirstLogInResponse) (secondRequest : main.SecondLogInRequest),
    main.SignUp_request (GS := toy.stdlib) (main.NewClient 2 8080) toy.packet
      "alice"%string 7 0%nat = Ok (signUpRequest, g') /\
    main.SignUpHandler (GS := toy.stdlib) toy.rand_Read (main.NewServer 2 8080)
      (inr signUpRequest)
    = ({| main.StatusCode := 200; main.Body := main.NoBody |}, server') /\
    main.FirstLoginHandler (GS := toy.stdlib) 11 server'
      (inr (main.LogIn_firstRequest toy.packet "alice"%string))
    = Ok ({| main.StatusCode := 200; main.Body := main.FirstLogInBody challenge |},
          server') /\
    main.LogIn_secondRequest (main.NewClient 2 8080) toy.packet "alice"%string challenge
    = Ok secondRequest /\
    main.SecondLogIn_Secret secondRequest = main.SignUp_Secret signUpRequest /\
    main.SecondLoginHandler (GS := toy.stdlib) server' (inr secondRequest)
    = ({| main.StatusCode := 200; main.Body := main.NoBody |}, server').
Proof.
  apply (example_run (BE := toy.backend) (GS := toy.stdlib) 2 2 8080 "alice"%string
           toy.packet toy.packet 7 11 toy.byteStream
           (crypto.Build_ByteStream (GS := toy.stdlib) 121) 0%nat toy.rand_Read
           [9; 9] [9; 9; 113; 56]).
  - reflexivity.
  - intros m g [-> | ->]; reflexivity.
  - intros [[] ?] [[] ?]; reflexivity.
  - reflexivity.
  - reflexivity.
  - reflexivity.
  - reflexivity.
Defined.

Lemma decode_encode (cs : list crypto._complex128) :
  toy.decode (toy.encode cs) = inr cs.
Proof.
  induction cs as [|[re im] cs IH]; [reflexivity|].
  cbn [toy.encode toy.decode crypto.Re crypto.Im]. rewrite IH, !Nat2Z.id. reflexivity.
Qed.

Lemma lagrangeHalfCPolynomial_json_witness :
  crypto.UnmarshalJSON (JC := toy.codec) toy.stale_poly [1; 2; 3; 4]
  = (toy.poly, None) /\
  crypto.UnmarshalJSON (JC := toy.codec) toy.stale_poly [1; 2; 3]
  = (toy.stale_poly, Some "unexpected end of JSON input"%string).
Proof.
  destruct (lagrangeHalfCPolynomial_json (JC := toy.codec) toy.poly toy.stale_poly
              [1; 2; 3; 4]) as [Hback Hbad].
  - intros [cs] bytes E. injection E as <-.
    cbn [crypto.json_Unmarshal toy.codec crypto._Coefs].
    rewrite decode_encode. reflexivity.
  - intros [re im]. reflexivity.
  - split; [apply Hback; reflexivity | apply Hbad; reflexivity].
Defined.

Lemma SignUp_request_content_witness :
  exists (req : main.SignUpRequest) (g' : nat),
    main.SignUp_request (GS := toy.stdlib) (main.NewClient 2 8080) toy.packet
      "alice"%string 7 0%nat = Ok (req, g') /\
    main.SignUp_Secret req = [113; 56] /\
    length (main.EncryptedSecret req) = 32%nat /\
    crypto.Decrypt toy.packet (main.EncryptedSecret req) = Ok [0; 0; 113; 56].
Proof.
  destruct (SignUp_request_content (BE := toy.backend) (GS := toy.stdlib)
              (main.NewClient 2 8080) toy.packet "alice"%string 7 0%nat) as [H _].
  destruct (H toy.byteStream eq_refl) as (req & g' & Hreq & _ & Hsecret & _ & Hlen & Hdec).
  exists req, g'. split; [exact Hreq|]. split; [exact Hsecret|]. split; [exact Hlen|].
  rewrite Hdec, Hsecret; [reflexivity|].
  intros m g [-> | ->]; reflexivity.
Defined.
